(** * TMDb → Snowflake bronze ingestion: extraction and load pipeline

    A shallow embedding of [src/config.py], [src/extract.py], [src/load.py],
    [src/main.py] and the ingestion asset of [orchestration/movies_pipeline.py].

    - Python dictionaries decoded from JSON are values of [Dict]: the keys the
      pipeline reads ("id", "results", "total_pages", "genres") with values of
      the documented types, and the remaining entries.  Identifiers are
      integers, as the annotations of the source say ([movie_id: int],
      [seen_ids: set[int]], [MOVIE_ID NUMBER]).  A key that is absent is
      [None]; a document in which "results", "total_pages" or "genres" is
      present with a null or a value of another type is not a [Dict] (the
      code raises [TypeError] on it), and a null "id" is read as an absent
      one, which the code does not tell apart.
    - Every function that talks to the outside runs in [M]: it takes the
      [World] (the chronological trace of sleeps, HTTP requests, warnings,
      errors and SQL statements, a clock in milliseconds that sleeping
      advances, and the two bronze tables) and returns a result or a raised
      exception with the new world.  Records logged at INFO and DEBUG are not
      traced.
    - The TMDb server is any function from the requests received so far and
      the current request to the outcome of the call of [session.get]: a
      timeout, a connection failure, another exception of the requests
      library, the operator's interrupt, or the final response.  A request of
      the trace is one such call; the redirects the library follows inside a
      call are not traced.
    - The loader is modelled against a Snowflake that answers: the
      connection is taken as established and a statement fails only on a
      table that does not exist.
    - Generators are folds over the loop body of their consumer, so requests
      interleave as they do when the generator is consumed lazily.
    - Durations are integers in milliseconds (0.26 s is 260). *)

From stdpp Require Import gmap strings list.
From Stdlib Require Import ZArith Lia.

Local Open Scope Z_scope.

(** ** Python values and exceptions *)

Module Py.

(** A JSON object as the pipeline reads it. *)
#[local] Unset Elimination Schemes.
Inductive Dict : Type := mkDict {
  d_id : option Z;                       (* d.get("id") *)
  d_results : option (list Dict);        (* d.get("results") *)
  d_total_pages : option Z;              (* d.get("total_pages") *)
  d_genres : option (list Dict);         (* d.get("genres") *)
  d_other : list (string * string)       (* every other entry, rendered *)
}.
#[local] Set Elimination Schemes.

(** [d.get(key, fallback)] on a key read as an option: [None] is the absent
    key, for which [get] gives the fallback. *)
Definition get {A : Type} (entry : option A) (fallback : A) : A :=
  match entry with
  | Some v => v
  | None => fallback
  end.

(** Truth value of [d.get("id")]: [None] and [0] are false. *)
Definition truthy_id (i : option Z) : bool :=
  match i with
  | Some z => negb (z =? 0)
  | None => false
  end.

(** [pages or fallback] for [pages: int | None]. *)
Definition or_ (pages : option Z) (fallback : Z) : Z :=
  match pages with
  | Some p => if p =? 0 then fallback else p
  | None => fallback
  end.

(** Why a [ValueError] was raised. *)
Inductive ValueCause : Type :=
| ClientError (status : Z)   (* raise ValueError("TMDb client error ...") *)
| BadRetryAfter              (* int() of a header that is no integer literal *)
| NegativeSleep              (* time.sleep of a negative length *)
| BadJson                    (* response.json() on a body that is no JSON *)
| RangeStepZero.             (* range() with step 0 *)

Inductive Exn : Type :=
| Timeout                    (* requests.Timeout *)
| ConnectionError            (* requests.ConnectionError *)
| TMDbAPIError (status : Z)
| ValueError (why : ValueCause)
| RetryError (last : Exn)    (* tenacity.RetryError *)
| ProgrammingError           (* snowflake.connector: statement on a missing table *)
| OverflowError              (* time.sleep of a length beyond 64-bit nanoseconds *)
| RequestException           (* requests: neither Timeout, ConnectionError nor ValueError *)
| KeyboardInterrupt.         (* the operator's Ctrl+C *)

Inductive Result (A : Type) : Type :=
| Ok (a : A)
| Raise (e : Exn).
Arguments Ok {A} a.
Arguments Raise {A} e.

(** How a loop ended: it ran to its end, or an exception left it. *)
Inductive Outcome : Type :=
| Normal
| Raised (e : Exn).

End Py.
Export Py.

(** ** The world outside the process *)

Inductive Endpoint : Type :=
| MoviePopular                           (* "/movie/popular" *)
| MovieDetail (movie_id : option Z)      (* f"/movie/{movie_id}" *)
| GenreMovieList.                        (* "/genre/movie/list" *)

Inductive ParamValue : Type :=
| PInt (z : Z)
| PStr (s : string).

Record Request : Type := {
  base_url : string;
  endpoint : Endpoint;
  params : list (string * ParamValue);
  timeout : Z
}.

(** The Retry-After header of a response. *)
Inductive RetryAfter : Type :=
| HeaderAbsent
| HeaderInt (seconds : Z)                (* int() accepts it *)
| HeaderOther.                           (* int() raises ValueError *)

Record HttpResponse : Type := {
  status_code : Z;
  retry_after : RetryAfter;
  json : option Dict                     (* None: the body is not JSON *)
}.

Inductive Reply : Type :=
| ReplyTimeout
| ReplyConnectionError
| ReplyHttp (r : HttpResponse)
| ReplyRequestException                  (* e.g. TooManyRedirects, ChunkedEncodingError *)
| ReplyInterrupted.                      (* Ctrl+C while the call waits *)

Inductive Level : Type := WARNING | ERROR.

Record MovieRow : Type := {
  MOVIE_ID : Z;
  RAW_DATA : Dict;
  SOURCE_URL : string;
  INGESTED_AT : Z;
  BATCH_ID : string
}.

Record GenreRow : Type := {
  G_RAW_DATA : list Dict;
  G_INGESTED_AT : Z;
  G_BATCH_ID : string
}.

Inductive Table : Type :=
| BRONZE_RAW_MOVIES
| BRONZE_RAW_GENRES.

Inductive Statement : Type :=
| CreateRawMovies                        (* CREATE TABLE IF NOT EXISTS BRONZE.RAW_MOVIES *)
| CreateRawGenres                        (* CREATE TABLE IF NOT EXISTS BRONZE.RAW_GENRES *)
| MergeMovie (source : MovieRow)         (* MERGE INTO BRONZE.RAW_MOVIES *)
| InsertGenres (row : GenreRow)          (* INSERT INTO BRONZE.RAW_GENRES *)
| SelectCount (table : Table).           (* SELECT COUNT( * ) FROM table *)

Inductive LogMessage : Type :=
| RateLimited (retry_after : Z)          (* "Rate limited by TMDb API. Waiting ..." *)
| RequestTimedOut                        (* "Request to ... timed out. Will retry." *)
| RetryingIn (seconds : Z) (e : Exn)     (* tenacity's before_sleep_log *)
| DetailFailed (movie_id : option Z) (e : Exn)
                                         (* "Failed to fetch detail for movie_id=..." *)
| LoadMoviesEmpty                        (* "load_movies called with empty list ..." *)
| QualityCheckFailed                     (* "BRONZE.RAW_MOVIES is empty after load!" *)
| PipelineFailed (e : Exn).              (* "Pipeline failed with unhandled error: ..." *)

Inductive Event : Type :=
| EvSleep (ms : Z)
| EvGet (req : Request)
| EvLog (level : Level) (msg : LogMessage)
| EvSql (stmt : Statement).

Record World : Type := {
  trace : list Event;
  clock : Z;
  RAW_MOVIES : option (list MovieRow);   (* None: the table does not exist *)
  RAW_GENRES : option (list GenreRow)
}.

Definition M (A : Type) : Type := World -> Result A * World.

Definition ret {A : Type} (a : A) : M A := fun w => (Ok a, w).

Definition raise {A : Type} (e : Exn) : M A := fun w => (Raise e, w).

Definition bind {A B : Type} (c : M A) (k : A -> M B) : M B :=
  fun w =>
    match c w with
    | (Ok a, w1) => k a w1
    | (Raise e, w1) => (Raise e, w1)
    end.

Notation "x <- c ;; k" := (bind c (fun x => k))
  (at level 100, c at next level, right associativity).
Notation "c ;;; k" := (bind c (fun _ => k))
  (at level 100, right associativity).

Definition emit (e : Event) : M unit :=
  fun w => (Ok tt, {| trace := trace w ++ [e]; clock := clock w;
                      RAW_MOVIES := RAW_MOVIES w; RAW_GENRES := RAW_GENRES w |}).

Definition log (level : Level) (msg : LogMessage) : M unit := emit (EvLog level msg).

(** The longest sleep, in milliseconds: [time.sleep] converts its length to
    a signed 64-bit count of nanoseconds. *)
Definition SLEEP_MAX : Z := 9223372036854.

(** [time.sleep]: a length that does not fit, of either sign, raises
    [OverflowError]; after that test a negative length raises [ValueError]. *)
Definition sleep (ms : Z) : M unit :=
  fun w =>
    if (ms <? - SLEEP_MAX) || (SLEEP_MAX <? ms) then (Raise OverflowError, w)
    else if ms <? 0 then (Raise (ValueError NegativeSleep), w)
    else (Ok tt, {| trace := trace w ++ [EvSleep ms]; clock := clock w + ms;
                    RAW_MOVIES := RAW_MOVIES w; RAW_GENRES := RAW_GENRES w |}).

(** The requests sent so far, oldest first. *)
Definition requests (t : list Event) : list Request :=
  omap (fun e => match e with EvGet r => Some r | _ => None end) t.

(** The sleeps taken so far, oldest first. *)
Definition sleeps (t : list Event) : list Z :=
  omap (fun e => match e with EvSleep ms => Some ms | _ => None end) t.

Definition Server : Type := list Request -> Request -> Reply.

(** ** tenacity

    The part of the library the decorator of [_get] uses, as tenacity 8
    documents and implements it. *)

Module tenacity.

(** [wait_exponential(multiplier, min, max)] at an attempt number, in seconds:
    [max(max(0, min), min(multiplier * 2 ** (attempt_number - 1), max))]. *)
Definition wait_exponential (multiplier min max : Z) (attempt_number : Z) : Z :=
  Z.max (Z.max 0 min) (Z.min (multiplier * 2 ^ (attempt_number - 1)) max).

(** The [Retrying] loop for [stop_after_attempt(left + attempt_number)]: a result
    or an exception the predicate rejects leaves at once; a retryable exception
    on the last attempt becomes [RetryError] ([reraise] is not set); otherwise
    [before_sleep] runs, the loop sleeps and calls again. *)
Fixpoint attempts {A : Type} (retry_if : Exn -> bool) (wait : Z -> Z)
    (left : nat) (attempt_number : Z) (fn : M A) : M A :=
  fun w =>
    match fn w with
    | (Ok a, w1) => (Ok a, w1)
    | (Raise e, w1) =>
        if retry_if e then
          match left with
          | O => (Raise (RetryError e), w1)
          | S left' =>
              (log WARNING (RetryingIn (wait attempt_number) e) ;;;
               sleep (1000 * wait attempt_number) ;;;
               attempts retry_if wait left' (attempt_number + 1) fn) w1
          end
        else (Raise e, w1)
    end.

Definition retry {A : Type} (stop_after_attempt : nat) (wait : Z -> Z)
    (retry_if : Exn -> bool) (fn : M A) : M A :=
  attempts retry_if wait (stop_after_attempt - 1) 1 fn.

End tenacity.

(** ** src/config.py *)

Record TMDbConfig : Type := {
  api_key : string;
  tmdb_base_url : string;
  pages_to_fetch : Z
}.

Record SnowflakeConfig : Type := {
  account : string;
  user : string;
  password : string;
  role : string;
  warehouse : string;
  database : string;
  schema : string
}.

Record PipelineConfig : Type := {
  batch_size : Z;
  log_level : string;
  tmdb : TMDbConfig;
  snowflake : SnowflakeConfig
}.

(** The functions of src/config.py.  [int] is Python's [int()] on a string
    ([None] when it raises [ValueError]); [environ] is [os.environ] once the
    module has run [load_dotenv()]. *)
Module config.

Inductive ConfigError : Type :=
| EnvironmentError (key : string)        (* a required variable is not set *)
| IntValueError (key : string).          (* int() rejected the variable's value *)

(** [load_dotenv()] without [override]: a variable of the .env file is set
    only if the environment does not have it. *)
Definition load_dotenv (dotenv environ : gmap string string) : gmap string string :=
  environ ∪ dotenv.

Section environment.

Variable int : string -> option Z.
Variable environ : gmap string string.

(** [os.getenv(key)] must be set and not empty. *)
Definition _require (key : string) : ConfigError + string :=
  match environ !! key with
  | Some value =>
      if String.eqb value "" then inl (EnvironmentError key) else inr value
  | None => inl (EnvironmentError key)
  end.

(** [os.getenv(key, fallback)]. *)
Definition _optional (key fallback : string) : string :=
  match environ !! key with
  | Some value => value
  | None => fallback
  end.

(** [int(_optional(key, fallback))]. *)
Definition int_optional (key fallback : string) : ConfigError + Z :=
  match int (_optional key fallback) with
  | Some z => inr z
  | None => inl (IntValueError key)
  end.

(** The calls of [load_config] in the order Python evaluates them. *)
Definition load_config : ConfigError + PipelineConfig :=
  match _require "TMDB_API_KEY" with
  | inl e => inl e
  | inr api_key =>
  let base_url := _optional "TMDB_BASE_URL" "https://api.themoviedb.org/3" in
  match int_optional "TMDB_PAGES_TO_FETCH" "20" with
  | inl e => inl e
  | inr pages_to_fetch =>
  match _require "SNOWFLAKE_ACCOUNT" with
  | inl e => inl e
  | inr account =>
  match _require "SNOWFLAKE_USER" with
  | inl e => inl e
  | inr user =>
  match _require "SNOWFLAKE_PASSWORD" with
  | inl e => inl e
  | inr password =>
  let role := _optional "SNOWFLAKE_ROLE" "DE_ROLE" in
  let warehouse := _optional "SNOWFLAKE_WAREHOUSE" "LECTURE_INGEST_WH" in
  let database := _optional "SNOWFLAKE_DATABASE" "LECTURE_DE" in
  let schema := _optional "SNOWFLAKE_SCHEMA" "BRONZE" in
  match int_optional "BATCH_SIZE" "100" with
  | inl e => inl e
  | inr batch_size =>
  let log_level := _optional "LOG_LEVEL" "INFO" in
  inr {| batch_size := batch_size; log_level := log_level;
         tmdb := {| api_key := api_key; tmdb_base_url := base_url;
                    pages_to_fetch := pages_to_fetch |};
         snowflake := {| account := account; user := user; password := password;
                         role := role; warehouse := warehouse;
                         database := database; schema := schema |} |}
  end end end end end end.

End environment.

End config.

(** ** src/extract.py *)

Module extract.

Definition REQUEST_DELAY_SECONDS : Z := 260.   (* 0.26 s *)

(** The locals of [extract_movies_with_details] next to its consumer's state. *)
Record Details (A : Type) : Type := {
  seen_ids : gset (option Z);
  total_extracted : Z;
  consumer : A
}.
Arguments Build_Details {A} _ _ _.
Arguments seen_ids {A} _.
Arguments total_extracted {A} _.
Arguments consumer {A} _.

Section TMDbExtractor.

Variable server : Server.
Variable config : TMDbConfig.

(** [self.session.get(url, params=params, timeout=15)]: one call, whose
    outcome the server gives. *)
Definition session_get (req : Request) : World -> Reply * World :=
  fun w =>
    (server (requests (trace w)) req,
     {| trace := trace w ++ [EvGet req]; clock := clock w;
        RAW_MOVIES := RAW_MOVIES w; RAW_GENRES := RAW_GENRES w |}).

(** [int(response.headers.get("Retry-After", 10))]. *)
Definition int_retry_after (h : RetryAfter) : M Z :=
  match h with
  | HeaderAbsent => ret 10
  | HeaderInt n => ret n
  | HeaderOther => raise (ValueError BadRetryAfter)
  end.

(** The request [_get] sends: the url, the parameters with the key, the timeout. *)
Definition request_for (ep : Endpoint) (ps : list (string * ParamValue)) : Request :=
  {| base_url := tmdb_base_url config; endpoint := ep;
     params := ("api_key"%string, PStr (api_key config)) :: ps;
     timeout := 15 |}.

(** The body of [_get]: one attempt. *)
Definition _get_once (ep : Endpoint) (ps : list (string * ParamValue)) : M Dict :=
  sleep REQUEST_DELAY_SECONDS ;;;
  fun w =>
    match session_get (request_for ep ps) w with
    | (ReplyTimeout, w1) =>
        (log WARNING RequestTimedOut ;;; raise Timeout) w1
    | (ReplyConnectionError, w1) => (Raise ConnectionError, w1)
    | (ReplyRequestException, w1) => (Raise RequestException, w1)
    | (ReplyInterrupted, w1) => (Raise KeyboardInterrupt, w1)
    | (ReplyHttp response, w1) =>
        (if status_code response =? 429 then
           retry_after <- int_retry_after (retry_after response) ;;
           log WARNING (RateLimited retry_after) ;;;
           sleep (1000 * retry_after) ;;;
           raise (TMDbAPIError 429)
         else if 500 <=? status_code response then
           raise (TMDbAPIError (status_code response))
         else if 400 <=? status_code response then
           raise (ValueError (ClientError (status_code response)))
         else
           (* raise_for_status() passes below 400 *)
           match json response with
           | Some data => ret data
           | None => raise (ValueError BadJson)
           end) w1
    end.

(** [retry_if_exception_type((requests.Timeout, requests.ConnectionError, TMDbAPIError))]. *)
Definition retry_if_exception_type (e : Exn) : bool :=
  match e with
  | Timeout | ConnectionError | TMDbAPIError _ => true
  | _ => false
  end.

Definition _get (ep : Endpoint) (ps : list (string * ParamValue)) : M Dict :=
  tenacity.retry 5 (tenacity.wait_exponential 1 1 30) retry_if_exception_type
    (_get_once ep ps).

(** [for x in items: body], the loop state threaded through. *)
Fixpoint for_each {I A : Type} (items : list I)
    (body : I -> A -> World -> A * Outcome * World) (a : A) (w : World)
    : A * Outcome * World :=
  match items with
  | [] => (a, Normal, w)
  | x :: rest =>
      match body x a w with
      | (a1, Normal, w1) => for_each rest body a1 w1
      | stopped => stopped
      end
  end.

(** [for page in range(page, page + todo)] of [extract_popular_movies];
    [body] is what the consumer does with each yielded movie. *)
Fixpoint popular_pages {A : Type} (todo : nat) (page : Z)
    (body : Dict -> A -> World -> A * Outcome * World) (a : A) (w : World)
    : A * Outcome * World :=
  match todo with
  | O => (a, Normal, w)
  | S todo' =>
      match _get MoviePopular
              [("page"%string, PInt page); ("language"%string, PStr "en-US")] w with
      | (Raise e, w1) => (a, Raised e, w1)
      | (Ok data, w1) =>
          let movies_on_page := get (d_results data) [] in
          let total_pages := get (d_total_pages data) 1 in
          match for_each movies_on_page body a w1 with
          | (a1, Normal, w2) =>
              if total_pages <=? page then (a1, Normal, w2)
              else popular_pages todo' (page + 1) body a1 w2
          | stopped => stopped
          end
      end
  end.

Definition extract_popular_movies {A : Type} (pages : option Z)
    (body : Dict -> A -> World -> A * Outcome * World) (a : A) (w : World)
    : A * Outcome * World :=
  let pages_to_fetch := or_ pages (pages_to_fetch config) in
  (* range(1, pages_to_fetch + 1) *)
  popular_pages (Z.to_nat pages_to_fetch) 1 body a w.

Definition extract_movie_detail (movie_id : option Z) : M Dict :=
  _get (MovieDetail movie_id)
    [("language"%string, PStr "en-US"); ("append_to_response"%string, PStr "keywords")].

Definition extract_genre_list : M (list Dict) :=
  data <- _get GenreMovieList [("language"%string, PStr "en-US")] ;;
  ret (get (d_genres data) []).

(** [except (ValueError, TMDbAPIError)]. *)
Definition caught (e : Exn) : bool :=
  match e with
  | ValueError _ | TMDbAPIError _ => true
  | _ => false
  end.

(** One turn of the loop of [extract_movies_with_details] over a listed movie. *)
Definition details_step {A : Type}
    (body : Dict -> A -> World -> A * Outcome * World)
    (list_movie : Dict) (st : Details A) (w : World)
    : Details A * Outcome * World :=
  let movie_id := d_id list_movie in
  if bool_decide (movie_id ∈ seen_ids st) then (st, Normal, w)
  else
    let st1 := {| seen_ids := seen_ids st ∪ {[movie_id]};
                  total_extracted := total_extracted st;
                  consumer := consumer st |} in
    match extract_movie_detail movie_id w with
    | (Ok detail, w1) =>
        (* yield detail *)
        match body detail (consumer st1) w1 with
        | (a, o, w2) =>
            ({| seen_ids := seen_ids st1;
                total_extracted := total_extracted st1 + 1;
                consumer := a |}, o, w2)
        end
    | (Raise e, w1) =>
        if caught e then
          match log ERROR (DetailFailed movie_id e) w1 with
          | (_, w2) => (st1, Normal, w2)
          end
        else (st1, Raised e, w1)
    end.

Definition details_run {A : Type} (pages : option Z)
    (body : Dict -> A -> World -> A * Outcome * World) (a : A) (w : World)
    : Details A * Outcome * World :=
  extract_popular_movies pages (details_step body)
    {| seen_ids := ∅; total_extracted := 0; consumer := a |} w.

Definition extract_movies_with_details {A : Type} (pages : option Z)
    (body : Dict -> A -> World -> A * Outcome * World) (a : A) (w : World)
    : A * Outcome * World :=
  match details_run pages body a w with
  | (st, o, w1) => (consumer st, o, w1)
  end.

(** The consumer [for x in stream: out.append(x)]. *)
Definition append_to (x : Dict) (out : list Dict) (w : World)
    : list Dict * Outcome * World :=
  (out ++ [x], Normal, w).

End TMDbExtractor.

End extract.

(** ** src/load.py *)

Module load.

(** [MERGE INTO BRONZE.RAW_MOVIES ... ON target.MOVIE_ID = source.movie_id]:
    every matching row is updated; with no match the source row is inserted. *)
Definition merge (source : MovieRow) (target : list MovieRow) : list MovieRow :=
  if existsb (fun t => MOVIE_ID t =? MOVIE_ID source) target then
    map (fun t =>
           if MOVIE_ID t =? MOVIE_ID source then
             {| MOVIE_ID := MOVIE_ID t; RAW_DATA := RAW_DATA source;
                SOURCE_URL := SOURCE_URL source; INGESTED_AT := INGESTED_AT source;
                BATCH_ID := BATCH_ID source |}
           else t) target
  else target ++ [source].

(** What a statement does to the two tables, against a Snowflake that
    answers; [None] when it fails, which it does only on a table that does
    not exist. *)
Definition run_statement (stmt : Statement) (w : World)
    : option (option (list MovieRow) * option (list GenreRow)) :=
  match stmt with
  | CreateRawMovies => Some (Some (get (RAW_MOVIES w) []), RAW_GENRES w)
  | CreateRawGenres => Some (RAW_MOVIES w, Some (get (RAW_GENRES w) []))
  | MergeMovie source =>
      match RAW_MOVIES w with
      | Some target => Some (Some (merge source target), RAW_GENRES w)
      | None => None
      end
  | InsertGenres row =>
      match RAW_GENRES w with
      | Some target => Some (RAW_MOVIES w, Some (target ++ [row]))
      | None => None
      end
  | SelectCount BRONZE_RAW_MOVIES =>
      match RAW_MOVIES w with
      | Some _ => Some (RAW_MOVIES w, RAW_GENRES w)
      | None => None
      end
  | SelectCount BRONZE_RAW_GENRES =>
      match RAW_GENRES w with
      | Some _ => Some (RAW_MOVIES w, RAW_GENRES w)
      | None => None
      end
  end.

(** [cur.execute(sql, params)]. *)
Definition _execute (stmt : Statement) : M unit :=
  fun w =>
    match run_statement stmt w with
    | Some (movies, genres) =>
        (Ok tt, {| trace := trace w ++ [EvSql stmt]; clock := clock w;
                   RAW_MOVIES := movies; RAW_GENRES := genres |})
    | None =>
        (Raise ProgrammingError,
         {| trace := trace w ++ [EvSql stmt]; clock := clock w;
            RAW_MOVIES := RAW_MOVIES w; RAW_GENRES := RAW_GENRES w |})
    end.

(** [range(0, stop, step)] for a length [stop]. *)
Definition range (stop step : Z) : M (list Z) :=
  if step =? 0 then raise (ValueError RangeStepZero)
  else if step <? 0 then ret []
  else ret ((fun k => k * step) <$> seqZ 0 ((stop + step - 1) `div` step)).

(** [l[start:stop]] for [0 <= start <= stop]. *)
Definition slice {A : Type} (l : list A) (start stop : Z) : list A :=
  take (Z.to_nat (stop - start)) (drop (Z.to_nat start) l).

Definition source_url : string := "https://api.themoviedb.org/3/movie/{id}".

Section SnowflakeLoader.

Variable batch_id : string.                (* str(uuid.uuid4()) *)

Definition ensure_tables_exist : M unit :=
  _execute CreateRawMovies ;;; _execute CreateRawGenres.

(** The tuple built for a movie, when [movie.get("id")] is true. *)
Definition row_of (ingested_at : Z) (movie : Dict) : option MovieRow :=
  match d_id movie with
  | Some movie_id =>
      if truthy_id (Some movie_id) then
        Some {| MOVIE_ID := movie_id; RAW_DATA := movie; SOURCE_URL := source_url;
                INGESTED_AT := ingested_at; BATCH_ID := batch_id |}
      else None
  | None => None
  end.

(** [for row in rows: self._execute(merge_sql, list(row)); total_loaded += 1]. *)
Fixpoint execute_rows (rows : list MovieRow) (total_loaded : Z) : M Z :=
  match rows with
  | [] => ret total_loaded
  | row :: rest =>
      _execute (MergeMovie row) ;;;
      execute_rows rest (total_loaded + 1)
  end.

(** [for batch_start in range(0, len(movies), batch_size)]. *)
Fixpoint load_batches (movies : list Dict) (batch_size ingested_at : Z)
    (starts : list Z) (total_loaded : Z) : M Z :=
  match starts with
  | [] => ret total_loaded
  | batch_start :: later =>
      let batch := slice movies batch_start (batch_start + batch_size) in
      let rows := omap (row_of ingested_at) batch in
      total_loaded <- execute_rows rows total_loaded ;;
      load_batches movies batch_size ingested_at later total_loaded
  end.

Definition load_movies (movies : list Dict) (batch_size : Z) : M Z :=
  match movies with
  | [] => log WARNING LoadMoviesEmpty ;;; ret 0
  | _ =>
      fun w =>
        let ingested_at := clock w in
        (starts <- range (Z.of_nat (length movies)) batch_size ;;
         load_batches movies batch_size ingested_at starts 0) w
  end.

Definition load_genres (genres : list Dict) : M Z :=
  match genres with
  | [] => ret 0
  | _ =>
      fun w =>
        let ingested_at := clock w in
        (_execute (InsertGenres {| G_RAW_DATA := genres; G_INGESTED_AT := ingested_at;
                                   G_BATCH_ID := batch_id |}) ;;;
         ret 1) w
  end.

(** [cur.execute(f"SELECT COUNT( * ) FROM {table}"); cur.fetchone()[0]]. *)
Definition get_row_count (table : Table) : M Z :=
  _execute (SelectCount table) ;;;
  fun w =>
    (Ok (match table with
         | BRONZE_RAW_MOVIES => Z.of_nat (length (get (RAW_MOVIES w) []))
         | BRONZE_RAW_GENRES => Z.of_nat (length (get (RAW_GENRES w) []))
         end), w).

Definition run_post_load_checks : M unit :=
  movies_count <- get_row_count BRONZE_RAW_MOVIES ;;
  genres_count <- get_row_count BRONZE_RAW_GENRES ;;
  if movies_count =? 0 then log ERROR QualityCheckFailed else ret tt.

End SnowflakeLoader.

End load.

(** ** src/main.py *)

Module main.

Inductive StatValue : Type :=
| SInt (z : Z)
| STime (t : Z)                            (* isoformat of a clock reading *)
| SSeconds (ms : Z).                       (* round(seconds, 2) of a duration *)

(** The [stats] dict, keys in insertion order. *)
Definition Stats : Type := list (string * StatValue).

(** [stats[key] = value]. *)
Fixpoint set_item (key : string) (value : StatValue) (stats : Stats) : Stats :=
  match stats with
  | [] => [(key, value)]
  | (k, v) :: rest =>
      if String.eqb k key then (k, value) :: rest
      else (k, v) :: set_item key value rest
  end.

(** [stats.get(key)]. *)
Fixpoint get_item (key : string) (stats : Stats) : option StatValue :=
  match stats with
  | [] => None
  | (k, v) :: rest => if String.eqb k key then Some v else get_item key rest
  end.

Section run.

Variable server : Server.
Variable cfg : PipelineConfig.             (* load_config() *)
Variable uuid : string.                    (* uuid.uuid4() of the loader *)

(** [run_pipeline]; entering and leaving [with SnowflakeLoader(...)] is taken
    to succeed (see the head of the file). *)
Definition run_pipeline (pages : option Z) (dry_run : bool) : M Stats :=
  fun w =>
    let pipeline_start := clock w in
    let pages_to_fetch := or_ pages (pages_to_fetch (tmdb cfg)) in
    let stats : Stats :=
      [("start_time"%string, STime (clock w));
       ("pages_fetched"%string, SInt 0);
       ("movies_extracted"%string, SInt 0);
       ("genres_extracted"%string, SInt 0);
       ("movies_loaded"%string, SInt 0);
       ("genres_loaded"%string, SInt 0);
       ("errors"%string, SInt 0);
       ("duration_seconds"%string, SInt 0)] in
    match extract.extract_genre_list server (tmdb cfg) w with
    | (Raise e, w1) => (Raise e, w1)
    | (Ok genres, w1) =>
        let stats := set_item "genres_extracted" (SInt (Z.of_nat (length genres))) stats in
        match extract.extract_movies_with_details server (tmdb cfg)
                (Some pages_to_fetch) extract.append_to [] w1 with
        | (_, Raised e, w2) => (Raise e, w2)
        | (movies, Normal, w2) =>
            let stats := set_item "movies_extracted" (SInt (Z.of_nat (length movies))) stats in
            let stats := set_item "pages_fetched" (SInt pages_to_fetch) stats in
            if dry_run then
              (Ok (set_item "duration_seconds" (SSeconds (clock w2 - pipeline_start)) stats), w2)
            else
              (load.ensure_tables_exist ;;;
               genres_loaded <- load.load_genres uuid genres ;;
               let stats := set_item "genres_loaded" (SInt genres_loaded) stats in
               movies_loaded <- load.load_movies uuid movies (batch_size cfg) ;;
               let stats := set_item "movies_loaded" (SInt movies_loaded) stats in
               load.run_post_load_checks ;;;
               fun w3 =>
                 (Ok (set_item "duration_seconds" (SSeconds (clock w3 - pipeline_start)) stats),
                  w3)) w2
        end
    end.

End run.

(** What [argparse] hands to [main]. *)
Record Args : Type := {
  args_pages : option Z;                   (* --pages *)
  args_dry_run : bool                      (* --dry-run *)
}.

(** How [main] ends: it returns an exit code, or an exception of its first
    [try] leaves it, which [except EnvironmentError] does not catch: the
    [ValueError] of an [int()] in [load_config], or what [logging.basicConfig]
    raises for a level it does not take.  In its second [try] an interrupt
    ends it with code 0, any other exception with code 1 after
    [logger.exception]. *)
Inductive Ending : Type :=
| Returns (code : Z)
| Uncaught (e : config.ConfigError)
| UncaughtLogging.

Section entry.

Variable int : string -> option Z.
Variable setup_logging : string -> bool.   (* false: setup_logging raises *)
Variable environ : gmap string string.
Variable server : Server.
Variable uuid : string.

Definition main (args : Args) (w : World) : Ending * World :=
  match config.load_config int environ with
  | inl (config.EnvironmentError key) => (Returns 1, w)
  | inl (config.IntValueError key) => (Uncaught (config.IntValueError key), w)
  | inr cfg =>
      if setup_logging (log_level cfg) then
        (* run_pipeline calls load_config() again, on the same environment *)
        match run_pipeline server cfg uuid (args_pages args) (args_dry_run args) w with
        | (Ok _, w1) => (Returns 0, w1)
        | (Raise KeyboardInterrupt, w1) => (Returns 0, w1)
        | (Raise e, w1) => (Returns 1, (log ERROR (PipelineFailed e) w1).2)
        end
      else (UncaughtLogging, w)
  end.

End entry.

End main.

(** ** orchestration/movies_pipeline.py *)

Module movies_pipeline.

(** [MoviesDbtTranslator.get_group_name]; [tags] is the list under "tags" in
    [dbt_resource_props], [None] when the key is absent. *)
Definition get_group_name (tags : option (list string)) : string :=
  let tags := get tags [] in
  if bool_decide ("marts"%string ∈ tags) then "marts"
  else if bool_decide ("gold"%string ∈ tags) then "gold"
  else if bool_decide ("silver"%string ∈ tags) then "silver"
  else if bool_decide ("bronze"%string ∈ tags) then "bronze"
  else "transformation".

(** [os.environ.get(key, "")]. *)
Definition environ_get (environ : gmap string string) (key : string) : string :=
  match environ !! key with
  | Some value => value
  | None => ""
  end.

(** The [env] of the subprocess of [ingest_tmdb_to_bronze]. *)
Definition subprocess_env (environ : gmap string string) : gmap string string :=
  <["TMDB_API_KEY"%string := environ_get environ "TMDB_API_KEY"]>
  (<["SNOWFLAKE_PASSWORD"%string := environ_get environ "SNOWFLAKE_PASSWORD"]>
  (<["SNOWFLAKE_USER"%string := environ_get environ "SNOWFLAKE_USER"]>
  (<["SNOWFLAKE_ACCOUNT"%string := environ_get environ "SNOWFLAKE_ACCOUNT"]>
  (<["NO_COLOR"%string := "1"%string]>
  (<["PYTHONUTF8"%string := "1"%string]> environ))))).

Inductive Materialization : Type :=
| MaterializeResult
| RuntimeError (returncode : Z).

Section ingest.

Variable int : string -> option Z.
Variable setup_logging : string -> bool.
Variable dotenv : gmap string string.      (* the .env file the subprocess finds *)
Variable server : Server.
Variable uuid : string.

(** [python -m src.main] in an environment: importing src.config runs
    [load_dotenv()], then [sys.exit(main())] with no argument on the command
    line; an exception that leaves [main] ends the process with status 1. *)
Definition run_module (environ : gmap string string) (w : World) : Z * World :=
  match main.main int setup_logging (config.load_dotenv dotenv environ) server uuid
          {| main.args_pages := None; main.args_dry_run := false |} w with
  | (main.Returns code, w1) => (code, w1)
  | (main.Uncaught _, w1) => (1, w1)
  | (main.UncaughtLogging, w1) => (1, w1)
  end.

Definition ingest_tmdb_to_bronze (environ : gmap string string) (w : World)
    : Materialization * World :=
  match run_module (subprocess_env environ) w with
  | (returncode, w1) =>
      if returncode =? 0 then (MaterializeResult, w1)
      else (RuntimeError returncode, w1)
  end.

End ingest.

End movies_pipeline.

(** * Vocabulary of the properties *)

Definition popular_params (page : Z) : list (string * ParamValue) :=
  [("page"%string, PInt page); ("language"%string, PStr "en-US")].

(** A reply after which the attempt may be repeated. *)
Definition transient (reply : Reply) : Prop :=
  match reply with
  | ReplyTimeout | ReplyConnectionError => True
  | ReplyHttp r => status_code r = 429 \/ 500 <= status_code r
  | ReplyRequestException | ReplyInterrupted => False
  end.

(** A reply that carries a decoded document. *)
Definition success (reply : Reply) (d : Dict) : Prop :=
  match reply with
  | ReplyHttp r => status_code r < 400 /\ json r = Some d
  | _ => False
  end.

(** The world after more events and [dt] more milliseconds. *)
Definition after (w : World) (events : list Event) (dt : Z) : World :=
  {| trace := trace w ++ events; clock := clock w + dt;
     RAW_MOVIES := RAW_MOVIES w; RAW_GENRES := RAW_GENRES w |}.

(** The page numbers of the listing requests sent so far, oldest first. *)
Definition listing_pages (t : list Event) : list Z :=
  omap (fun req =>
          match endpoint req, params req with
          | MoviePopular, [_; (_, PInt page); _] => Some page
          | _, _ => None
          end) (requests t).

(** The identifiers whose detail was requested so far, oldest first. *)
Definition detail_requests (t : list Event) : list (option Z) :=
  omap (fun req =>
          match endpoint req with
          | MovieDetail movie_id => Some movie_id
          | _ => None
          end) (requests t).

(** The messages logged so far at a level, oldest first. *)
Definition logged (level : Level) (t : list Event) : list LogMessage :=
  omap (fun e =>
          match e, level with
          | EvLog WARNING msg, WARNING => Some msg
          | EvLog ERROR msg, ERROR => Some msg
          | _, _ => None
          end) t.

(** The sleeps of a retry loop that fails on each of its [left + 1] attempts:
    0.26 s before every request, the backoff delay between two attempts. *)
Fixpoint exhausted_sleeps (wait : Z -> Z) (left : nat) (attempt_number : Z) : list Z :=
  match left with
  | O => [260]
  | S left' =>
      260 :: 1000 * wait attempt_number ::
        exhausted_sleeps wait left' (attempt_number + 1)
  end.

(** The detail endpoint answers with the document of the identifier asked for. *)
Definition detail_echoes_id (server : Server) (config : TMDbConfig) : Prop :=
  forall history movie_id ps d,
    success (server history (extract.request_for config (MovieDetail movie_id) ps)) d ->
    d_id d = movie_id.

(** [d] is a successful reply of the detail endpoint asked for [movie_id]. *)
Definition detail_of (server : Server) (config : TMDbConfig)
    (movie_id : option Z) (d : Dict) : Prop :=
  exists history ps,
    success (server history (extract.request_for config (MovieDetail movie_id) ps)) d.

(** The yielded records are the details of pairwise distinct identifiers, all
    of them in [seen_ids]. *)
Definition yielded_once (server : Server) (config : TMDbConfig)
    (st : extract.Details (list Dict)) : Prop :=
  exists ids : list (option Z),
    NoDup ids /\
    (forall i, i ∈ ids -> i ∈ extract.seen_ids st) /\
    Forall2 (detail_of server config) ids (extract.consumer st).

(** The target table after the [MERGE] of each row in turn. *)
Definition merge_all (rows : list MovieRow) (target : list MovieRow) : list MovieRow :=
  foldl (fun t source => load.merge source t) target rows.

(** [movie.get("id")] is true. *)
Definition usable (movie : Dict) : Prop := truthy_id (d_id movie) = true.

(** The rows [load_movies] builds for a list of movies. *)
Definition rows_of (batch_id : string) (ingested_at : Z) (movies : list Dict)
    : list MovieRow :=
  omap (load.row_of batch_id ingested_at) movies.

(** The row [load_genres] inserts. *)
Definition snapshot (batch_id : string) (ingested_at : Z) (genres : list Dict)
    : GenreRow :=
  {| G_RAW_DATA := genres; G_INGESTED_AT := ingested_at; G_BATCH_ID := batch_id |}.

(** The world after the statements that left it with the given tables. *)
Definition stored (w : World) (statements : list Statement)
    (movies : option (list MovieRow)) (genres : option (list GenreRow)) : World :=
  {| trace := trace w ++ (EvSql <$> statements); clock := clock w;
     RAW_MOVIES := movies; RAW_GENRES := genres |}.

(** The SQL statements issued so far, oldest first. *)
Definition statements (t : list Event) : list Statement :=
  omap (fun e => match e with EvSql stmt => Some stmt | _ => None end) t.

(** The parameters of a detail request. *)
Definition detail_params : list (string * ParamValue) :=
  [("language"%string, PStr "en-US"); ("append_to_response"%string, PStr "keywords")].

(** No sleep in the trace is negative and every request comes right after a
    sleep of at least 0.26 s; [slept] tells whether the event before the trace
    was such a sleep. *)
Fixpoint paced_after (slept : bool) (t : list Event) : bool :=
  match t with
  | [] => true
  | EvSleep ms :: rest => (0 <=? ms) && paced_after (260 <=? ms) rest
  | EvGet _ :: rest => slept && paced_after false rest
  | _ :: rest => paced_after false rest
  end.

Definition paced (t : list Event) : bool := paced_after false t.

(** The times of the requests of a trace that starts at time [now], when
    time passes in sleeps only. *)
Fixpoint request_times (now : Z) (t : list Event) : list Z :=
  match t with
  | [] => []
  | EvSleep ms :: rest => request_times (now + ms) rest
  | EvGet _ :: rest => now :: request_times now rest
  | _ :: rest => request_times now rest
  end.

(** Consecutive times are at least [gap] apart. *)
Fixpoint spaced (gap : Z) (times : list Z) : Prop :=
  match times with
  | a :: rest =>
      match rest with
      | b :: _ => a + gap <= b
      | [] => True
      end /\ spaced gap rest
  | [] => True
  end.

(** The distinct elements of a list in the order of their first occurrence. *)
Definition first_occurrences (ids : list (option Z)) : list (option Z) :=
  reverse (remove_dups (reverse ids)).

(** [int()] on a non-empty string of ASCII digits, for sample environments. *)
Fixpoint decimal_digits (acc : Z) (s : string) : option Z :=
  match s with
  | EmptyString => Some acc
  | String c rest =>
      let n := Z.of_nat (Ascii.nat_of_ascii c) in
      if (48 <=? n) && (n <=? 57) then decimal_digits (10 * acc + (n - 48)) rest
      else None
  end.

Definition decimal (s : string) : option Z :=
  match s with
  | EmptyString => None
  | _ => decimal_digits 0 s
  end.

(** The longest Retry-After, in seconds, that [time.sleep] takes. *)
Definition RETRY_AFTER_MAX : Z := 9223372036.


(** Events that keep a trace paced wherever they are appended. *)
Definition well_paced (added : list Event) : Prop :=
  forall slept, paced_after slept added = true.

(** From [w] to [w']: events were appended that keep the trace paced and hold
    no SQL statement, and the tables are the same. *)
Definition reads_only (w w' : World) : Prop :=
  exists added,
    trace w' = trace w ++ added /\
    well_paced added /\
    statements added = [] /\
    RAW_MOVIES w' = RAW_MOVIES w /\
    RAW_GENRES w' = RAW_GENRES w.

(** From [w] to [w']: events were appended that keep the trace paced. *)
Definition grows_paced (w w' : World) : Prop :=
  exists added, trace w' = trace w ++ added /\ well_paced added.

(** How often the detail of an identifier is requested in a list of events. *)
Definition detail_count (i : option Z) (added : list Event) : nat :=
  length (filter (fun j => j = i) (detail_requests added)).

(** Details requested so far: none for an identifier not yet seen, at most
    five for a seen one. *)
Definition requested_once (w0 : World) (st : extract.Details (list Dict))
    (w : World) : Prop :=
  exists added,
    trace w = trace w0 ++ added /\
    forall i, (detail_count i added <=
               if bool_decide (i ∈ extract.seen_ids st) then 5 else 0)%nat.

(** The identifiers met so far, each once, after a walk over more of them. *)
Definition visit (met : list (option Z)) (ids : list (option Z)) : list (option Z) :=
  foldl (fun met i => if bool_decide (i ∈ met) then met else met ++ [i]) met ids.

(** The state of [extract_movies_with_details] against a server that answers
    every detail request with [detail]: the identifiers met are the seen ones,
    their details were yielded in this order, counted, and requested once
    each. *)
Definition walked (detail : option Z -> Dict) (before : list (option Z))
    (met : list (option Z)) (st : extract.Details (list Dict)) (w : World) : Prop :=
  extract.seen_ids st = list_to_set met /\
  extract.consumer st = detail <$> met /\
  extract.total_extracted st = Z.of_nat (length met) /\
  detail_requests (trace w) = before ++ met.

(** The movies the listing page [page] holds, for a listing given by page. *)
Definition listed_on (listing : Z -> Dict) (page : Z) : list Dict :=
  get (d_results (listing page)) [].

(** An exception that is none of those [_get] retries: no bare timeout,
    connection failure or [TMDbAPIError]. *)
Definition not_retryable (e : Exn) : Prop :=
  extract.retry_if_exception_type e = false.

(** If [except (ValueError, TMDbAPIError)] catches it, it is a [ValueError]. *)
Definition caught_as_value_error (e : Exn) : Prop :=
  extract.caught e = true -> exists why, e = ValueError why.

(** From [w] to [w']: events were appended, none of them a request. *)
Definition loads_only (w w' : World) : Prop :=
  exists added, trace w' = trace w ++ added /\ requests added = [].

(** A result that is a value, or an exception in [P]. *)
Definition raises_only {A : Type} (P : Exn -> Prop) (r : Result A) : Prop :=
  match r with
  | Ok _ => True
  | Raise e => P e
  end.

(** A loop that ran to its end, or was left by an exception in [P]. *)
Definition ends_only (P : Exn -> Prop) (o : Outcome) : Prop :=
  match o with
  | Normal => True
  | Raised e => P e
  end.

(** From [w] to [w']: a table that exists still does; the movies table has
    its identifiers where they were and the new ones after them; the genres
    table has its rows where they were and the new ones after them. *)
Definition extends_tables (w w' : World) : Prop :=
  (forall t, RAW_MOVIES w = Some t ->
     exists t', RAW_MOVIES w' = Some t' /\
                (MOVIE_ID <$> t) `prefix_of` (MOVIE_ID <$> t')) /\
  (forall g, RAW_GENRES w = Some g ->
     exists g', RAW_GENRES w' = Some g' /\ g `prefix_of` g').

(** The movies table after [load_movies] on an existing table. *)
Definition loaded_movies (batch_size : Z) (batch_id : string) (ingested_at : Z)
    (movies : list Dict) (target : list MovieRow) : list MovieRow :=
  if 0 <? batch_size then merge_all (rows_of batch_id ingested_at movies) target
  else target.

(** The genres table after [load_genres] on an existing table. *)
Definition loaded_genres (batch_id : string) (ingested_at : Z)
    (genres : list Dict) (target : list GenreRow) : list GenreRow :=
  match genres with
  | [] => target
  | _ => target ++ [snapshot batch_id ingested_at genres]
  end.

(** The number of movies [load_movies] counts. *)
Definition loaded_count (batch_size : Z) (movies : list Dict) : Z :=
  if 0 <? batch_size then
    Z.of_nat (length (List.filter (fun movie => truthy_id (d_id movie)) movies))
  else 0.

(** The variables [load_config] requires, in the order it reads them. *)
Definition required_keys : list string :=
  ["TMDB_API_KEY"; "SNOWFLAKE_ACCOUNT"; "SNOWFLAKE_USER"; "SNOWFLAKE_PASSWORD"]%string.

(** The variables [load_config] reads with a default. *)
Definition optional_keys : list string :=
  ["TMDB_BASE_URL"; "TMDB_PAGES_TO_FETCH"; "SNOWFLAKE_ROLE"; "SNOWFLAKE_WAREHOUSE";
   "SNOWFLAKE_DATABASE"; "SNOWFLAKE_SCHEMA"; "BATCH_SIZE"; "LOG_LEVEL"]%string.

(** A variable is set to a value that is not empty. *)
Definition is_set (environ : gmap string string) (key : string) : Prop :=
  exists value, environ !! key = Some value /\ value <> ""%string.

(** The medallion layers a dbt model can be tagged with. *)
Definition layers : list string := ["marts"; "gold"; "silver"; "bronze"]%string.

(** ** Sample worlds *)

Module sample.

Definition movie (i : Z) : Dict :=
  {| d_id := Some i; d_results := None; d_total_pages := None;
     d_genres := None; d_other := [] |}.

Definition listing (ids : list Z) (total : Z) : Dict :=
  {| d_id := None; d_results := Some (movie <$> ids);
     d_total_pages := Some total; d_genres := None; d_other := [] |}.

Definition genres : Dict :=
  {| d_id := None; d_results := None; d_total_pages := None;
     d_genres := Some [movie 28; movie 12; movie 16]; d_other := [] |}.

Definition replied (status : Z) (body : option Dict) : Reply :=
  ReplyHttp {| status_code := status; retry_after := HeaderAbsent; json := body |}.

Definition page_of (req : Request) : Z :=
  match params req with
  | [_; (_, PInt page); _] => page
  | _ => 0
  end.

(** A server with the given listing pages, the given [total_pages] on each of
    them, and for each movie the status its detail endpoint answers with. *)
Definition server (pages : list (list Z)) (total : Z) (status_of : Z -> Z) : Server :=
  fun _ req =>
    match endpoint req with
    | MoviePopular =>
        replied 200 (Some (listing (get (pages !! Z.to_nat (page_of req - 1)) []) total))
    | MovieDetail (Some i) =>
        if status_of i <? 400 then replied (status_of i) (Some (movie i))
        else replied (status_of i) None
    | MovieDetail None => replied 404 None
    | GenreMovieList => replied 200 (Some genres)
    end.

Definition tmdb_config : TMDbConfig :=
  {| api_key := "key"; tmdb_base_url := "https://api.themoviedb.org/3";
     pages_to_fetch := 20 |}.

Definition config : PipelineConfig :=
  {| batch_size := 100; log_level := "INFO"; tmdb := tmdb_config;
     snowflake := {| account := "acct"; user := "loader"; password := "secret";
                     role := "DE_ROLE"; warehouse := "LECTURE_INGEST_WH";
                     database := "LECTURE_DE"; schema := "BRONZE" |} |}.

(** Nothing has happened yet and the bronze tables do not exist. *)
Definition world : World :=
  {| trace := []; clock := 0; RAW_MOVIES := None; RAW_GENRES := None |}.

(** Three listing pages; 11 is listed on every page and 21 twice on page 2. *)
Definition catalog : Server :=
  server [[11; 12; 11]; [21; 11; 21]; [31; 12]] 3 (fun _ => 200).

(** One listing page of three movies; the detail of movie 2 is a 404. *)
Definition one_missing : Server :=
  server [[1; 2; 3]] 1 (fun i => if i =? 2 then 404 else 200).

(** One listing page of three movies; the detail of movie 2 is always a 503. *)
Definition one_unavailable : Server :=
  server [[1; 2; 3]] 1 (fun i => if i =? 2 then 503 else 200).

(** One listing page of twenty movies; the detail of movie 13 is a 404. *)
Definition twenty : Server :=
  server [seqZ 1 20] 1 (fun i => if i =? 13 then 404 else 200).

(** Nothing has happened yet and the bronze tables exist and are empty. *)
Definition fresh_tables : World :=
  {| trace := []; clock := 0; RAW_MOVIES := Some []; RAW_GENRES := Some [] |}.


(** A server that gives the same reply to its first requests, as many as
    [failures], and then answers as [otherwise]. *)
Definition flaky (failures : nat) (reply : Reply) (otherwise : Server) : Server :=
  fun history req =>
    if bool_decide (length history < failures)%nat then reply
    else otherwise history req.

(** Too many requests, with the given Retry-After header. *)
Definition rate_limited (header : RetryAfter) : Reply :=
  ReplyHttp {| status_code := 429; retry_after := header; json := None |}.

(** An environment with the four credentials and nothing else. *)
Definition environment : gmap string string :=
  <["TMDB_API_KEY"%string := "key"%string]>
  (<["SNOWFLAKE_ACCOUNT"%string := "acct"%string]>
  (<["SNOWFLAKE_USER"%string := "loader"%string]>
  (<["SNOWFLAKE_PASSWORD"%string := "secret"%string]> ∅))).

End sample.

(** * Properties *)

(** ** One attempt and the retry loop of [_get] *)

Ltac run_m :=
  unfold bind, ret, raise, log, emit, sleep, extract.session_get,
    extract.int_retry_after, extract.REQUEST_DELAY_SECONDS in *; simpl in *.

(** The two tests of [time.sleep] on a length that is not known. *)
Ltac case_sleep :=
  match goal with
  | |- context [if (?a <? ?b) || (?c <? ?d) then _ else _] =>
      destruct ((a <? b) || (c <? d)) eqn:?; simpl;
      [|match goal with
        | |- context [if ?x <? 0 then _ else _] => destruct (x <? 0) eqn:?; simpl
        end];
      unfold SLEEP_MAX in *
  end.

Section get_facts.

Variable server : Server.
Variable config : TMDbConfig.

Local Abbreviation _get := (extract._get server config).
Local Abbreviation _get_once := (extract._get_once server config).
Local Abbreviation request_for := (extract.request_for config).
Local Abbreviation retry_if := extract.retry_if_exception_type.

Lemma requests_app (t1 t2 : list Event) :
  requests (t1 ++ t2) = requests t1 ++ requests t2.
Proof. unfold requests. apply omap_app. Qed.

Lemma sleeps_app (t1 t2 : list Event) :
  sleeps (t1 ++ t2) = sleeps t1 ++ sleeps t2.
Proof. unfold sleeps. apply omap_app. Qed.

(** Every attempt sleeps 0.26 s and then sends its request; what follows in
    the trace is no request. *)
Lemma get_once_trace ep ps w :
  exists extra,
    trace (_get_once ep ps w).2 =
      trace w ++ EvSleep 260 :: EvGet (request_for ep ps) :: extra /\
    requests extra = [].
Proof.
  unfold extract._get_once. run_m.
  destruct (server (requests (trace w ++ [EvSleep 260])) (request_for ep ps))
    as [| |r| |]; simpl.
  - exists [EvLog WARNING RequestTimedOut]. rewrite <- !app_assoc. done.
  - exists []. rewrite <- !app_assoc. done.
  - destruct (status_code r =? 429).
    + destruct (retry_after r) as [|n|]; simpl.
      * exists [EvLog WARNING (RateLimited 10); EvSleep 10000].
        rewrite <- !app_assoc. done.
      * case_sleep.
        -- exists [EvLog WARNING (RateLimited n)]. rewrite <- !app_assoc. done.
        -- exists [EvLog WARNING (RateLimited n)]. rewrite <- !app_assoc. done.
        -- exists [EvLog WARNING (RateLimited n); EvSleep (1000 * n)].
           rewrite <- !app_assoc. done.
      * exists []. rewrite <- !app_assoc. done.
    + destruct (500 <=? status_code r); simpl;
        [exists []; rewrite <- !app_assoc; done|].
      destruct (400 <=? status_code r); simpl;
        [exists []; rewrite <- !app_assoc; done|].
      destruct (json r); simpl; exists []; rewrite <- !app_assoc; done.
  - exists []. rewrite <- !app_assoc. done.
  - exists []. rewrite <- !app_assoc. done.
Qed.

Lemma get_once_requests ep ps w :
  requests (trace (_get_once ep ps w).2) =
    requests (trace w) ++ [request_for ep ps].
Proof.
  destruct (get_once_trace ep ps w) as (extra & -> & Hex).
  rewrite requests_app. simpl. by rewrite Hex.
Qed.

Lemma reply_seen ep ps w :
  server (requests (trace w ++ [EvSleep 260])) (request_for ep ps) =
    server (requests (trace w)) (request_for ep ps).
Proof. rewrite requests_app. simpl. by rewrite app_nil_r. Qed.

(** An attempt is repeated only after a transient reply. *)
Lemma get_once_retry ep ps w e :
  (_get_once ep ps w).1 = Raise e -> retry_if e = true ->
  transient (server (requests (trace w)) (request_for ep ps)).
Proof.
  rewrite <- reply_seen. unfold extract._get_once. run_m.
  destruct (server _ _) as [| |r| |]; simpl;
    [done|done| |by intros [= <-]|by intros [= <-]].
  destruct (status_code r =? 429) eqn:E429; [lia|].
  destruct (500 <=? status_code r) eqn:E500; [lia|].
  destruct (400 <=? status_code r); simpl; [by intros [= <-]|].
  destruct (json r); simpl; [done|by intros [= <-]].
Qed.

(** A 4xx reply other than 429 raises [ValueError] after the request alone. *)
Lemma get_once_client_error ep ps w r :
  server (requests (trace w)) (request_for ep ps) = ReplyHttp r ->
  400 <= status_code r < 500 -> status_code r <> 429 ->
  _get_once ep ps w =
    (Raise (ValueError (ClientError (status_code r))),
     after w [EvSleep 260; EvGet (request_for ep ps)] 260).
Proof.
  intros Hr Hs Hn. rewrite <- reply_seen in Hr.
  unfold extract._get_once, after. run_m. rewrite Hr.
  destruct (status_code r =? 429) eqn:E429; [lia|].
  destruct (500 <=? status_code r) eqn:E500; [lia|].
  destruct (400 <=? status_code r) eqn:E400; [|lia].
  simpl. by rewrite <- app_assoc.
Qed.

(** A 5xx reply raises [TMDbAPIError] after the request alone. *)
Lemma get_once_server_error ep ps w r :
  server (requests (trace w)) (request_for ep ps) = ReplyHttp r ->
  500 <= status_code r ->
  _get_once ep ps w =
    (Raise (TMDbAPIError (status_code r)),
     after w [EvSleep 260; EvGet (request_for ep ps)] 260).
Proof.
  intros Hr Hs. rewrite <- reply_seen in Hr.
  unfold extract._get_once, after. run_m. rewrite Hr.
  destruct (status_code r =? 429) eqn:E429; [lia|].
  destruct (500 <=? status_code r) eqn:E500; [|lia].
  simpl. by rewrite <- app_assoc.
Qed.

(** A reply below 400 with a JSON body is returned after the request alone. *)
Lemma get_once_success ep ps w d :
  success (server (requests (trace w)) (request_for ep ps)) d ->
  _get_once ep ps w =
    (Ok d, after w [EvSleep 260; EvGet (request_for ep ps)] 260).
Proof.
  rewrite <- reply_seen. unfold extract._get_once, after, success. run_m.
  destruct (server _ _) as [| |r| |]; [done|done| |done|done]. intros [Hs Hj].
  destruct (status_code r =? 429) eqn:E429; [lia|].
  destruct (500 <=? status_code r) eqn:E500; [lia|].
  destruct (400 <=? status_code r) eqn:E400; [lia|].
  rewrite Hj. simpl. by rewrite <- app_assoc.
Qed.

(** An attempt returns a document only from a reply below 400 that carries it. *)
Lemma get_once_ok ep ps w d :
  (_get_once ep ps w).1 = Ok d ->
  success (server (requests (trace w)) (request_for ep ps)) d.
Proof.
  rewrite <- reply_seen. unfold extract._get_once, success. run_m.
  destruct (server _ _) as [| |r| |]; simpl; [done|done| |done|done].
  destruct (status_code r =? 429) eqn:E429.
  { destruct (retry_after r) as [|n|]; simpl; [done| |done].
    case_sleep; done. }
  destruct (500 <=? status_code r) eqn:E500; [done|].
  destruct (400 <=? status_code r) eqn:E400; [done|].
  destruct (json r); simpl; [|done]. intros [= ->]. split; [lia|done].
Qed.

(** *** The retry loop *)

Section attempts_facts.

Context {A : Type}.
Variable wait : Z -> Z.
Variable fn : M A.

Local Abbreviation attempts := (tenacity.attempts retry_if wait).

Lemma attempts_ok left n w a :
  (fn w).1 = Ok a -> attempts left n fn w = fn w.
Proof.
  destruct left; simpl; destruct (fn w) as [[a'|e] w1]; simpl; congruence.
Qed.

Lemma attempts_not_retried left n w e :
  (fn w).1 = Raise e -> retry_if e = false -> attempts left n fn w = fn w.
Proof.
  destruct left; simpl; destruct (fn w) as [[a'|e'] w1]; simpl;
    try congruence; intros [= ->] ->; done.
Qed.

(** The result of the loop is the result of one of its calls. *)
Lemma attempts_ok_inv left n w a :
  (attempts left n fn w).1 = Ok a -> exists w0, (fn w0).1 = Ok a.
Proof.
  revert n w. induction left as [|left IH]; intros n w; simpl.
  - destruct (fn w) as [[a'|e] w1] eqn:E; simpl.
    + intros [= ->]. exists w. by rewrite E.
    + destruct (retry_if e); done.
  - destruct (fn w) as [[a'|e] w1] eqn:E; simpl.
    + intros [= ->]. exists w. by rewrite E.
    + destruct (retry_if e); [|done]. run_m.
      case_sleep; [done|done|]. apply IH.
Qed.

(** When every call fails with a server error, the loop gives up with
    [RetryError] after the sleeps of [exhausted_sleeps]. *)
Lemma attempts_exhausted left n w :
  (forall m, 0 <= wait m <= 30) ->
  (forall w0, exists status events,
      fn w0 = (Raise (TMDbAPIError status), after w0 events 260) /\
      sleeps events = [260]) ->
  exists status w',
    attempts left n fn w = (Raise (RetryError (TMDbAPIError status)), w') /\
    sleeps (trace w') = sleeps (trace w) ++ exhausted_sleeps wait left n.
Proof.
  intros Hwait Hfn. revert n w. induction left as [|left IH]; intros n w; simpl.
  - destruct (Hfn w) as (status & events & -> & Hev). simpl.
    exists status, (after w events 260). split; [done|].
    simpl. by rewrite sleeps_app, Hev.
  - destruct (Hfn w) as (status & events & -> & Hev). simpl. run_m.
    pose proof (Hwait n). case_sleep; [lia|lia|].
    match goal with |- context [attempts left ?m fn ?w2] =>
      destruct (IH m w2) as (status' & w' & -> & Hsl) end.
    exists status', w'. split; [done|]. rewrite Hsl. simpl.
    rewrite !sleeps_app, Hev. simpl. by rewrite <- !app_assoc.
Qed.

End attempts_facts.

(** The attempts of the loop around [_get_once]: at least one, at most
    [left + 1], each sending the same request, and each but the last answered
    by a transient reply. *)
Lemma attempts_requests ep ps left n w :
  exists k : nat,
    (1 <= k <= S left)%nat /\
    requests (trace (tenacity.attempts retry_if (tenacity.wait_exponential 1 1 30)
                       left n (_get_once ep ps) w).2) =
      requests (trace w) ++ replicate k (request_for ep ps) /\
    (forall j : nat, (S j < k)%nat ->
       transient (server (requests (trace w) ++ replicate j (request_for ep ps))
                    (request_for ep ps))).
Proof.
  revert n w. induction left as [|left IH]; intros n w; simpl.
  - exists 1%nat. pose proof (get_once_requests ep ps w) as Hw.
    destruct (_get_once ep ps w) as [[a|e] w1]; simpl in *;
      [|destruct (retry_if e); simpl]; repeat split; auto; lia.
  - pose proof (get_once_requests ep ps w) as Hw.
    pose proof (get_once_retry ep ps w) as Hretry.
    destruct (_get_once ep ps w) as [[a|e] w1] eqn:E; simpl in *.
    { exists 1%nat. repeat split; auto; lia. }
    destruct (retry_if e) eqn:Er; simpl.
    2:{ exists 1%nat. repeat split; auto; lia. }
    run_m. case_sleep.
    { exists 1%nat. rewrite requests_app. simpl. rewrite app_nil_r.
      repeat split; auto; lia. }
    { exists 1%nat. rewrite requests_app. simpl. rewrite app_nil_r.
      repeat split; auto; lia. }
    match goal with |- context [tenacity.attempts _ _ left ?m _ ?w2] =>
      destruct (IH m w2) as (k & Hk & Hreq & Hall) end.
    simpl in Hall. rewrite !requests_app, Hw in Hall. simpl in Hall.
    rewrite !app_nil_r in Hall.
    exists (S k). rewrite Hreq. simpl. rewrite !requests_app, Hw. simpl.
    rewrite !app_nil_r, <- app_assoc. simpl.
    split; [lia|]. split; [done|].
    intros [|j] Hj; simpl.
    + rewrite app_nil_r. by apply (Hretry e).
    + specialize (Hall j ltac:(lia)). by rewrite <- app_assoc in Hall.
Qed.

(** [_get] sends the same request between one and five times; every attempt
    but the last was answered by a transient reply. *)
Lemma get_requests ep ps w :
  exists k : nat,
    (1 <= k <= 5)%nat /\
    requests (trace (_get ep ps w).2) =
      requests (trace w) ++ replicate k (request_for ep ps) /\
    (forall j : nat, (S j < k)%nat ->
       transient (server (requests (trace w) ++ replicate j (request_for ep ps))
                    (request_for ep ps))).
Proof.
  unfold extract._get, tenacity.retry.
  destruct (attempts_requests ep ps (5 - 1) 1 w) as (k & Hk & Hreq & Hall).
  exists k. split; [simpl in Hk; lia|]. done.
Qed.

Lemma get_client_error ep ps w r :
  server (requests (trace w)) (request_for ep ps) = ReplyHttp r ->
  400 <= status_code r < 500 -> status_code r <> 429 ->
  _get ep ps w =
    (Raise (ValueError (ClientError (status_code r))),
     after w [EvSleep 260; EvGet (request_for ep ps)] 260).
Proof.
  intros Hr Hs Hn. pose proof (get_once_client_error ep ps w r Hr Hs Hn) as H1.
  unfold extract._get, tenacity.retry.
  rewrite (attempts_not_retried _ _ _ _ _
             (ValueError (ClientError (status_code r)))); [done| |done].
  by rewrite H1.
Qed.

Lemma get_success ep ps w d :
  success (server (requests (trace w)) (request_for ep ps)) d ->
  _get ep ps w = (Ok d, after w [EvSleep 260; EvGet (request_for ep ps)] 260).
Proof.
  intros H. pose proof (get_once_success ep ps w d H) as H1.
  unfold extract._get, tenacity.retry.
  rewrite (attempts_ok _ _ _ _ _ d); [done|]. by rewrite H1.
Qed.

Lemma get_ok_inv ep ps w d :
  (_get ep ps w).1 = Ok d ->
  exists history, success (server history (request_for ep ps)) d.
Proof.
  unfold extract._get, tenacity.retry. intros H.
  apply attempts_ok_inv in H as (w0 & H0).
  exists (requests (trace w0)). by apply get_once_ok.
Qed.

End get_facts.

(** ** Client errors, retries and backoff *)

(** C4 — When the reply to the request of [_get] is an HTTP status from 400 to
    499 other than 429, [_get] raises the [ValueError] of that status after one
    0.26 s pause and one request: no second attempt, no backoff sleep.  In
    every world [_get] sends its request between one and five times, and every
    attempt but the last was answered by a timeout, a connection failure, a 429
    or a status of 500 or more. *)
Theorem client_errors_are_never_retried (server : Server) (config : TMDbConfig)
    (ep : Endpoint) (ps : list (string * ParamValue)) :
  let req := extract.request_for config ep ps in
  (forall (w : World) (r : HttpResponse),
      server (requests (trace w)) req = ReplyHttp r ->
      400 <= status_code r <= 499 ->
      status_code r <> 429 ->
      extract._get server config ep ps w =
        (Raise (ValueError (ClientError (status_code r))),
         after w [EvSleep 260; EvGet req] 260)) /\
  (forall w : World, exists k : nat,
      (1 <= k <= 5)%nat /\
      requests (trace (extract._get server config ep ps w).2) =
        requests (trace w) ++ replicate k req /\
      (forall j : nat, (S j < k)%nat ->
         transient (server (requests (trace w) ++ replicate j req) req))).
Proof.
  intros req. split.
  - intros w r Hr Hs Hn. apply get_client_error; [done|lia|done].
  - intros w. apply get_requests.
Qed.

Lemma client_errors_are_never_retried_witness :
  extract._get sample.one_missing sample.tmdb_config (MovieDetail (Some 2)) [] sample.world =
    (Raise (ValueError (ClientError 404)),
     after sample.world
       [EvSleep 260;
        EvGet (extract.request_for sample.tmdb_config (MovieDetail (Some 2)) [])] 260).
Proof.
  apply (proj1 (client_errors_are_never_retried sample.one_missing
                  sample.tmdb_config (MovieDetail (Some 2)) [])
           sample.world
           {| status_code := 404; retry_after := HeaderAbsent; json := None |}).
  - reflexivity.
  - simpl. lia.
  - simpl. lia.
Defined.

(** C7 — The delay tenacity computes after attempt [n] is
    [min(2 ** (n - 1), 30)] seconds, between 1 and 30 and a function of the
    attempt number alone: attempt after attempt answered by a 5xx, [_get]
    sleeps 0.26 s before each of its five requests and exactly 1, 2, 4 and 8
    seconds between them, in every world and against every such server, and
    then raises [RetryError].  There is no random term in the delay. *)
Theorem backoff_is_exponential_without_jitter :
  (forall n, 1 <= n ->
     tenacity.wait_exponential 1 1 30 n = Z.min (2 ^ (n - 1)) 30 /\
     1 <= tenacity.wait_exponential 1 1 30 n <= 30) /\
  (forall (server : Server) (config : TMDbConfig) (ep : Endpoint)
          (ps : list (string * ParamValue)) (w : World),
      (forall history, exists r,
          server history (extract.request_for config ep ps) = ReplyHttp r /\
          500 <= status_code r) ->
      (exists status,
          (extract._get server config ep ps w).1 =
            Raise (RetryError (TMDbAPIError status))) /\
      sleeps (trace (extract._get server config ep ps w).2) =
        sleeps (trace w) ++ [260; 1000; 260; 2000; 260; 4000; 260; 8000; 260]).
Proof.
  split.
  { intros n Hn. unfold tenacity.wait_exponential.
    assert (1 <= 2 ^ (n - 1)) by (apply (Z.pow_le_mono_r 2 0); lia).
    lia. }
  intros server config ep ps w H.
  assert (exists status w',
             extract._get server config ep ps w =
               (Raise (RetryError (TMDbAPIError status)), w') /\
             sleeps (trace w') =
               sleeps (trace w) ++
               exhausted_sleeps (tenacity.wait_exponential 1 1 30) 4 1)
    as (status & w' & Hget & Hsleeps).
  { apply attempts_exhausted.
    - intros m. unfold tenacity.wait_exponential. lia.
    - intros w0. destruct (H (requests (trace w0))) as (r & Hr & Hs).
      exists (status_code r), [EvSleep 260; EvGet (extract.request_for config ep ps)].
      split; [|done]. by apply get_once_server_error. }
  rewrite Hget. simpl. split; [by exists status|done].
Qed.

Lemma backoff_is_exponential_without_jitter_witness :
  sleeps (trace (extract._get sample.one_unavailable sample.tmdb_config
                   (MovieDetail (Some 2)) [] sample.world).2) =
    [260; 1000; 260; 2000; 260; 4000; 260; 8000; 260].
Proof.
  apply (proj2 backoff_is_exponential_without_jitter sample.one_unavailable
           sample.tmdb_config (MovieDetail (Some 2)) [] sample.world).
  intros history. eexists. split; [reflexivity|]. simpl. lia.
Defined.

(** ** Failures of one item *)

Section details_facts.

Variable server : Server.
Variable config : TMDbConfig.
Context {A : Type}.
Variable body : Dict -> A -> World -> A * Outcome * World.

(** A [ValueError] of the detail request is logged and the loop goes on. *)
Lemma details_step_value_error list_movie st w why w1 :
  d_id list_movie ∉ extract.seen_ids st ->
  extract.extract_movie_detail server config (d_id list_movie) w =
    (Raise (ValueError why), w1) ->
  extract.details_step server config body list_movie st w =
    ({| extract.seen_ids := extract.seen_ids st ∪ {[d_id list_movie]};
        extract.total_extracted := extract.total_extracted st;
        extract.consumer := extract.consumer st |},
     Normal,
     after w1 [EvLog ERROR (DetailFailed (d_id list_movie) (ValueError why))] 0).
Proof.
  intros Hseen Hget. unfold extract.details_step.
  rewrite bool_decide_eq_false_2 by done. rewrite Hget. simpl.
  unfold after. by rewrite Z.add_0_r.
Qed.

(** A [RetryError] of the detail request leaves the loop. *)
Lemma details_step_retry_error list_movie st w e w1 :
  d_id list_movie ∉ extract.seen_ids st ->
  extract.extract_movie_detail server config (d_id list_movie) w =
    (Raise (RetryError e), w1) ->
  extract.details_step server config body list_movie st w =
    ({| extract.seen_ids := extract.seen_ids st ∪ {[d_id list_movie]};
        extract.total_extracted := extract.total_extracted st;
        extract.consumer := extract.consumer st |},
     Raised (RetryError e), w1).
Proof.
  intros Hseen Hget. unfold extract.details_step.
  rewrite bool_decide_eq_false_2 by done. by rewrite Hget.
Qed.

(** A detail endpoint that answers every attempt with a 5xx ends the loop:
    the [RetryError] of the exhausted retries is not caught. *)
Lemma details_step_exhausted list_movie st w :
  d_id list_movie ∉ extract.seen_ids st ->
  (forall history ps, exists r,
      server history (extract.request_for config (MovieDetail (d_id list_movie)) ps) =
        ReplyHttp r /\
      500 <= status_code r) ->
  exists status,
    (extract.details_step server config body list_movie st w).1.2 =
      Raised (RetryError (TMDbAPIError status)).
Proof.
  intros Hseen Hserver.
  destruct (attempts_exhausted (tenacity.wait_exponential 1 1 30)
              (extract._get_once server config (MovieDetail (d_id list_movie))
                 [("language"%string, PStr "en-US");
                  ("append_to_response"%string, PStr "keywords")]) 4 1 w)
    as (status & w1 & Hget & _).
  - intros m. unfold tenacity.wait_exponential. lia.
  - intros w0.
    destruct (Hserver (requests (trace w0))
                [("language"%string, PStr "en-US");
                 ("append_to_response"%string, PStr "keywords")])
      as (r & Hr & Hs).
    eexists (status_code r), _. split; [by apply get_once_server_error|done].
  - exists status. by erewrite details_step_retry_error.
Qed.

End details_facts.

(** C3 — A detail request that fails with a client error is contained: with
    the detail of movie 2 of 3 answering 404, the stream yields movies 1 and
    3, logs one per-item error and ends normally.  A detail request that
    exhausts its retries is not: with the detail of movie 2 always answering
    503, [_get] raises [RetryError], which [except (ValueError, TMDbAPIError)]
    does not catch; the stream ends with that exception after movie 1, no
    per-item error is logged, movie 3 is never requested and [run_pipeline]
    fails with the same exception. *)
Theorem retry_exhausted_detail_aborts_the_stream :
  (let '(out, o, w) :=
     extract.extract_movies_with_details sample.one_missing sample.tmdb_config
       (Some 1) extract.append_to [] sample.world in
   out = [sample.movie 1; sample.movie 3] /\ o = Normal /\
   logged ERROR (trace w) = [DetailFailed (Some 2) (ValueError (ClientError 404))] /\
   detail_requests (trace w) = [Some 1; Some 2; Some 3]) /\
  (let '(out, o, w) :=
     extract.extract_movies_with_details sample.one_unavailable sample.tmdb_config
       (Some 1) extract.append_to [] sample.world in
   out = [sample.movie 1] /\ o = Raised (RetryError (TMDbAPIError 503)) /\
   logged ERROR (trace w) = [] /\
   detail_requests (trace w) = [Some 1; Some 2; Some 2; Some 2; Some 2; Some 2]) /\
  (main.run_pipeline sample.one_unavailable sample.config "run-1" (Some 1) false
     sample.world).1 = Raise (RetryError (TMDbAPIError 503)).
Proof. vm_compute. repeat split; reflexivity. Qed.

(** ** Invariants of the extraction loops *)

Section loop_invariants.

Variable server : Server.
Variable config : TMDbConfig.
Context {A : Type}.
Variable P : A -> Prop.
Variable body : Dict -> A -> World -> A * Outcome * World.
Hypothesis body_keeps : forall x a w, P a -> P (body x a w).1.1.

Lemma for_each_invariant items a w :
  P a -> P (extract.for_each items body a w).1.1.
Proof.
  revert a w. induction items as [|x rest IH]; intros a w Ha; simpl; [done|].
  pose proof (body_keeps x a w Ha) as Hx.
  destruct (body x a w) as [[a1 [|e]] w1]; simpl in *; [by apply IH|done].
Qed.

Lemma popular_pages_invariant todo page a w :
  P a -> P (extract.popular_pages server config todo page body a w).1.1.
Proof.
  revert page a w. induction todo as [|todo IH]; intros page a w Ha; simpl; [done|].
  destruct (extract._get server config MoviePopular _ w) as [[data|e] w1]; [|done].
  pose proof (for_each_invariant (get (d_results data) []) a w1 Ha) as Hp.
  destruct (extract.for_each _ body a w1) as [[a1 [|e]] w2]; simpl in *; [|done].
  destruct (get (d_total_pages data) 1 <=? page); [done|by apply IH].
Qed.

Lemma extract_popular_movies_invariant pages a w :
  P a -> P (extract.extract_popular_movies server config pages body a w).1.1.
Proof. apply popular_pages_invariant. Qed.

End loop_invariants.

(** ** Deduplication *)

Section dedup.

Variable server : Server.
Variable config : TMDbConfig.

Lemma details_step_yielded_once list_movie st w :
  yielded_once server config st ->
  yielded_once server config
    (extract.details_step server config extract.append_to list_movie st w).1.1.
Proof.
  intros (ids & Hnd & Hseen & Hall). unfold extract.details_step.
  destruct (bool_decide (d_id list_movie ∈ extract.seen_ids st)) eqn:E;
    [by exists ids|].
  apply bool_decide_eq_false in E.
  destruct (extract.extract_movie_detail server config (d_id list_movie) w)
    as [[detail|e] w1] eqn:Hget; simpl.
  - exists (ids ++ [d_id list_movie]). simpl. split; [|split].
    + apply NoDup_app. split; [done|]. split; [|apply NoDup_singleton].
      intros i Hi Hin. apply list_elem_of_singleton in Hin as ->. auto.
    + intros i. rewrite elem_of_app. intros [Hi|Hi];
        [apply elem_of_union_l; auto|].
      apply list_elem_of_singleton in Hi as ->.
      by apply elem_of_union_r, elem_of_singleton_2.
    + apply Forall2_app; [done|]. constructor; [|constructor].
      unfold extract.extract_movie_detail in Hget.
      edestruct (get_ok_inv server config (MovieDetail (d_id list_movie)))
        as (history & Hs); [by erewrite Hget|].
      by eexists _, _.
  - destruct (extract.caught e); simpl; exists ids; (split; [done|]);
      (split; [|done]); intros i Hi; simpl in *; apply elem_of_union_l; auto.
Qed.

(** A listed movie whose identifier was seen is passed over: no request, no
    log entry, no yield. *)
Lemma details_step_seen {A : Type}
    (body : Dict -> A -> World -> A * Outcome * World) list_movie
    (st : extract.Details A) w :
  d_id list_movie ∈ extract.seen_ids st ->
  extract.details_step server config body list_movie st w = (st, Normal, w).
Proof.
  intros Hseen. unfold extract.details_step. by rewrite bool_decide_eq_true_2.
Qed.

Lemma details_run_yielded_once pages w :
  yielded_once server config
    (extract.details_run server config pages extract.append_to [] w).1.1.
Proof.
  unfold extract.details_run.
  apply (extract_popular_movies_invariant server config (yielded_once server config)).
  - intros x a w0. apply details_step_yielded_once.
  - exists []. simpl. split; [apply NoDup_nil_2|]. split; [|done].
    intros i Hi. by apply elem_of_nil in Hi.
Qed.

End dedup.

(** C2 — For every server, every listing it returns, every page limit and
    every world, the records yielded by [extract_movies_with_details] are
    successful detail replies for pairwise distinct listed identifiers,
    whether the stream ends normally or with an exception; so when the detail
    endpoint answers with the document of the identifier asked for, no two
    yielded records carry the same identifier.  A listed movie whose
    identifier was seen before, on this page or an earlier one, is passed
    over: nothing is requested, logged or yielded for it. *)
Theorem stream_yields_no_identifier_twice (server : Server) (config : TMDbConfig)
    (pages : option Z) (w : World) :
  let out := (extract.extract_movies_with_details server config pages
                extract.append_to [] w).1.1 in
  (exists ids, NoDup ids /\ Forall2 (detail_of server config) ids out) /\
  (detail_echoes_id server config -> NoDup (d_id <$> out)) /\
  (forall list_movie st w0,
      d_id list_movie ∈ extract.seen_ids st ->
      extract.details_step server config extract.append_to list_movie st w0 =
        (st, Normal, w0)).
Proof.
  intros out.
  assert (exists ids, NoDup ids /\ Forall2 (detail_of server config) ids out)
    as Hids.
  { pose proof (details_run_yielded_once server config pages w) as Hinv.
    subst out. unfold extract.extract_movies_with_details.
    destruct (extract.details_run _ _ _ _ _ _) as [[st o] w1]. simpl in *.
    destruct Hinv as (ids & Hnd & _ & Hall). by exists ids. }
  split; [done|]. split; [|by apply details_step_seen].
  intros Hecho. destruct Hids as (ids & Hnd & Hall).
  assert (d_id <$> out = ids) as ->; [|done].
  clear Hnd. induction Hall as [|i d ids' out' (history & ps & Hs) _ IH]; [done|].
  rewrite fmap_cons, IH. f_equal. by eapply Hecho.
Qed.

Lemma stream_yields_no_identifier_twice_witness :
  NoDup (d_id <$> (extract.extract_movies_with_details sample.catalog
                     sample.tmdb_config (Some 3) extract.append_to []
                     sample.world).1.1).
Proof.
  apply (stream_yields_no_identifier_twice sample.catalog sample.tmdb_config
           (Some 3) sample.world).
  intros history movie_id ps d. unfold success, sample.catalog, sample.server.
  simpl. destruct movie_id as [i|]; simpl; [|intros [? ?]; lia].
  intros [_ [= <-]]. reflexivity.
Defined.

(** ** Pagination *)

Lemma listing_pages_app (t1 t2 : list Event) :
  listing_pages (t1 ++ t2) = listing_pages t1 ++ listing_pages t2.
Proof. unfold listing_pages. by rewrite requests_app, omap_app. Qed.

Section pagination.

Variable server : Server.
Variable config : TMDbConfig.
Variable total : option Z.
Context {A : Type}.
Variable body : Dict -> A -> World -> A * Outcome * World.

(** Every listing request is answered with a document that reports [total]. *)
Hypothesis listing_answers : forall history page,
  exists d,
    success (server history
               (extract.request_for config MoviePopular (popular_params page))) d /\
    d_total_pages d = total.

(** The consumer ends normally and sends no listing request of its own. *)
Hypothesis body_quiet : forall x a w,
  (body x a w).1.2 = Normal /\
  listing_pages (trace (body x a w).2) = listing_pages (trace w).




End pagination.

Section pagination_of_any_consumer.

Variable server : Server.
Variable config : TMDbConfig.
Variable total : option Z.
Context {A : Type}.
Variable body : Dict -> A -> World -> A * Outcome * World.

Hypothesis listing_answers : forall history page,
  exists d,
    success (server history
               (extract.request_for config MoviePopular (popular_params page))) d /\
    d_total_pages d = total.

(** The consumer sends no listing request of its own; it may raise. *)
Hypothesis body_silent : forall x a w,
  listing_pages (trace (body x a w).2) = listing_pages (trace w).



End pagination_of_any_consumer.




(** ** The requests already sent stay sent *)

Section grows.

Variable server : Server.
Variable config : TMDbConfig.
Context {A : Type}.
Variable body : Dict -> A -> World -> A * Outcome * World.
Hypothesis body_grows : forall x a w,
  requests (trace w) `prefix_of` requests (trace (body x a w).2).





End grows.

(** ** The page count of a run *)



(** The statistics of a run that returns: eight entries, [pages_fetched] is
    the count asked for, [errors] is still 0. *)
Lemma run_pipeline_stats (server : Server) (cfg : PipelineConfig) (uuid : string)
    (pages : option Z) (dry_run : bool) (w w' : World) (stats : main.Stats) :
  main.run_pipeline server cfg uuid pages dry_run w = (Ok stats, w') ->
  exists movies_extracted genres_extracted movies_loaded genres_loaded duration,
    stats =
      [("start_time"%string, main.STime (clock w));
       ("pages_fetched"%string, main.SInt (or_ pages (pages_to_fetch (tmdb cfg))));
       ("movies_extracted"%string, main.SInt movies_extracted);
       ("genres_extracted"%string, main.SInt genres_extracted);
       ("movies_loaded"%string, main.SInt movies_loaded);
       ("genres_loaded"%string, main.SInt genres_loaded);
       ("errors"%string, main.SInt 0);
       ("duration_seconds"%string, main.SSeconds duration)].
Proof.
  unfold main.run_pipeline.
  destruct (extract.extract_genre_list server (tmdb cfg) w) as [[genres|e] w1];
    [|done].
  destruct (extract.extract_movies_with_details _ _ _ _ _ w1) as [[movies [|e]] w2];
    [|done].
  destruct dry_run.
  { intros [= <- <-]. by eexists _, _, _, _, _. }
  unfold bind.
  destruct (load.ensure_tables_exist w2) as [[[]|e] w3]; [|done].
  destruct (load.load_genres uuid genres w3) as [[genres_loaded|e] w4]; [|done].
  destruct (load.load_movies uuid movies (batch_size cfg) w4)
    as [[movies_loaded|e] w5]; [|done].
  destruct (load.run_post_load_checks w5) as [[[]|e] w6]; [|done].
  intros [= <- <-]. by eexists _, _, _, _, _.
Qed.

(** C10 — Whenever [run_pipeline] returns its statistics, [pages_fetched] is
    the page count asked for ([pages or config.pages_to_fetch]), whatever was
    fetched.  Against a listing of 3 pages and with 10 pages asked for, the
    listing requests are those of pages 1, 2 and 3 and [pages_fetched] is 10. *)
Theorem pages_fetched_is_the_count_asked_for :
  (forall (server : Server) (cfg : PipelineConfig) (uuid : string)
          (pages : option Z) (dry_run : bool) (w w' : World) (stats : main.Stats),
      main.run_pipeline server cfg uuid pages dry_run w = (Ok stats, w') ->
      main.get_item "pages_fetched" stats =
        Some (main.SInt (or_ pages (pages_to_fetch (tmdb cfg))))) /\
  (exists stats w',
      main.run_pipeline sample.catalog sample.config "run-1" (Some 10) false
        sample.world = (Ok stats, w') /\
      listing_pages (trace w') = [1; 2; 3] /\
      main.get_item "pages_fetched" stats = Some (main.SInt 10)).
Proof.
  split.
  - intros server cfg uuid pages dry_run w w' stats Hrun.
    apply run_pipeline_stats in Hrun as (me & ge & ml & gl & dur & ->).
    reflexivity.
  - eexists _, _. split; [vm_compute; reflexivity|]. split; reflexivity.
Qed.

Lemma pages_fetched_is_the_count_asked_for_witness :
  exists stats w',
    main.run_pipeline sample.catalog sample.config "run-1" (Some 10) true
      sample.world = (Ok stats, w') /\
    main.get_item "pages_fetched" stats = Some (main.SInt 10).
Proof.
  eexists _, _. split; [vm_compute; reflexivity|].
  eapply (proj1 pages_fetched_is_the_count_asked_for sample.catalog sample.config
            "run-1" (Some 10) true sample.world).
  vm_compute. reflexivity.
Defined.

(** ** The loader *)

Section loader_facts.

Variable batch_id : string.

Local Abbreviation execute_rows := load.execute_rows.
Local Abbreviation load_batches := (load.load_batches batch_id).
Local Abbreviation load_movies := (load.load_movies batch_id).

Lemma world_eta (w : World) :
  w = {| trace := trace w; clock := clock w;
         RAW_MOVIES := RAW_MOVIES w; RAW_GENRES := RAW_GENRES w |}.
Proof. by destruct w. Qed.

(** The statements of a list of rows run one after the other on an existing
    table: none fails, each counts, the table is merged row by row. *)
Lemma execute_rows_spec rows total_loaded w target :
  RAW_MOVIES w = Some target ->
  execute_rows rows total_loaded w =
    (Ok (total_loaded + Z.of_nat (length rows)),
     stored w (MergeMovie <$> rows) (Some (merge_all rows target)) (RAW_GENRES w)).
Proof.
  revert total_loaded w target.
  induction rows as [|row rest IH]; intros total_loaded w target Ht.
  - simpl. unfold ret, stored. simpl. rewrite Z.add_0_r, app_nil_r, <- Ht.
    by rewrite <- world_eta.
  - cbn [load.execute_rows]. unfold bind, load._execute. simpl. rewrite Ht.
    erewrite IH by done. unfold stored. simpl. rewrite <- app_assoc. simpl.
    do 2 f_equal. lia.
Qed.

Lemma execute_rows_app rows1 rows2 total_loaded w :
  execute_rows (rows1 ++ rows2) total_loaded w =
    (total <- execute_rows rows1 total_loaded ;; execute_rows rows2 total) w.
Proof.
  revert total_loaded w. induction rows1 as [|row rest IH]; intros total_loaded w.
  - done.
  - simpl. unfold bind.
    destruct (load._execute (MergeMovie row) w) as [[[]|e] w1]; [|done].
    rewrite IH. done.
Qed.

(** The batches from batch [j] on, [m] of them, hold the next [m * batch_size]
    movies in order. *)
Lemma load_batches_rows movies batch_size ingested_at (m : nat) j total_loaded w :
  0 < batch_size -> 0 <= j ->
  load_batches movies batch_size ingested_at
    ((fun k => k * batch_size) <$> seqZ j (Z.of_nat m)) total_loaded w =
  execute_rows
    (rows_of batch_id ingested_at
       (take (m * Z.to_nat batch_size) (drop (Z.to_nat (j * batch_size)) movies)))
    total_loaded w.
Proof.
  intros Hb. revert j total_loaded w.
  induction m as [|m IH]; intros j total_loaded w Hj; [done|].
  rewrite seqZ_cons by lia. rewrite fmap_cons.
  cbn [load.load_batches]. unfold load.slice.
  replace (j * batch_size + batch_size - j * batch_size) with batch_size by lia.
  replace (S m * Z.to_nat batch_size)%nat
    with (Z.to_nat batch_size + m * Z.to_nat batch_size)%nat by lia.
  rewrite <- take_take_drop. unfold rows_of. rewrite omap_app.
  rewrite execute_rows_app. unfold bind.
  destruct (execute_rows _ total_loaded w) as [[total|e] w1]; [|done].
  replace (Z.pred (Z.of_nat (S m))) with (Z.of_nat m) by lia.
  rewrite IH by lia. unfold rows_of. rewrite drop_drop.
  do 4 f_equal. nia.
Qed.

(** With a positive batch size the batches cover the list: [load_movies] runs
    the statements of all its rows in order. *)
Lemma load_movies_rows movies batch_size w :
  0 < batch_size -> movies <> [] ->
  load_movies movies batch_size w =
    execute_rows (rows_of batch_id (clock w) movies) 0 w.
Proof.
  intros Hb Hne. unfold load.load_movies.
  destruct movies as [|movie rest] eqn:Em; [done|]. rewrite <- Em. clear Hne.
  unfold bind, load.range.
  destruct (batch_size =? 0) eqn:E0; [lia|].
  destruct (batch_size <? 0) eqn:E1; [lia|]. unfold ret.
  set (n := Z.of_nat (length movies)).
  assert (0 <= (n + batch_size - 1) `div` batch_size) as Hq
    by (apply Z.div_pos; lia).
  rewrite <- (Z2Nat.id _ Hq).
  rewrite (load_batches_rows movies batch_size (clock w) _ 0 0 w) by lia.
  rewrite Z.mul_0_l. change (Z.to_nat 0) with 0%nat. rewrite drop_0.
  rewrite take_ge; [done|].
  apply Nat2Z.inj_le. rewrite Nat2Z.inj_mul, !Z2Nat.id by lia. fold n.
  clearbody n.
  pose proof (Z.div_mod (n + batch_size - 1) batch_size ltac:(lia)).
  pose proof (Z.mod_pos_bound (n + batch_size - 1) batch_size Hb). nia.
Qed.

End loader_facts.

(** ** MERGE on the landing table *)

Lemma existsb_movie_id (i : Z) (target : list MovieRow) :
  existsb (fun t => MOVIE_ID t =? i) target = true <-> i ∈ MOVIE_ID <$> target.
Proof.
  rewrite existsb_exists, list_elem_of_fmap. split.
  - intros (t & Hin & Heq). exists t. split; [lia|by apply list_elem_of_In].
  - intros (t & -> & Hin). exists t. split; [by apply list_elem_of_In|lia].
Qed.


(** A [MERGE] never changes an identifier already in the table, and adds the
    source's identifier only when it is not there. *)
Lemma merge_ids (source : MovieRow) (target : list MovieRow) :
  MOVIE_ID <$> load.merge source target =
    if existsb (fun t => MOVIE_ID t =? MOVIE_ID source) target
    then MOVIE_ID <$> target
    else (MOVIE_ID <$> target) ++ [MOVIE_ID source].
Proof.
  unfold load.merge. destruct (existsb _ target).
  - change (map ?f target) with (f <$> target). rewrite <- list_fmap_compose.
    apply list_fmap_ext. intros _ t _. simpl.
    by destruct (MOVIE_ID t =? MOVIE_ID source).
  - by rewrite fmap_app.
Qed.






Lemma merge_all_keeps (rows target : list MovieRow) (i : Z) :
  i ∈ MOVIE_ID <$> target -> i ∈ MOVIE_ID <$> merge_all rows target.
Proof.
  revert target. induction rows as [|row rest IH]; intros target Hi; [done|].
  simpl. apply IH. rewrite merge_ids. destruct (existsb _ target); [done|].
  apply elem_of_app. by left.
Qed.

(** After the rows are merged, each of their identifiers is in the table. *)
Lemma merge_all_stores (rows target : list MovieRow) (row : MovieRow) :
  row ∈ rows -> MOVIE_ID row ∈ MOVIE_ID <$> merge_all rows target.
Proof.
  revert target. induction rows as [|r rest IH]; intros target Hin.
  - by apply elem_of_nil in Hin.
  - simpl. apply elem_of_cons in Hin as [->|Hin]; [|by apply IH].
    apply merge_all_keeps. rewrite merge_ids.
    destruct (existsb _ target) eqn:E; [by apply existsb_movie_id|].
    apply elem_of_app. right. left.
Qed.

(** ** The rows of a list of movies *)

Lemma rows_of_cons (b : string) (t : Z) (movie : Dict) (rest : list Dict) :
  rows_of b t (movie :: rest) =
    match d_id movie with
    | Some i =>
        if truthy_id (Some i) then
          {| MOVIE_ID := i; RAW_DATA := movie; SOURCE_URL := load.source_url;
             INGESTED_AT := t; BATCH_ID := b |} :: rows_of b t rest
        else rows_of b t rest
    | None => rows_of b t rest
    end.
Proof.
  unfold rows_of. cbn [omap list_omap]. unfold load.row_of.
  destruct (d_id movie) as [i|]; [|done]. by destruct (truthy_id (Some i)).
Qed.


Lemma rows_of_length (b : string) (t : Z) (movies : list Dict) :
  length (rows_of b t movies) =
    length (List.filter (fun movie => truthy_id (d_id movie)) movies).
Proof.
  induction movies as [|movie rest IH]; [done|]. rewrite rows_of_cons.
  cbn [List.filter]. destruct (d_id movie) as [i|]; [|exact IH].
  destruct (truthy_id (Some i)); [|exact IH]. cbn [length]. by rewrite IH.
Qed.


(** After [ensure_tables_exist] both tables exist, with the rows they had. *)
Lemma ensure_tables_exist_spec (w : World) :
  load.ensure_tables_exist w =
    (Ok tt, stored w [CreateRawMovies; CreateRawGenres]
              (Some (get (RAW_MOVIES w) [])) (Some (get (RAW_GENRES w) []))).
Proof.
  unfold load.ensure_tables_exist, bind, load._execute, stored. simpl.
  by rewrite <- app_assoc.
Qed.

(** ** Loading movies *)

(** On an existing table and with a positive batch size, [load_movies] merges
    the rows of the movies with a usable identifier, in order, and returns
    their number. *)
Lemma load_movies_spec (b : string) (movies : list Dict) (batch_size : Z)
    (w : World) (target : list MovieRow) :
  0 < batch_size -> RAW_MOVIES w = Some target ->
  exists w',
    load.load_movies b movies batch_size w =
      (Ok (Z.of_nat (length (rows_of b (clock w) movies))), w') /\
    RAW_MOVIES w' = Some (merge_all (rows_of b (clock w) movies) target) /\
    RAW_GENRES w' = RAW_GENRES w /\ clock w' = clock w.
Proof.
  intros Hb Ht. destruct movies as [|movie rest] eqn:Em.
  - eexists. split; [reflexivity|]. done.
  - rewrite <- Em. rewrite load_movies_rows by (done || by rewrite Em).
    rewrite (execute_rows_spec _ _ _ target Ht). eexists. split; [reflexivity|].
    done.
Qed.




(** ** Loading the genre list *)

(** C8 — [load_genres] on the empty list returns 0 and leaves the world as it
    is: no statement is issued.  On a non-empty list and an existing table it
    issues one INSERT, appends one row holding the whole list, the time of the
    call and the loader's run identifier, and returns 1; the rows already
    there are kept.  Two runs on the same list append two rows, the first
    tagged with the first run's identifier and the second with the second's. *)
Theorem load_genres_appends_one_snapshot_per_run :
  (forall (b : string) (w : World), load.load_genres b [] w = (Ok 0, w)) /\
  (forall (b1 b2 : string) (genres : list Dict) (w : World) (rows : list GenreRow),
      genres <> [] ->
      RAW_GENRES w = Some rows ->
      exists w1 w2,
        load.load_genres b1 genres w = (Ok 1, w1) /\
        w1 = stored w [InsertGenres (snapshot b1 (clock w) genres)] (RAW_MOVIES w)
               (Some (rows ++ [snapshot b1 (clock w) genres])) /\
        load.load_genres b2 genres w1 = (Ok 1, w2) /\
        RAW_GENRES w2 =
          Some (rows ++ [snapshot b1 (clock w) genres;
                         snapshot b2 (clock w1) genres]) /\
        RAW_MOVIES w2 = RAW_MOVIES w).
Proof.
  split; [done|]. intros b1 b2 genres w rows Hne Hrows.
  destruct genres as [|genre rest] eqn:Eg; [done|]. rewrite <- Eg.
  assert (forall b w0 rows0, RAW_GENRES w0 = Some rows0 ->
            load.load_genres b genres w0 =
              (Ok 1, stored w0 [InsertGenres (snapshot b (clock w0) genres)]
                       (RAW_MOVIES w0)
                       (Some (rows0 ++ [snapshot b (clock w0) genres])))) as Hrun.
  { intros b w0 rows0 H0. rewrite Eg. unfold load.load_genres, bind, load._execute.
    simpl. by rewrite H0. }
  eexists _, _. split; [by apply Hrun|]. split; [done|].
  split; [by apply Hrun|]. simpl. by rewrite <- app_assoc.
Qed.

Lemma load_genres_appends_one_snapshot_per_run_witness :
  exists w1 w2,
    load.load_genres "run-1" [sample.movie 28; sample.movie 12] sample.fresh_tables =
      (Ok 1, w1) /\
    load.load_genres "run-2" [sample.movie 28; sample.movie 12] w1 = (Ok 1, w2) /\
    G_BATCH_ID <$> get (RAW_GENRES w2) [] = ["run-1"; "run-2"]%string.
Proof.
  destruct (proj2 load_genres_appends_one_snapshot_per_run "run-1" "run-2"
              [sample.movie 28; sample.movie 12] sample.fresh_tables []
              ltac:(discriminate) eq_refl)
    as (w1 & w2 & H1 & _ & H2 & H3 & _).
  exists w1, w2. split; [exact H1|]. split; [exact H2|]. by rewrite H3.
Defined.

(** ** The statistics of a run *)




(** * Further properties *)

(** ** Recovery and rate limiting in [_get] *)

Section get_more.

Variable server : Server.
Variable config : TMDbConfig.

Local Abbreviation _get := (extract._get server config).
Local Abbreviation _get_once := (extract._get_once server config).
Local Abbreviation request_for := (extract.request_for config).
Local Abbreviation retry_if := extract.retry_if_exception_type.
Local Abbreviation attempts :=
  (tenacity.attempts retry_if (tenacity.wait_exponential 1 1 30)).




End get_more.



(** ** What extraction does to the world *)

Lemma statements_app (t1 t2 : list Event) :
  statements (t1 ++ t2) = statements t1 ++ statements t2.
Proof. unfold statements. apply omap_app. Qed.

Lemma paced_after_app (t1 t2 : list Event) (slept : bool) :
  paced_after slept t1 = true -> well_paced t2 ->
  paced_after slept (t1 ++ t2) = true.
Proof.
  revert slept. induction t1 as [|e t1 IH]; intros slept H1 H2; simpl; [apply H2|].
  destruct e as [ms|req|level msg|stmt]; simpl in H1.
  - apply andb_true_iff in H1 as [Hms H1]. rewrite Hms. simpl. by apply IH.
  - apply andb_true_iff in H1 as [-> H1]. simpl. by apply IH.
  - by apply IH.
  - by apply IH.
Qed.

Lemma well_paced_app (t1 t2 : list Event) :
  well_paced t1 -> well_paced t2 -> well_paced (t1 ++ t2).
Proof. intros H1 H2 slept. by apply paced_after_app. Qed.

Lemma reads_only_refl (w : World) : reads_only w w.
Proof. exists []. by rewrite app_nil_r. Qed.

Lemma reads_only_trans (w1 w2 w3 : World) :
  reads_only w1 w2 -> reads_only w2 w3 -> reads_only w1 w3.
Proof.
  intros (a1 & Ht1 & Hp1 & Hs1 & Hm1 & Hg1) (a2 & Ht2 & Hp2 & Hs2 & Hm2 & Hg2).
  exists (a1 ++ a2). rewrite Ht2, Ht1, <- app_assoc. split; [done|].
  split; [by apply well_paced_app|]. rewrite statements_app, Hs1, Hs2.
  by rewrite Hm2, Hg2.
Qed.

(** Appending events and advancing the clock, tables kept. *)
Lemma reads_only_after (w : World) (events : list Event) (dt : Z) :
  well_paced events -> statements events = [] -> reads_only w (after w events dt).
Proof. intros Hp Hs. by exists events. Qed.

Section get_effects.

Variable server : Server.
Variable config : TMDbConfig.

Local Abbreviation _get := (extract._get server config).
Local Abbreviation _get_once := (extract._get_once server config).
Local Abbreviation request_for := (extract.request_for config).
Local Abbreviation retry_if := extract.retry_if_exception_type.

(** One attempt: the pause, the request, then events that are neither a
    request nor a statement; the tables are not touched. *)
Lemma get_once_effect ep ps w :
  exists extra,
    trace (_get_once ep ps w).2 =
      trace w ++ EvSleep 260 :: EvGet (request_for ep ps) :: extra /\
    well_paced extra /\ statements extra = [] /\
    RAW_MOVIES (_get_once ep ps w).2 = RAW_MOVIES w /\
    RAW_GENRES (_get_once ep ps w).2 = RAW_GENRES w.
Proof.
  unfold extract._get_once. run_m.
  destruct (server (requests (trace w ++ [EvSleep 260])) (request_for ep ps))
    as [| |r| |]; simpl.
  - exists [EvLog WARNING RequestTimedOut]. rewrite <- !app_assoc. done.
  - exists []. rewrite <- !app_assoc. done.
  - destruct (status_code r =? 429).
    + destruct (retry_after r) as [|n|]; simpl.
      * exists [EvLog WARNING (RateLimited 10); EvSleep 10000].
        rewrite <- !app_assoc. done.
      * case_sleep.
        -- exists [EvLog WARNING (RateLimited n)]. rewrite <- !app_assoc. done.
        -- exists [EvLog WARNING (RateLimited n)]. rewrite <- !app_assoc. done.
        -- exists [EvLog WARNING (RateLimited n); EvSleep (1000 * n)].
           rewrite <- !app_assoc. split; [done|]. split; [|done].
           intros slept. simpl. rewrite andb_true_r. lia.
      * exists []. rewrite <- !app_assoc. done.
    + destruct (500 <=? status_code r); simpl;
        [exists []; rewrite <- !app_assoc; done|].
      destruct (400 <=? status_code r); simpl;
        [exists []; rewrite <- !app_assoc; done|].
      destruct (json r); simpl; exists []; rewrite <- !app_assoc; done.
  - exists []. rewrite <- !app_assoc. done.
  - exists []. rewrite <- !app_assoc. done.
Qed.

Lemma get_once_reads_only ep ps w : reads_only w (_get_once ep ps w).2.
Proof.
  destruct (get_once_effect ep ps w) as (extra & Ht & Hp & Hs & Hm & Hg).
  exists (EvSleep 260 :: EvGet (request_for ep ps) :: extra).
  split; [done|]. split; [|done]. intros slept. simpl. apply Hp.
Qed.

Lemma attempts_reads_only ep ps left n w :
  reads_only w
    (tenacity.attempts retry_if (tenacity.wait_exponential 1 1 30) left n
       (_get_once ep ps) w).2.
Proof.
  revert n w. induction left as [|left IH]; intros n w; simpl;
    pose proof (get_once_reads_only ep ps w) as H1;
    destruct (_get_once ep ps w) as [[a|e] w1]; simpl in *; try done.
  - by destruct (retry_if e).
  - destruct (retry_if e); [|done]. run_m.
    case_sleep.
    + eapply reads_only_trans; [apply H1|].
      by apply (reads_only_after w1 [EvLog WARNING (RetryingIn _ e)] 0).
    + eapply reads_only_trans; [apply H1|].
      by apply (reads_only_after w1 [EvLog WARNING (RetryingIn _ e)] 0).
    + eapply reads_only_trans; [apply H1|].
      eapply reads_only_trans; [|apply IH].
      exists [EvLog WARNING (RetryingIn (tenacity.wait_exponential 1 1 30 n) e);
              EvSleep (1000 * tenacity.wait_exponential 1 1 30 n)].
      simpl. rewrite <- app_assoc. split; [done|]. split; [|done].
      intros slept. simpl. rewrite andb_true_r. lia.
Qed.

Lemma get_reads_only ep ps w : reads_only w (_get ep ps w).2.
Proof. apply attempts_reads_only. Qed.

End get_effects.

(** ** Invariants of the loops over the state and the world *)

Section loop_invariants_world.

Variable server : Server.
Variable config : TMDbConfig.
Context {A : Type}.
Variable P : A -> World -> Prop.
Variable body : Dict -> A -> World -> A * Outcome * World.
Hypothesis listing_keeps : forall a page w,
  P a w -> P a (extract._get server config MoviePopular (popular_params page) w).2.
Hypothesis body_keeps : forall x a w,
  P a w -> P (body x a w).1.1 (body x a w).2.

Lemma for_each_keeps items a w :
  P a w ->
  P (extract.for_each items body a w).1.1 (extract.for_each items body a w).2.
Proof.
  revert a w. induction items as [|x rest IH]; intros a w Ha; simpl; [done|].
  pose proof (body_keeps x a w Ha) as Hx.
  destruct (body x a w) as [[a1 [|e]] w1]; simpl in *; [by apply IH|done].
Qed.

Lemma popular_pages_keeps todo page a w :
  P a w ->
  P (extract.popular_pages server config todo page body a w).1.1
    (extract.popular_pages server config todo page body a w).2.
Proof.
  revert page a w. induction todo as [|todo IH]; intros page a w Ha; simpl; [done|].
  pose proof (listing_keeps a page w Ha) as Hl. unfold popular_params in Hl.
  destruct (extract._get server config MoviePopular _ w) as [[data|e] w1];
    simpl in *; [|done].
  pose proof (for_each_keeps (get (d_results data) []) a w1 Hl) as Hp.
  destruct (extract.for_each _ body a w1) as [[a1 [|e]] w2]; simpl in *; [|done].
  destruct (get (d_total_pages data) 1 <=? page); [done|by apply IH].
Qed.

Lemma extract_popular_movies_keeps pages a w :
  P a w ->
  P (extract.extract_popular_movies server config pages body a w).1.1
    (extract.extract_popular_movies server config pages body a w).2.
Proof. apply popular_pages_keeps. Qed.

End loop_invariants_world.

Section extraction_effects.

Variable server : Server.
Variable config : TMDbConfig.

Lemma details_step_reads_only list_movie (st : extract.Details (list Dict)) w :
  reads_only w
    (extract.details_step server config extract.append_to list_movie st w).2.
Proof.
  unfold extract.details_step.
  destruct (bool_decide _); [apply reads_only_refl|].
  pose proof (get_reads_only server config (MovieDetail (d_id list_movie))
                detail_params w) as Hg.
  unfold extract.extract_movie_detail. unfold detail_params in Hg.
  destruct (extract._get server config _ _ w) as [[detail|e] w1]; simpl in *;
    [done|].
  destruct (extract.caught e); simpl; [|done].
  eapply reads_only_trans; [apply Hg|].
  by apply (reads_only_after w1 [EvLog ERROR (DetailFailed _ e)] 0).
Qed.

(** The whole stream only appends paced requests, sleeps and log records. *)
Lemma extract_movies_with_details_reads_only pages w :
  reads_only w
    (extract.extract_movies_with_details server config pages extract.append_to
       [] w).2.
Proof.
  unfold extract.extract_movies_with_details, extract.details_run.
  pose proof (extract_popular_movies_keeps server config
                (fun _ w' => reads_only w w')
                (extract.details_step server config extract.append_to)
                (fun st page w0 Hst =>
                   reads_only_trans _ _ _ Hst
                     (get_reads_only server config MoviePopular
                        (popular_params page) w0))
                (fun x st w0 Hst =>
                   reads_only_trans _ _ _ Hst (details_step_reads_only x st w0))
                pages
                {| extract.seen_ids := ∅; extract.total_extracted := 0;
                   extract.consumer := [] |}
                w (reads_only_refl w)) as H.
  by destruct (extract.extract_popular_movies _ _ _ _ _ _) as [[st o] w1].
Qed.

Lemma extract_genre_list_reads_only w :
  reads_only w (extract.extract_genre_list server config w).2.
Proof.
  unfold extract.extract_genre_list, bind, ret.
  pose proof (get_reads_only server config GenreMovieList
                [("language"%string, PStr "en-US")] w) as Hg.
  by destruct (extract._get server config GenreMovieList _ w) as [[data|e] w1].
Qed.

End extraction_effects.

(** ** The pace of the requests *)

Lemma paced_after_spaced (t : list Event) : forall slept now last,
  paced_after slept t = true ->
  (slept = true -> last + 260 <= now) ->
  last <= now ->
  spaced 260 (last :: request_times now t).
Proof.
  induction t as [|e t IH]; intros slept now last Hp Hs Hl; [done|].
  destruct e as [ms|req|level msg|stmt]; simpl in Hp.
  - apply andb_true_iff in Hp as [Hms Hp]. simpl.
    apply (IH (260 <=? ms) (now + ms) last Hp); lia.
  - apply andb_true_iff in Hp as [-> Hp]. simpl.
    split; [by apply Hs|]. apply (IH false now now Hp); [done|lia].
  - simpl. apply (IH false now last Hp); [done|lia].
  - simpl. apply (IH false now last Hp); [done|lia].
Qed.

Lemma paced_spaced (t : list Event) (now : Z) :
  paced t = true -> spaced 260 (request_times now t).
Proof.
  intros Hp. by apply (paced_after_spaced t false now now Hp).
Qed.

Lemma spaced_next (gap : Z) (times : list Z) : forall (i : nat) a b,
  spaced gap times -> times !! i = Some a -> times !! S i = Some b -> a + gap <= b.
Proof.
  induction times as [|x rest IH]; intros i a b Hs Ha Hb; [done|].
  destruct Hs as [Hx Hrest]. destruct i as [|i].
  - simpl in Ha, Hb. injection Ha as ->. destruct rest as [|y rest']; [done|].
    simpl in Hb. by injection Hb as ->.
  - simpl in Ha, Hb. by apply (IH i).
Qed.

Lemma spaced_window (gap : Z) (times : list Z) (n : nat) : forall (i : nat) a b,
  spaced gap times -> times !! i = Some a -> times !! (i + n)%nat = Some b ->
  a + gap * Z.of_nat n <= b.
Proof.
  induction n as [|n IH]; intros i a b Hs Ha Hb.
  - rewrite Nat.add_0_r in Hb. simplify_eq. lia.
  - replace (i + S n)%nat with (S (i + n)) in Hb by lia.
    destruct (times !! (i + n)%nat) as [c|] eqn:Hc.
    + pose proof (IH i a c Hs Ha Hc). pose proof (spaced_next gap times _ c b Hs Hc Hb).
      lia.
    + apply lookup_ge_None in Hc. apply lookup_lt_Some in Hb. lia.
Qed.

Lemma grows_paced_refl (w : World) : grows_paced w w.
Proof. exists []. by rewrite app_nil_r. Qed.

Lemma grows_paced_trans (w1 w2 w3 : World) :
  grows_paced w1 w2 -> grows_paced w2 w3 -> grows_paced w1 w3.
Proof.
  intros (a1 & Ht1 & Hp1) (a2 & Ht2 & Hp2). exists (a1 ++ a2).
  rewrite Ht2, Ht1, <- app_assoc. split; [done|]. by apply well_paced_app.
Qed.

Lemma reads_only_grows_paced (w w' : World) : reads_only w w' -> grows_paced w w'.
Proof. intros (added & Ht & Hp & _). by exists added. Qed.

(** Sequencing two computations that grow the trace paced. *)
Lemma bind_grows_paced {A B : Type} (c : M A) (k : A -> M B) (w : World) :
  (forall w0, grows_paced w0 (c w0).2) ->
  (forall a w0, grows_paced w0 (k a w0).2) ->
  grows_paced w (bind c k w).2.
Proof.
  intros Hc Hk. unfold bind. specialize (Hc w).
  destruct (c w) as [[a|e] w1]; simpl in *; [|done].
  eapply grows_paced_trans; [apply Hc|apply Hk].
Qed.

Lemma execute_grows_paced (stmt : Statement) (w : World) :
  grows_paced w (load._execute stmt w).2.
Proof.
  unfold load._execute. destruct (load.run_statement stmt w) as [[movies genres]|];
    by exists [EvSql stmt].
Qed.

Lemma log_grows_paced (level : Level) (msg : LogMessage) (w : World) :
  grows_paced w (log level msg w).2.
Proof. by exists [EvLog level msg]. Qed.

Lemma ret_grows_paced {A : Type} (a : A) (w : World) : grows_paced w (ret a w).2.
Proof. apply grows_paced_refl. Qed.

Section loader_pace.

Variable batch_id : string.

Lemma execute_rows_grows_paced rows total w :
  grows_paced w (load.execute_rows rows total w).2.
Proof.
  revert total w. induction rows as [|row rest IH]; intros total w; simpl.
  - apply grows_paced_refl.
  - apply bind_grows_paced; [apply execute_grows_paced|]. intros _ w0. apply IH.
Qed.

Lemma load_batches_grows_paced movies batch_size ingested_at starts total w :
  grows_paced w
    (load.load_batches batch_id movies batch_size ingested_at starts total w).2.
Proof.
  revert total w. induction starts as [|start later IH]; intros total w; simpl.
  - apply grows_paced_refl.
  - apply bind_grows_paced; [intros w0; apply execute_rows_grows_paced|].
    intros total' w0. apply IH.
Qed.

Lemma load_movies_grows_paced movies batch_size w :
  grows_paced w (load.load_movies batch_id movies batch_size w).2.
Proof.
  unfold load.load_movies. destruct movies as [|movie rest].
  - apply bind_grows_paced; [apply log_grows_paced|]. intros _ w0.
    apply grows_paced_refl.
  - apply bind_grows_paced.
    + intros w0. unfold load.range.
      destruct (batch_size =? 0); [apply grows_paced_refl|].
      destruct (batch_size <? 0); apply grows_paced_refl.
    + intros starts w0. apply load_batches_grows_paced.
Qed.

Lemma load_genres_grows_paced genres w :
  grows_paced w (load.load_genres batch_id genres w).2.
Proof.
  unfold load.load_genres. destruct genres as [|genre rest].
  - apply grows_paced_refl.
  - apply bind_grows_paced; [apply execute_grows_paced|]. intros _ w0.
    apply grows_paced_refl.
Qed.

End loader_pace.

Lemma ensure_tables_exist_grows_paced w :
  grows_paced w (load.ensure_tables_exist w).2.
Proof.
  apply bind_grows_paced; [apply execute_grows_paced|]. intros _ w0.
  apply execute_grows_paced.
Qed.

Lemma get_row_count_grows_paced table w :
  grows_paced w (load.get_row_count table w).2.
Proof.
  apply bind_grows_paced; [apply execute_grows_paced|]. intros _ w0.
  apply grows_paced_refl.
Qed.

Lemma run_post_load_checks_grows_paced w :
  grows_paced w (load.run_post_load_checks w).2.
Proof.
  apply bind_grows_paced; [apply get_row_count_grows_paced|]. intros movies_count w0.
  apply bind_grows_paced; [apply get_row_count_grows_paced|]. intros genres_count w1.
  destruct (movies_count =? 0); [apply log_grows_paced|apply grows_paced_refl].
Qed.

Lemma run_pipeline_grows_paced (server : Server) (cfg : PipelineConfig)
    (uuid : string) (pages : option Z) (dry_run : bool) (w : World) :
  grows_paced w (main.run_pipeline server cfg uuid pages dry_run w).2.
Proof.
  unfold main.run_pipeline.
  pose proof (reads_only_grows_paced _ _
                (extract_genre_list_reads_only server (tmdb cfg) w)) as Hg.
  destruct (extract.extract_genre_list server (tmdb cfg) w) as [[genres|e] w1];
    simpl in Hg; [|done].
  pose proof (reads_only_grows_paced _ _
                (extract_movies_with_details_reads_only server (tmdb cfg)
                   (Some (or_ pages (pages_to_fetch (tmdb cfg)))) w1)) as Hm.
  destruct (extract.extract_movies_with_details _ _ _ _ _ w1) as [[movies [|e]] w2];
    simpl in Hm; [|by eapply grows_paced_trans].
  assert (grows_paced w w2) as Hw by (by eapply grows_paced_trans).
  destruct dry_run; simpl; [done|].
  eapply grows_paced_trans; [apply Hw|].
  apply bind_grows_paced; [apply ensure_tables_exist_grows_paced|]. intros _ w3.
  apply bind_grows_paced; [intros w0; apply load_genres_grows_paced|].
  intros genres_loaded w4.
  apply bind_grows_paced; [intros w0; apply load_movies_grows_paced|].
  intros movies_loaded w5.
  apply bind_grows_paced; [apply run_post_load_checks_grows_paced|]. intros _ w6.
  apply grows_paced_refl.
Qed.

(** X2 — Pace of the calls: in every run of the pipeline, whatever the
    outcome of each call of [session.get] and however the run ends, each call
    of [session.get] comes right after a sleep of at least 0.26 s, so two
    consecutive calls are at least 0.26 s of sleep apart and any 40
    consecutive calls take more than 10 s.  (A request of the trace is one
    call; the redirects the library follows inside a call are not paced by
    the pipeline and not counted here.) *)
Theorem requests_stay_under_the_rate_limit (server : Server)
    (cfg : PipelineConfig) (uuid : string) (pages : option Z) (dry_run : bool)
    (w : World) :
  exists added,
    trace (main.run_pipeline server cfg uuid pages dry_run w).2 = trace w ++ added /\
    paced added = true /\
    spaced 260 (request_times (clock w) added) /\
    (forall (i : nat) a b,
        request_times (clock w) added !! i = Some a ->
        request_times (clock w) added !! (i + 39)%nat = Some b ->
        10000 < b - a).
Proof.
  destruct (run_pipeline_grows_paced server cfg uuid pages dry_run w)
    as (added & Ht & Hp).
  exists added. split; [done|]. split; [apply Hp|].
  pose proof (paced_spaced added (clock w) (Hp false)) as Hs. split; [done|].
  intros i a b Ha Hb. pose proof (spaced_window 260 _ 39 i a b Hs Ha Hb). lia.
Qed.

(** X3 — Dry run: with [dry_run=True] the pipeline issues no SQL statement
    and leaves both bronze tables as they are, whatever the server answers
    and however the run ends. *)
Theorem dry_run_writes_nothing (server : Server) (cfg : PipelineConfig)
    (uuid : string) (pages : option Z) (w : World) :
  let w' := (main.run_pipeline server cfg uuid pages true w).2 in
  RAW_MOVIES w' = RAW_MOVIES w /\
  RAW_GENRES w' = RAW_GENRES w /\
  exists added, trace w' = trace w ++ added /\ statements added = [].
Proof.
  assert (reads_only w (main.run_pipeline server cfg uuid pages true w).2) as H.
  { unfold main.run_pipeline.
    pose proof (extract_genre_list_reads_only server (tmdb cfg) w) as Hg.
    destruct (extract.extract_genre_list server (tmdb cfg) w) as [[genres|e] w1];
      simpl in Hg; [|done].
    pose proof (extract_movies_with_details_reads_only server (tmdb cfg)
                  (Some (or_ pages (pages_to_fetch (tmdb cfg)))) w1) as Hm.
    destruct (extract.extract_movies_with_details _ _ _ _ _ w1)
      as [[movies [|e]] w2]; simpl in Hm; simpl; by eapply reads_only_trans. }
  destruct H as (added & Ht & _ & Hs & Hm & Hg). simpl. eauto.
Qed.

(** ** How often a detail is requested *)

Lemma detail_requests_app (t1 t2 : list Event) :
  detail_requests (t1 ++ t2) = detail_requests t1 ++ detail_requests t2.
Proof. unfold detail_requests. by rewrite requests_app, omap_app. Qed.

Lemma detail_count_app (i : option Z) (t1 t2 : list Event) :
  detail_count i (t1 ++ t2) = (detail_count i t1 + detail_count i t2)%nat.
Proof.
  unfold detail_count. by rewrite detail_requests_app, filter_app, length_app.
Qed.

Section detail_counts.

Variable server : Server.
Variable config : TMDbConfig.

(** The events of one [_get]: between one and five copies of its request
    among events that are no request. *)
Lemma get_added ep ps w :
  exists added (k : nat),
    trace (extract._get server config ep ps w).2 = trace w ++ added /\
    requests added = replicate k (extract.request_for config ep ps) /\
    (1 <= k <= 5)%nat.
Proof.
  destruct (get_reads_only server config ep ps w) as (added & Ht & _).
  destruct (get_requests server config ep ps w) as (k & Hk & Hreq & _).
  exists added, k. split; [done|]. split; [|done].
  rewrite Ht, requests_app in Hreq. by apply app_inv_head in Hreq.
Qed.

Lemma omap_replicate {X Y : Type} (f : X -> option Y) (k : nat) (x : X) :
  omap f (replicate k x) =
    match f x with
    | Some y => replicate k y
    | None => []
    end.
Proof.
  induction k as [|k IH]; [by destruct (f x)|].
  change (replicate (S k) x) with ([x] ++ replicate k x).
  rewrite omap_app, IH. simpl. by destruct (f x).
Qed.

Lemma filter_replicate_length (i j : option Z) (k : nat) :
  length (filter (fun x => x = i) (replicate k j)) =
    if bool_decide (j = i) then k else 0%nat.
Proof.
  induction k as [|k IH]; simpl; [by destruct (bool_decide _)|].
  rewrite filter_cons. destruct (decide (j = i)) as [Heq|Hne].
  - rewrite bool_decide_eq_true_2 in * by done. simpl. by rewrite IH.
  - rewrite bool_decide_eq_false_2 in * by done. done.
Qed.

Lemma detail_count_replicate (i : option Z) ep ps (k : nat) (added : list Event) :
  requests added = replicate k (extract.request_for config ep ps) ->
  detail_count i added =
    match ep with
    | MovieDetail j => if bool_decide (j = i) then k else 0%nat
    | _ => 0%nat
    end.
Proof.
  unfold detail_count, detail_requests. intros ->. rewrite omap_replicate. simpl.
  destruct ep as [|j|]; [done| |done]. apply filter_replicate_length.
Qed.

Lemma listing_requested_once w0 st page w :
  requested_once w0 st w ->
  requested_once w0 st
    (extract._get server config MoviePopular (popular_params page) w).2.
Proof.
  intros (added & Ht & Hc).
  destruct (get_added MoviePopular (popular_params page) w)
    as (added2 & k & Ht2 & Hreq & Hk).
  exists (added ++ added2). rewrite Ht2, Ht, <- app_assoc. split; [done|].
  intros i. rewrite detail_count_app.
  rewrite (detail_count_replicate i _ _ _ _ Hreq). specialize (Hc i). lia.
Qed.

Lemma details_step_requested_once w0 list_movie st w :
  requested_once w0 st w ->
  requested_once w0
    (extract.details_step server config extract.append_to list_movie st w).1.1
    (extract.details_step server config extract.append_to list_movie st w).2.
Proof.
  intros (added & Ht & Hc). unfold extract.details_step.
  destruct (bool_decide (d_id list_movie ∈ extract.seen_ids st)) eqn:E;
    [by exists added|].
  apply bool_decide_eq_false in E.
  destruct (get_added (MovieDetail (d_id list_movie)) detail_params w)
    as (added2 & k & Ht2 & Hreq & Hk).
  assert (forall i, (detail_count i (added ++ added2) <=
                     if bool_decide (i ∈ extract.seen_ids st ∪ {[d_id list_movie]})
                     then 5 else 0)%nat) as Hc2.
  { intros i. rewrite detail_count_app.
    rewrite (detail_count_replicate i _ _ _ _ Hreq). specialize (Hc i).
    destruct (decide (d_id list_movie = i)) as [<-|Hne].
    - rewrite bool_decide_eq_true_2 by done.
      rewrite bool_decide_eq_false_2 in Hc by done.
      rewrite bool_decide_eq_true_2
        by (by apply elem_of_union_r, elem_of_singleton_2). lia.
    - rewrite (bool_decide_eq_false_2 (d_id list_movie = i)) by done.
      destruct (bool_decide (i ∈ extract.seen_ids st)) eqn:Ei.
      + apply bool_decide_eq_true in Ei.
        rewrite bool_decide_eq_true_2 by (by apply elem_of_union_l). lia.
      + apply bool_decide_eq_false in Ei.
        rewrite bool_decide_eq_false_2; [lia|].
        intros [Hin|Hin]%elem_of_union; [done|].
        by apply elem_of_singleton in Hin. }
  unfold extract.extract_movie_detail. unfold detail_params in Ht2.
  destruct (extract._get server config _ _ w) as [[detail|e] w1]; simpl in *.
  - exists (added ++ added2). by rewrite Ht2, Ht, <- app_assoc.
  - destruct (extract.caught e); simpl.
    + exists ((added ++ added2) ++ [EvLog ERROR (DetailFailed (d_id list_movie) e)]).
      rewrite Ht2, Ht, <- !app_assoc. split; [done|]. intros i.
      specialize (Hc2 i). rewrite !detail_count_app in *.
      change (detail_count i [EvLog ERROR (DetailFailed (d_id list_movie) e)])
        with 0%nat. simpl. destruct (bool_decide _); lia.
    + exists (added ++ added2). by rewrite Ht2, Ht, <- app_assoc.
Qed.

End detail_counts.

(** X4 — One call per identifier: whatever the server answers, the events a
    run of [extract_movies_with_details] adds hold at most five requests for
    the detail of any one identifier, the attempts of a single call; an
    identifier listed again is not asked for again. *)
Theorem detail_is_requested_by_one_call (server : Server) (config : TMDbConfig)
    (pages : option Z) (w : World) :
  exists added,
    trace (extract.extract_movies_with_details server config pages
             extract.append_to [] w).2 = trace w ++ added /\
    forall i, (detail_count i added <= 5)%nat.
Proof.
  unfold extract.extract_movies_with_details, extract.details_run.
  pose proof (extract_popular_movies_keeps server config
                (requested_once w)
                (extract.details_step server config extract.append_to)
                (listing_requested_once server config w)
                (details_step_requested_once server config w)
                pages
                {| extract.seen_ids := ∅; extract.total_extracted := 0;
                   extract.consumer := [] |} w) as H.
  destruct (extract.extract_popular_movies _ _ _ _ _ _) as [[st o] w1].
  simpl in *. destruct H as (added & Ht & Hc).
  - exists []. rewrite app_nil_r. split; [done|]. intros i.
    change (detail_count i []) with 0%nat. lia.
  - exists added. split; [done|]. intros i. specialize (Hc i).
    destruct (bool_decide _); lia.
Qed.

(** ** The stream against a server that answers every request *)

Lemma visit_app (met ids1 ids2 : list (option Z)) :
  visit met (ids1 ++ ids2) = visit (visit met ids1) ids2.
Proof. unfold visit. apply foldl_app. Qed.

Lemma visit_elem_of (ids met : list (option Z)) (i : option Z) :
  i ∈ visit met ids <-> i ∈ met \/ i ∈ ids.
Proof.
  revert met. induction ids as [|j ids IH]; intros met; simpl.
  - rewrite elem_of_nil. tauto.
  - rewrite IH, elem_of_cons. destruct (bool_decide (j ∈ met)) eqn:E.
    + apply bool_decide_eq_true in E. split; [tauto|].
      intros [?|[->|?]]; tauto.
    + rewrite elem_of_app, list_elem_of_singleton. tauto.
Qed.

(** Walking a list from nothing keeps the first occurrence of each element. *)
Lemma visit_first_occurrences (ids : list (option Z)) :
  visit [] ids = first_occurrences ids.
Proof.
  unfold first_occurrences. induction ids as [|i ids IH] using rev_ind; [done|].
  rewrite visit_app, IH, reverse_snoc. simpl.
  destruct (decide_rel elem_of i (reverse ids)) as [Hin|Hnot].
  - rewrite bool_decide_eq_true_2; [done|].
    by rewrite elem_of_reverse, elem_of_remove_dups.
  - rewrite bool_decide_eq_false_2; [by rewrite reverse_cons|].
    by rewrite elem_of_reverse, elem_of_remove_dups.
Qed.

Section healthy_server.

Variable server : Server.
Variable config : TMDbConfig.
Variable listing : Z -> Dict.
Variable detail : option Z -> Dict.
Variable total : option Z.

Hypothesis listing_answers : forall history page,
  success (server history
             (extract.request_for config MoviePopular (popular_params page)))
    (listing page).
Hypothesis listing_total : forall page, d_total_pages (listing page) = total.
Hypothesis detail_answers : forall history page movie,
  movie ∈ listed_on listing page ->
  success (server history
             (extract.request_for config (MovieDetail (d_id movie)) detail_params))
    (detail (d_id movie)).

Variable before : list (option Z).

Local Abbreviation step := (extract.details_step server config extract.append_to).
Local Abbreviation listed_on := (listed_on listing).

Lemma details_step_healthy page movie met st w :
  movie ∈ listed_on page ->
  walked detail before met st w ->
  (step movie st w).1.2 = Normal /\
  walked detail before (visit met [d_id movie]) (step movie st w).1.1
    (step movie st w).2 /\
  listing_pages (trace (step movie st w).2) = listing_pages (trace w).
Proof.
  intros Hin (Hseen & Hout & Hcount & Hreq).
  destruct (decide (d_id movie ∈ met)) as [Hmet|Hnot].
  - assert (step movie st w = (st, Normal, w)) as ->.
    { apply details_step_seen. rewrite Hseen. by apply elem_of_list_to_set. }
    simpl. rewrite bool_decide_eq_true_2 by done. done.
  - assert (step movie st w =
              ({| extract.seen_ids := extract.seen_ids st ∪ {[d_id movie]};
                  extract.total_extracted := extract.total_extracted st + 1;
                  extract.consumer := extract.consumer st ++ [detail (d_id movie)] |},
               Normal,
               after w [EvSleep 260;
                        EvGet (extract.request_for config (MovieDetail (d_id movie))
                                 detail_params)] 260)) as ->.
    { unfold extract.details_step.
      rewrite bool_decide_eq_false_2
        by (rewrite Hseen; by rewrite elem_of_list_to_set).
      unfold extract.extract_movie_detail.
      change [("language"%string, PStr "en-US");
              ("append_to_response"%string, PStr "keywords")] with detail_params.
      by rewrite (get_success server config _ _ w _
                    (detail_answers (requests (trace w)) page movie Hin)). }
    simpl. rewrite bool_decide_eq_false_2 by done.
    split; [done|]. split.
    + split; [|split; [|split]]; simpl.
      * rewrite Hseen, list_to_set_app_L. simpl. by rewrite union_empty_r_L.
      * by rewrite Hout, fmap_app.
      * rewrite Hcount, length_app. simpl. lia.
      * rewrite detail_requests_app, Hreq. by rewrite <- app_assoc.
    + rewrite listing_pages_app. simpl. by rewrite app_nil_r.
Qed.

Lemma for_each_healthy page items : forall met st w,
  (forall movie, movie ∈ items -> movie ∈ listed_on page) ->
  walked detail before met st w ->
  (extract.for_each items step st w).1.2 = Normal /\
  walked detail before (visit met (d_id <$> items))
    (extract.for_each items step st w).1.1
    (extract.for_each items step st w).2 /\
  listing_pages (trace (extract.for_each items step st w).2) =
    listing_pages (trace w).
Proof.
  induction items as [|movie rest IH]; intros met st w Hall Hw; [done|].
  destruct (details_step_healthy page movie met st w) as (Ho & Hw1 & Hl1);
    [apply Hall; left|done|].
  cbn [extract.for_each].
  destruct (step movie st w) as [[st1 o] w1]. simpl in Ho, Hw1, Hl1. subst o.
  destruct (IH (visit met [d_id movie]) st1 w1) as (Ho2 & Hw2 & Hl2);
    [intros m Hm; apply Hall; by right|done|].
  split; [done|]. split; [|by rewrite Hl2].
  rewrite fmap_cons.
  change (d_id movie :: (d_id <$> rest)) with ([d_id movie] ++ (d_id <$> rest)).
  by rewrite visit_app.
Qed.

Lemma popular_pages_healthy todo : forall page met st w,
  walked detail before met st w ->
  let pages := seqZ page (Z.min (Z.of_nat todo) (Z.max 1 (get total 1 - page + 1))) in
  (extract.popular_pages server config todo page step st w).1.2 = Normal /\
  walked detail before (visit met (d_id <$> (pages ≫= listed_on)))
    (extract.popular_pages server config todo page step st w).1.1
    (extract.popular_pages server config todo page step st w).2 /\
  listing_pages (trace (extract.popular_pages server config todo page step st w).2) =
    listing_pages (trace w) ++ pages.
Proof.
  induction todo as [|todo IH]; intros page met st w Hw pages.
  - subst pages. rewrite Z.min_l by lia. simpl. by rewrite app_nil_r.
  - cbn [extract.popular_pages].
    change [("page"%string, PInt page); ("language"%string, PStr "en-US")]
      with (popular_params page).
    rewrite (get_success server config MoviePopular (popular_params page) w _
               (listing_answers (requests (trace w)) page)).
    rewrite listing_total.
    set (w1 := after w _ 260).
    assert (walked detail before met st w1) as Hw1.
    { destruct Hw as (H1 & H2 & H3 & H4). repeat split; try done.
      subst w1. simpl. rewrite detail_requests_app, H4. simpl.
      by rewrite app_nil_r. }
    destruct (for_each_healthy page (listed_on page) met st w1)
      as (Ho & Hw2 & Hl2); [done|done|].
    fold (listed_on page).
    destruct (extract.for_each (listed_on page) step st w1) as [[st2 o] w2].
    simpl in Ho, Hw2, Hl2. subst o.
    assert (listing_pages (trace w2) = listing_pages (trace w) ++ [page]) as Hl.
    { rewrite Hl2. subst w1. simpl. by rewrite listing_pages_app. }
    destruct (get total 1 <=? page) eqn:E.
    + subst pages.
      replace (Z.min (Z.of_nat (S todo)) (Z.max 1 (get total 1 - page + 1)))
        with 1 by lia.
      simpl. rewrite app_nil_r. done.
    + destruct (IH (page + 1) _ st2 w2 Hw2) as (Ho3 & Hw3 & Hl3).
      split; [done|]. subst pages.
      rewrite (seqZ_cons page) by lia. simpl.
      replace (Z.pred (Z.min (Z.of_nat (S todo)) (Z.max 1 (get total 1 - page + 1))))
        with (Z.min (Z.of_nat todo) (Z.max 1 (get total 1 - (page + 1) + 1)))
        by lia.
      replace (Z.succ page) with (page + 1) by lia.
      split.
      * rewrite fmap_app, visit_app. done.
      * rewrite Hl3, Hl, <- app_assoc. done.
Qed.

End healthy_server.

(** X5 — Against a server that answers every listing request with its page,
    reporting the same [total_pages] throughout, and every detail request of
    a listed movie with its detail, the stream ends normally and yields the
    details of the listed identifiers, each once, in the order of their first
    listing, over the pages 1 to [min(p, max(1, total_pages))]; it sends one
    listing request per page and one detail request per yielded record. *)
Theorem stream_yields_each_listed_movie_once (server : Server)
    (config : TMDbConfig) (listing : Z -> Dict) (detail : option Z -> Dict)
    (total : option Z) (pages : option Z) (w : World) :
  (forall history page,
      success (server history
                 (extract.request_for config MoviePopular (popular_params page)))
        (listing page)) ->
  (forall page, d_total_pages (listing page) = total) ->
  (forall history page movie,
      movie ∈ listed_on listing page ->
      success (server history
                 (extract.request_for config (MovieDetail (d_id movie))
                    detail_params))
        (detail (d_id movie))) ->
  let p := or_ pages (pages_to_fetch config) in
  let fetched := seqZ 1 (if p <=? 0 then 0 else Z.min p (Z.max 1 (get total 1))) in
  let ids := first_occurrences (d_id <$> (fetched ≫= listed_on listing)) in
  let run := extract.extract_movies_with_details server config pages
               extract.append_to [] w in
  run.1.2 = Normal /\
  run.1.1 = detail <$> ids /\
  listing_pages (trace run.2) = listing_pages (trace w) ++ fetched /\
  detail_requests (trace run.2) = detail_requests (trace w) ++ ids.
Proof.
  intros Hlisting Htotal Hdetail p fetched ids run.
  subst run. unfold extract.extract_movies_with_details, extract.details_run,
    extract.extract_popular_movies. fold p.
  destruct (popular_pages_healthy server config listing detail total
              Hlisting Htotal Hdetail (detail_requests (trace w))
              (Z.to_nat p) 1 []
              {| extract.seen_ids := ∅; extract.total_extracted := 0;
                 extract.consumer := [] |} w)
    as (Ho & (_ & Hout & _ & Hreq) & Hl).
  { repeat split; simpl; try done. by rewrite app_nil_r. }
  assert (Z.min (Z.of_nat (Z.to_nat p)) (Z.max 1 (get total 1 - 1 + 1)) =
          if p <=? 0 then 0 else Z.min p (Z.max 1 (get total 1))) as Hn
    by (destruct (p <=? 0) eqn:E; lia).
  rewrite Hn in Hout, Hreq, Hl. fold fetched in Hout, Hreq, Hl.
  rewrite visit_first_occurrences in Hout, Hreq. fold ids in Hout, Hreq.
  destruct (extract.popular_pages _ _ _ _ _ _ _) as [[st o] w1]. simpl in *.
  done.
Qed.

Lemma stream_yields_each_listed_movie_once_witness :
  (extract.extract_movies_with_details sample.catalog sample.tmdb_config
     (Some 3) extract.append_to [] sample.world).1.1 =
    sample.movie <$> [11; 12; 21; 31].
Proof.
  destruct (stream_yields_each_listed_movie_once sample.catalog sample.tmdb_config
              (fun page =>
                 sample.listing
                   (get ([[11; 12; 11]; [21; 11; 21]; [31; 12]]
                           !! Z.to_nat (page - 1)) [])
                   3)
              (fun i => sample.movie (get i 0)) (Some 3) (Some 3) sample.world)
    as (_ & Hout & _).
  - intros history page. split; [simpl; lia|reflexivity].
  - reflexivity.
  - intros history page movie Hin. unfold listed_on in Hin. simpl in Hin.
    apply list_elem_of_fmap in Hin as (i & -> & _). split; [simpl; lia|reflexivity].
  - rewrite Hout. vm_compute. reflexivity.
Defined.

(** ** Replies that end a call at once *)

Section get_edges.

Variable server : Server.
Variable config : TMDbConfig.

Local Abbreviation _get := (extract._get server config).
Local Abbreviation _get_once := (extract._get_once server config).
Local Abbreviation request_for := (extract.request_for config).
Local Abbreviation retry_if := extract.retry_if_exception_type.

Lemma get_not_retried ep ps w e w1 :
  _get_once ep ps w = (Raise e, w1) -> retry_if e = false ->
  _get ep ps w = (Raise e, w1).
Proof.
  intros H1 Hr. unfold extract._get, tenacity.retry.
  rewrite (attempts_not_retried _ _ _ _ _ e); [done|by rewrite H1|done].
Qed.

(** A reply below 400 whose body is not JSON. *)
Lemma get_bad_json ep ps w r :
  server (requests (trace w)) (request_for ep ps) = ReplyHttp r ->
  status_code r < 400 -> json r = None ->
  _get ep ps w =
    (Raise (ValueError BadJson), after w [EvSleep 260; EvGet (request_for ep ps)] 260).
Proof.
  intros Hr Hs Hj. apply get_not_retried; [|done].
  rewrite <- reply_seen in Hr. unfold extract._get_once, after. run_m. rewrite Hr.
  destruct (status_code r =? 429) eqn:E429; [lia|].
  destruct (500 <=? status_code r) eqn:E500; [lia|].
  destruct (400 <=? status_code r) eqn:E400; [lia|].
  rewrite Hj. simpl. by rewrite <- app_assoc.
Qed.

(** A 429 whose Retry-After [int()] rejects. *)
Lemma get_bad_retry_after ep ps w r :
  server (requests (trace w)) (request_for ep ps) = ReplyHttp r ->
  status_code r = 429 -> retry_after r = HeaderOther ->
  _get ep ps w =
    (Raise (ValueError BadRetryAfter),
     after w [EvSleep 260; EvGet (request_for ep ps)] 260).
Proof.
  intros Hr Hs Hh. apply get_not_retried; [|done].
  rewrite <- reply_seen in Hr. unfold extract._get_once, after. run_m. rewrite Hr.
  rewrite Hs, Hh. simpl. by rewrite <- app_assoc.
Qed.

(** A 429 whose Retry-After is a negative integer that [time.sleep] can
    convert. *)
Lemma get_negative_retry_after ep ps w r seconds :
  server (requests (trace w)) (request_for ep ps) = ReplyHttp r ->
  status_code r = 429 -> retry_after r = HeaderInt seconds ->
  - RETRY_AFTER_MAX <= seconds < 0 ->
  _get ep ps w =
    (Raise (ValueError NegativeSleep),
     after w [EvSleep 260; EvGet (request_for ep ps);
              EvLog WARNING (RateLimited seconds)] 260).
Proof.
  unfold RETRY_AFTER_MAX. intros Hr Hs Hh Hneg. apply get_not_retried; [|done].
  rewrite <- reply_seen in Hr. unfold extract._get_once, after. run_m. rewrite Hr.
  rewrite Hs, Hh. simpl. case_sleep; [lia| |lia].
  by rewrite <- !app_assoc.
Qed.

(** A 429 whose Retry-After is an integer that [time.sleep] cannot convert. *)
Lemma get_overflowing_retry_after ep ps w r seconds :
  server (requests (trace w)) (request_for ep ps) = ReplyHttp r ->
  status_code r = 429 -> retry_after r = HeaderInt seconds ->
  seconds < - RETRY_AFTER_MAX \/ RETRY_AFTER_MAX < seconds ->
  _get ep ps w =
    (Raise OverflowError,
     after w [EvSleep 260; EvGet (request_for ep ps);
              EvLog WARNING (RateLimited seconds)] 260).
Proof.
  unfold RETRY_AFTER_MAX. intros Hr Hs Hh Hout. apply get_not_retried; [|done].
  rewrite <- reply_seen in Hr. unfold extract._get_once, after. run_m. rewrite Hr.
  rewrite Hs, Hh. simpl. case_sleep; [|lia|lia].
  by rewrite <- !app_assoc.
Qed.




End get_edges.



(** X7 — A 429 is not always retried: when its Retry-After is not an
    integer, [_get] raises the [ValueError] of [int()]; when it is an integer
    from -9223372036 to -1, the [ValueError] of [time.sleep]; when it is an
    integer beyond 9223372036 in either sign, the [OverflowError] of
    [time.sleep], which converts the length before it tests the sign.  In
    each case the call ends after its one request, without a second attempt. *)
Theorem malformed_retry_after_ends_the_call (server : Server)
    (config : TMDbConfig) (ep : Endpoint) (ps : list (string * ParamValue))
    (w : World) (r : HttpResponse) :
  let req := extract.request_for config ep ps in
  server (requests (trace w)) req = ReplyHttp r ->
  status_code r = 429 ->
  (retry_after r = HeaderOther ->
   extract._get server config ep ps w =
     (Raise (ValueError BadRetryAfter), after w [EvSleep 260; EvGet req] 260)) /\
  (forall seconds,
     retry_after r = HeaderInt seconds -> - RETRY_AFTER_MAX <= seconds < 0 ->
     extract._get server config ep ps w =
       (Raise (ValueError NegativeSleep),
        after w [EvSleep 260; EvGet req; EvLog WARNING (RateLimited seconds)] 260)) /\
  (forall seconds,
     retry_after r = HeaderInt seconds ->
     seconds < - RETRY_AFTER_MAX \/ RETRY_AFTER_MAX < seconds ->
     extract._get server config ep ps w =
       (Raise OverflowError,
        after w [EvSleep 260; EvGet req; EvLog WARNING (RateLimited seconds)] 260)).
Proof.
  intros req Hr Hs. split; [|split].
  - intros Hh. by eapply get_bad_retry_after.
  - intros seconds Hh Hneg. by eapply get_negative_retry_after.
  - intros seconds Hh Hout. by eapply get_overflowing_retry_after.
Qed.

Lemma malformed_retry_after_ends_the_call_witness :
  (extract._get
     (sample.flaky 1 (sample.rate_limited (HeaderInt (-9223372037))) sample.catalog)
     sample.tmdb_config (MovieDetail (Some 11)) [] sample.world).1 =
    Raise OverflowError.
Proof.
  rewrite (proj2 (proj2 (malformed_retry_after_ends_the_call
                    (sample.flaky 1 (sample.rate_limited (HeaderInt (-9223372037)))
                       sample.catalog)
                    sample.tmdb_config (MovieDetail (Some 11)) [] sample.world
                    {| status_code := 429; retry_after := HeaderInt (-9223372037);
                       json := None |}
                    eq_refl eq_refl)) (-9223372037) eq_refl).
  - reflexivity.
  - left. unfold RETRY_AFTER_MAX. lia.
Defined.

(** ** The exceptions that leave [_get] and the stream *)

(** The retry loop lets no exception of the retried kinds through: it tries
    again, or wraps the exception when it gives up. *)
Lemma attempts_not_retryable {A : Type} (wait : Z -> Z) (fn : M A) (left : nat) :
  forall n w,
    raises_only not_retryable
      (tenacity.attempts extract.retry_if_exception_type wait left n fn w).1.
Proof.
  induction left as [|left IH]; intros n w; simpl.
  - destruct (fn w) as [[a|e] w1]; simpl; [done|].
    by destruct (extract.retry_if_exception_type e) eqn:Er.
  - destruct (fn w) as [[a|e] w1]; simpl; [done|].
    destruct (extract.retry_if_exception_type e) eqn:Er; simpl; [|done].
    unfold bind, log, emit, sleep. case_sleep; [done|done|apply IH].
Qed.

Section get_exceptions.

Variable server : Server.
Variable config : TMDbConfig.

Lemma get_raises ep ps w :
  raises_only not_retryable (extract._get server config ep ps w).1.
Proof. apply attempts_not_retryable. Qed.

(** Of the two classes of the except clause only [ValueError] arrives. *)
Lemma extract_movie_detail_caught movie_id w :
  raises_only caught_as_value_error
    (extract.extract_movie_detail server config movie_id w).1.
Proof.
  unfold extract.extract_movie_detail.
  pose proof (get_raises (MovieDetail movie_id)
                [("language"%string, PStr "en-US");
                 ("append_to_response"%string, PStr "keywords")] w) as H.
  destruct (extract._get server config _ _ w) as [[detail|e] w1]; simpl in *;
    [done|].
  intros Hc. destruct e; try done. by eexists.
Qed.

(** What leaves one turn of the loop is what the except clause does not
    catch, and none of the retried kinds. *)
Lemma details_step_ends list_movie (st : extract.Details (list Dict)) w :
  ends_only (fun e => not_retryable e /\ extract.caught e = false)
    (extract.details_step server config extract.append_to list_movie st w).1.2.
Proof.
  unfold extract.details_step. destruct (bool_decide _); [done|].
  unfold extract.extract_movie_detail.
  pose proof (get_raises (MovieDetail (d_id list_movie))
                [("language"%string, PStr "en-US");
                 ("append_to_response"%string, PStr "keywords")] w) as H.
  destruct (extract._get server config _ _ w) as [[detail|e] w1]; simpl in *;
    [done|].
  by destruct (extract.caught e) eqn:Ec.
Qed.

End get_exceptions.

Section loop_outcomes.

Variable server : Server.
Variable config : TMDbConfig.
Context {A : Type}.
Variable Q : Exn -> Prop.
Variable body : Dict -> A -> World -> A * Outcome * World.
Hypothesis listing_ends : forall page w,
  raises_only Q (extract._get server config MoviePopular (popular_params page) w).1.
Hypothesis body_ends : forall x a w, ends_only Q (body x a w).1.2.

Lemma for_each_ends items : forall a w,
  ends_only Q (extract.for_each items body a w).1.2.
Proof.
  induction items as [|x rest IH]; intros a w; simpl; [done|].
  pose proof (body_ends x a w) as Hx.
  destruct (body x a w) as [[a1 [|e]] w1]; simpl in *; [apply IH|done].
Qed.

Lemma popular_pages_ends todo : forall page a w,
  ends_only Q (extract.popular_pages server config todo page body a w).1.2.
Proof.
  induction todo as [|todo IH]; intros page a w; simpl; [done|].
  pose proof (listing_ends page w) as Hl. unfold popular_params in Hl.
  destruct (extract._get server config MoviePopular _ w) as [[data|e] w1];
    simpl in *; [|done].
  pose proof (for_each_ends (get (d_results data) []) a w1) as Hp.
  destruct (extract.for_each _ body a w1) as [[a1 [|e]] w2]; simpl in *; [|done].
  destruct (get (d_total_pages data) 1 <=? page); [done|apply IH].
Qed.

End loop_outcomes.

Lemma extract_movies_with_details_ends (server : Server) (config : TMDbConfig)
    (pages : option Z) (w : World) :
  ends_only not_retryable
    (extract.extract_movies_with_details server config pages extract.append_to
       [] w).1.2.
Proof.
  unfold extract.extract_movies_with_details, extract.details_run,
    extract.extract_popular_movies.
  assert (forall x st w1,
            ends_only not_retryable
              (extract.details_step server config extract.append_to x st w1).1.2)
    as Hstep.
  { intros x st w1. pose proof (details_step_ends server config x st w1) as Hd.
    destruct (extract.details_step _ _ _ x st w1) as [[st1 [|e]] w2]; simpl in *;
      [done|by destruct Hd]. }
  pose proof (popular_pages_ends server config not_retryable
                (extract.details_step server config extract.append_to)
                (fun page w0 => get_raises server config MoviePopular
                                  (popular_params page) w0) Hstep) as H.
  match goal with |- context [extract.popular_pages _ _ ?todo ?page _ ?a ?w0] =>
    specialize (H todo page a w0) end.
  by destruct (extract.popular_pages _ _ _ _ _ _ _) as [[st o] w1].
Qed.

(** X8 — No timeout, connection failure or [TMDbAPIError] leaves [_get] as
    it is: whatever the outcome of the calls of [session.get], [_get] retries
    such an exception or, on its last attempt, raises [RetryError] in its
    place.  So of the two classes of [except (ValueError, TMDbAPIError)] in
    [extract_movies_with_details] only [ValueError] ever arrives from
    [extract_movie_detail]; what leaves a turn of the loop is an exception
    the clause does not catch, and the stream does not end with a bare
    timeout, connection failure or [TMDbAPIError] either. *)
Theorem retryable_exceptions_leave_get_wrapped (server : Server)
    (config : TMDbConfig) (ep : Endpoint) (ps : list (string * ParamValue))
    (list_movie : Dict) (st : extract.Details (list Dict)) (pages : option Z)
    (w : World) :
  raises_only not_retryable (extract._get server config ep ps w).1 /\
  raises_only caught_as_value_error
    (extract.extract_movie_detail server config (d_id list_movie) w).1 /\
  ends_only (fun e => not_retryable e /\ extract.caught e = false)
    (extract.details_step server config extract.append_to list_movie st w).1.2 /\
  ends_only not_retryable
    (extract.extract_movies_with_details server config pages extract.append_to
       [] w).1.2.
Proof.
  split; [apply get_raises|]. split; [apply extract_movie_detail_caught|].
  split; [apply details_step_ends|]. apply extract_movies_with_details_ends.
Qed.

(** ** A detail that cannot be fetched *)

(** X9 — A detail request answered by a 4xx other than 429, or by a reply
    below 400 whose body is not JSON, is given up at once: the turn of
    [extract_movies_with_details] sends that one request, logs one error for
    the movie, yields nothing and goes on; the identifier stays in [seen_ids],
    so the movie is not asked for again when it is listed again. *)
Theorem failed_detail_is_logged_and_skipped (server : Server)
    (config : TMDbConfig) (list_movie : Dict)
    (st : extract.Details (list Dict)) (w : World) (r : HttpResponse) :
  let movie_id := d_id list_movie in
  let req := extract.request_for config (MovieDetail movie_id) detail_params in
  let why := if 400 <=? status_code r then ClientError (status_code r) else BadJson in
  movie_id ∉ extract.seen_ids st ->
  server (requests (trace w)) req = ReplyHttp r ->
  (400 <= status_code r < 500 /\ status_code r <> 429 \/
   status_code r < 400 /\ json r = None) ->
  exists st',
    extract.details_step server config extract.append_to list_movie st w =
      (st', Normal,
       after w [EvSleep 260; EvGet req;
                EvLog ERROR (DetailFailed movie_id (ValueError why))] 260) /\
    extract.consumer st' = extract.consumer st /\
    extract.total_extracted st' = extract.total_extracted st /\
    (forall again w0,
        d_id again = movie_id ->
        extract.details_step server config extract.append_to again st' w0 =
          (st', Normal, w0)).
Proof.
  intros movie_id req why Hseen Hr Hs.
  assert (extract.extract_movie_detail server config movie_id w =
            (Raise (ValueError why), after w [EvSleep 260; EvGet req] 260)) as Hget.
  { unfold extract.extract_movie_detail, why.
    destruct Hs as [[Hs Hn]|[Hs Hj]].
    - destruct (400 <=? status_code r) eqn:E; [|lia].
      exact (get_client_error server config (MovieDetail movie_id) detail_params
               w r Hr Hs Hn).
    - destruct (400 <=? status_code r) eqn:E; [lia|].
      exact (get_bad_json server config (MovieDetail movie_id) detail_params
               w r Hr Hs Hj). }
  eexists. split; [|split; [|split]].
  - rewrite (details_step_value_error server config extract.append_to list_movie
               st w why _ Hseen Hget).
    f_equal. unfold after. simpl. rewrite <- app_assoc. simpl.
    by rewrite Z.add_0_r.
  - done.
  - done.
  - intros again w0 Hid. apply details_step_seen. simpl. rewrite Hid.
    by apply elem_of_union_r, elem_of_singleton_2.
Qed.

Lemma failed_detail_is_logged_and_skipped_witness :
  exists st',
    extract.details_step sample.one_missing sample.tmdb_config extract.append_to
      (sample.movie 2)
      {| extract.seen_ids := ∅; extract.total_extracted := 0;
         extract.consumer := [] |} sample.world =
      (st', Normal,
       after sample.world
         [EvSleep 260;
          EvGet (extract.request_for sample.tmdb_config (MovieDetail (Some 2))
                   detail_params);
          EvLog ERROR (DetailFailed (Some 2) (ValueError (ClientError 404)))] 260) /\
    extract.consumer st' = [].
Proof.
  destruct (failed_detail_is_logged_and_skipped sample.one_missing
              sample.tmdb_config (sample.movie 2)
              {| extract.seen_ids := ∅; extract.total_extracted := 0;
                 extract.consumer := [] |} sample.world
              {| status_code := 404; retry_after := HeaderAbsent; json := None |})
    as (st' & Hstep & Hout & _).
  - simpl. apply not_elem_of_empty.
  - reflexivity.
  - left. simpl. lia.
  - exists st'. split; [exact Hstep|exact Hout].
Defined.

(** ** The batch size of [load_movies] *)

Lemma load_movies_not_positive (b : string) (movies : list Dict)
    (batch_size : Z) (w : World) :
  movies <> [] ->
  batch_size <= 0 ->
  load.load_movies b movies batch_size w =
    (if batch_size =? 0 then Raise (ValueError RangeStepZero) else Ok 0, w).
Proof.
  intros Hne Hb. destruct movies as [|movie rest]; [done|].
  unfold load.load_movies, bind, load.range.
  destruct (batch_size =? 0) eqn:E0; [done|].
  destruct (batch_size <? 0) eqn:E1; [done|lia].
Qed.

(** X10 — A batch size that is not positive: on a non-empty list,
    [load_movies] with batch size 0 raises the [ValueError] of [range] before
    any statement, and with a negative batch size it returns 0 without a
    statement, a warning or an error: nothing is loaded. *)
Theorem load_movies_needs_a_positive_batch_size (b : string) (movies : list Dict)
    (batch_size : Z) (w : World) :
  movies <> [] ->
  batch_size <= 0 ->
  load.load_movies b movies batch_size w =
    (if batch_size =? 0 then Raise (ValueError RangeStepZero) else Ok 0, w).
Proof. apply load_movies_not_positive. Qed.

Lemma load_movies_needs_a_positive_batch_size_witness :
  load.load_movies "run-1" [sample.movie 1; sample.movie 2] (-5) sample.fresh_tables =
    (Ok 0, sample.fresh_tables).
Proof.
  apply (load_movies_needs_a_positive_batch_size "run-1"
           [sample.movie 1; sample.movie 2] (-5) sample.fresh_tables).
  - discriminate.
  - lia.
Defined.

(** X11 — The batch size does not change what is loaded: with any two
    positive batch sizes [load_movies] issues the same statements in the same
    order and ends with the same result in the same world, whether or not the
    table exists. *)
Theorem batch_size_does_not_change_the_load (b : string) (movies : list Dict)
    (size1 size2 : Z) (w : World) :
  0 < size1 -> 0 < size2 ->
  load.load_movies b movies size1 w = load.load_movies b movies size2 w.
Proof.
  intros H1 H2. destruct movies as [|movie rest] eqn:Em; [done|]. rewrite <- Em.
  rewrite !load_movies_rows by (done || by rewrite Em). done.
Qed.

Lemma batch_size_does_not_change_the_load_witness :
  load.load_movies "run-1" [sample.movie 1; sample.movie 2; sample.movie 3] 1
    sample.fresh_tables =
  load.load_movies "run-1" [sample.movie 1; sample.movie 2; sample.movie 3] 100
    sample.fresh_tables.
Proof.
  apply (batch_size_does_not_change_the_load "run-1"
           [sample.movie 1; sample.movie 2; sample.movie 3] 1 100
           sample.fresh_tables); lia.
Defined.

(** ** The landing table under [load_movies] *)

Lemma merge_NoDup (source : MovieRow) (target : list MovieRow) :
  NoDup (MOVIE_ID <$> target) -> NoDup (MOVIE_ID <$> load.merge source target).
Proof.
  intros Hnd. rewrite merge_ids.
  destruct (existsb _ target) eqn:E; [done|].
  apply NoDup_app. split; [done|]. split; [|apply NoDup_singleton].
  intros i Hi Hin. apply list_elem_of_singleton in Hin as ->.
  apply existsb_movie_id in Hi. congruence.
Qed.

Lemma merge_prefix (source : MovieRow) (target : list MovieRow) :
  (MOVIE_ID <$> target) `prefix_of` (MOVIE_ID <$> load.merge source target).
Proof.
  rewrite merge_ids. destruct (existsb _ target); [done|]. by eexists.
Qed.

(** A [MERGE] leaves the rows of the other identifiers as they are. *)
Lemma merge_other (source row : MovieRow) (target : list MovieRow) :
  MOVIE_ID row <> MOVIE_ID source ->
  row ∈ load.merge source target <-> row ∈ target.
Proof.
  intros Hne. unfold load.merge. destruct (existsb _ target) eqn:E.
  - change (map ?f target) with (f <$> target). rewrite list_elem_of_fmap. split.
    + intros (t & -> & Ht). destruct (MOVIE_ID t =? MOVIE_ID source) eqn:Et;
        [|done]. simpl in Hne. lia.
    + intros Hrow. exists row. split; [|done].
      destruct (MOVIE_ID row =? MOVIE_ID source) eqn:Et; [lia|done].
  - rewrite elem_of_app, list_elem_of_singleton. split; [|by left].
    intros [H| ->]; done.
Qed.

(** After a [MERGE] every row with the source's identifier is the source. *)
Lemma merge_overwrites (source row : MovieRow) (target : list MovieRow) :
  row ∈ load.merge source target -> MOVIE_ID row = MOVIE_ID source -> row = source.
Proof.
  unfold load.merge. destruct (existsb _ target) eqn:E.
  - change (map ?f target) with (f <$> target). rewrite list_elem_of_fmap.
    intros (t & -> & Ht). destruct (MOVIE_ID t =? MOVIE_ID source) eqn:Et.
    + intros _. apply Z.eqb_eq in Et. destruct source. simpl in *. by rewrite Et.
    + lia.
  - rewrite elem_of_app, list_elem_of_singleton. intros [Hrow| ->] Hid; [|done].
    assert (existsb (fun t => MOVIE_ID t =? MOVIE_ID source) target = true);
      [|congruence].
    apply existsb_movie_id. rewrite <- Hid. apply list_elem_of_fmap. by exists row.
Qed.

Lemma merge_all_app (rows1 rows2 target : list MovieRow) :
  merge_all (rows1 ++ rows2) target = merge_all rows2 (merge_all rows1 target).
Proof. unfold merge_all. apply foldl_app. Qed.

Lemma merge_all_NoDup (rows target : list MovieRow) :
  NoDup (MOVIE_ID <$> target) -> NoDup (MOVIE_ID <$> merge_all rows target).
Proof.
  revert target. induction rows as [|row rest IH]; intros target Hnd; [done|].
  simpl. by apply IH, merge_NoDup.
Qed.

Lemma merge_all_prefix (rows target : list MovieRow) :
  (MOVIE_ID <$> target) `prefix_of` (MOVIE_ID <$> merge_all rows target).
Proof.
  revert target. induction rows as [|row rest IH]; intros target; [done|].
  simpl. etrans; [apply merge_prefix|apply IH].
Qed.

Lemma merge_all_other (rows target : list MovieRow) (row : MovieRow) :
  MOVIE_ID row ∉ MOVIE_ID <$> rows ->
  row ∈ merge_all rows target <-> row ∈ target.
Proof.
  revert target. induction rows as [|r rest IH]; intros target Hnot; [done|].
  rewrite fmap_cons, not_elem_of_cons in Hnot. destruct Hnot as [Hne Hrest].
  simpl. rewrite IH by done. by apply merge_other.
Qed.

(** The identifiers of the table after the rows are merged come from the
    table or from the rows. *)
Lemma merge_all_ids (rows target : list MovieRow) (i : Z) :
  i ∈ MOVIE_ID <$> merge_all rows target ->
  i ∈ MOVIE_ID <$> target \/ i ∈ MOVIE_ID <$> rows.
Proof.
  revert target. induction rows as [|row rest IH]; intros target Hi; [by left|].
  simpl in Hi. apply IH in Hi as [Hi|Hi].
  - rewrite merge_ids in Hi. destruct (existsb _ target); [by left|].
    apply elem_of_app in Hi as [Hi|Hi]; [by left|].
    apply list_elem_of_singleton in Hi as ->. right. rewrite fmap_cons. left.
  - right. rewrite fmap_cons. by right.
Qed.

Lemma rows_of_app (b : string) (t : Z) (movies1 movies2 : list Dict) :
  rows_of b t (movies1 ++ movies2) = rows_of b t movies1 ++ rows_of b t movies2.
Proof. unfold rows_of. apply omap_app. Qed.

(** The rows built are those of the movies with a usable identifier. *)
Lemma rows_of_elem (b : string) (t : Z) (movies : list Dict) (row : MovieRow) :
  row ∈ rows_of b t movies <->
  exists movie, movie ∈ movies /\ usable movie /\
    row = {| MOVIE_ID := get (d_id movie) 0; RAW_DATA := movie;
             SOURCE_URL := load.source_url; INGESTED_AT := t; BATCH_ID := b |}.
Proof.
  unfold rows_of. rewrite list_elem_of_omap. unfold load.row_of, usable. split.
  - intros (movie & Hin & Hrow). exists movie. split; [done|].
    destruct (d_id movie) as [i|]; [|done].
    destruct (truthy_id (Some i)); [|done]. by injection Hrow as <-.
  - intros (movie & Hin & Hu & ->). exists movie. split; [done|].
    destruct (d_id movie) as [i|]; [|done]. by rewrite Hu.
Qed.

Lemma rows_of_listed (b : string) (t : Z) (movies : list Dict) (i : Z) :
  i ∈ MOVIE_ID <$> rows_of b t movies -> Some i ∈ d_id <$> movies.
Proof.
  rewrite !list_elem_of_fmap. intros (row & -> & Hrow).
  apply rows_of_elem in Hrow as (movie & Hin & Hu & ->). exists movie.
  split; [|done]. unfold usable in Hu. simpl.
  by destruct (d_id movie) as [j|].
Qed.

(** X12 — The landing table keeps one row per identifier: on a table without
    two rows of one identifier and with a positive batch size, [load_movies]
    leaves a table without two rows of one identifier; the identifiers that
    were there stay where they were and the new ones come after them; every
    movie with a usable identifier has its row, every identifier of the table
    was there before or is a listed one, and the rows of the identifiers that
    are not listed are the rows they were. *)
Theorem load_keeps_one_row_per_identifier (b : string) (movies : list Dict)
    (batch_size : Z) (w : World) (target : list MovieRow) :
  0 < batch_size ->
  RAW_MOVIES w = Some target ->
  NoDup (MOVIE_ID <$> target) ->
  exists n w' target',
    load.load_movies b movies batch_size w = (Ok n, w') /\
    RAW_MOVIES w' = Some target' /\
    NoDup (MOVIE_ID <$> target') /\
    (MOVIE_ID <$> target) `prefix_of` (MOVIE_ID <$> target') /\
    (forall movie, movie ∈ movies -> usable movie ->
       d_id movie ∈ Some <$> (MOVIE_ID <$> target')) /\
    (forall i, i ∈ MOVIE_ID <$> target' ->
       i ∈ MOVIE_ID <$> target \/ Some i ∈ d_id <$> movies) /\
    (forall row, Some (MOVIE_ID row) ∉ d_id <$> movies ->
       row ∈ target' <-> row ∈ target).
Proof.
  intros Hb Ht Hnd.
  destruct (load_movies_spec b movies batch_size w target Hb Ht)
    as (w' & Hrun & Ht' & _).
  eexists _, w', _. split; [exact Hrun|]. split; [exact Ht'|].
  split; [by apply merge_all_NoDup|]. split; [apply merge_all_prefix|].
  split; [|split].
  - intros movie Hin Hu.
    assert ({| MOVIE_ID := get (d_id movie) 0; RAW_DATA := movie;
               SOURCE_URL := load.source_url; INGESTED_AT := clock w;
               BATCH_ID := b |} ∈ rows_of b (clock w) movies) as Hrow.
    { apply rows_of_elem. by exists movie. }
    apply (merge_all_stores _ target) in Hrow. simpl in Hrow.
    unfold usable in Hu. destruct (d_id movie) as [i|]; [|done].
    apply list_elem_of_fmap. by exists i.
  - intros i Hi. apply merge_all_ids in Hi as [Hi|Hi]; [by left|].
    right. by eapply rows_of_listed.
  - intros row Hnot. apply merge_all_other. intros Hin. apply Hnot.
    by eapply rows_of_listed.
Qed.

Lemma load_keeps_one_row_per_identifier_witness :
  exists n w' target',
    load.load_movies "run-2" [sample.movie 2; sample.movie 3; sample.movie 2] 2
      (stored sample.world [] (Some (rows_of "run-1" 0 [sample.movie 1; sample.movie 2]))
         (Some [])) = (Ok n, w') /\
    RAW_MOVIES w' = Some target' /\
    NoDup (MOVIE_ID <$> target').
Proof.
  destruct (load_keeps_one_row_per_identifier "run-2"
              [sample.movie 2; sample.movie 3; sample.movie 2] 2
              (stored sample.world []
                 (Some (rows_of "run-1" 0 [sample.movie 1; sample.movie 2]))
                 (Some []))
              (rows_of "run-1" 0 [sample.movie 1; sample.movie 2]))
    as (n & w' & target' & Hrun & Ht & Hnd & _).
  - lia.
  - reflexivity.
  - apply (bool_decide_unpack _). vm_compute. exact I.
  - by exists n, w', target'.
Defined.

(** X13 — The last listed record wins: when a list holds several records of
    one usable identifier, the table holds after [load_movies] a row of this
    identifier, and every row of this identifier carries the payload of the
    last of these records, the time of the call and the loader's run
    identifier. *)
Theorem last_listed_record_wins (b : string) (before later : list Dict)
    (movie : Dict) (i : Z) (batch_size : Z) (w : World) (target : list MovieRow) :
  let row := {| MOVIE_ID := i; RAW_DATA := movie; SOURCE_URL := load.source_url;
                INGESTED_AT := clock w; BATCH_ID := b |} in
  0 < batch_size ->
  RAW_MOVIES w = Some target ->
  d_id movie = Some i -> i <> 0 ->
  Some i ∉ d_id <$> later ->
  exists n w' target',
    load.load_movies b (before ++ movie :: later) batch_size w = (Ok n, w') /\
    RAW_MOVIES w' = Some target' /\
    row ∈ target' /\
    (forall other, other ∈ target' -> MOVIE_ID other = i -> other = row).
Proof.
  intros row Hb Ht Hid Hi Hlater.
  destruct (load_movies_spec b (before ++ movie :: later) batch_size w target Hb Ht)
    as (w' & Hrun & Ht' & _).
  eexists _, w', _. split; [exact Hrun|]. split; [exact Ht'|].
  assert (rows_of b (clock w) (before ++ movie :: later) =
            rows_of b (clock w) before ++ row :: rows_of b (clock w) later) as ->.
  { rewrite rows_of_app, rows_of_cons, Hid. simpl.
    destruct (i =? 0) eqn:E; [lia|done]. }
  rewrite merge_all_app. simpl.
  assert (MOVIE_ID row ∉ MOVIE_ID <$> rows_of b (clock w) later) as Hnot.
  { intros Hin. apply Hlater. by eapply rows_of_listed. }
  split.
  - apply merge_all_other; [done|].
    assert (MOVIE_ID row ∈ MOVIE_ID <$>
              load.merge row (merge_all (rows_of b (clock w) before) target)) as Hin.
    { apply (merge_all_stores [row]). left. }
    apply list_elem_of_fmap in Hin as (found & Hfid & Hfound).
    pose proof (merge_overwrites row found _ Hfound (eq_sym Hfid)) as Heq.
    by rewrite Heq in Hfound.
  - intros other Hother Hoid. apply merge_all_other in Hother; [|by rewrite Hoid].
    by apply (merge_overwrites row other _ Hother).
Qed.

Lemma last_listed_record_wins_witness :
  exists n w' target',
    load.load_movies "run-1"
      ([sample.listing [] 1 ; sample.movie 7] ++
       {| d_id := Some 7; d_results := None; d_total_pages := Some 2;
          d_genres := None; d_other := [] |} :: [sample.movie 8]) 100
      sample.fresh_tables = (Ok n, w') /\
    RAW_MOVIES w' = Some target' /\
    {| MOVIE_ID := 7;
       RAW_DATA := {| d_id := Some 7; d_results := None; d_total_pages := Some 2;
                      d_genres := None; d_other := [] |};
       SOURCE_URL := load.source_url; INGESTED_AT := 0; BATCH_ID := "run-1" |}
      ∈ target'.
Proof.
  destruct (last_listed_record_wins "run-1" [sample.listing [] 1; sample.movie 7]
              [sample.movie 8]
              {| d_id := Some 7; d_results := None; d_total_pages := Some 2;
                 d_genres := None; d_other := [] |} 7 100 sample.fresh_tables [])
    as (n & w' & target' & Hrun & Ht & Hrow & _).
  - lia.
  - reflexivity.
  - reflexivity.
  - lia.
  - simpl. rewrite list_elem_of_singleton. discriminate.
  - by exists n, w', target'.
Defined.

(** ** The loader in a run *)

Lemma load_genres_spec (b : string) (genres : list Dict) (w : World)
    (rows : list GenreRow) :
  RAW_GENRES w = Some rows ->
  load.load_genres b genres w =
    match genres with
    | [] => (Ok 0, w)
    | _ => (Ok 1, stored w [InsertGenres (snapshot b (clock w) genres)] (RAW_MOVIES w)
                    (Some (rows ++ [snapshot b (clock w) genres])))
    end.
Proof.
  intros Hrows. destruct genres as [|genre rest]; [done|].
  unfold load.load_genres, bind, load._execute. simpl. by rewrite Hrows.
Qed.

(** The checks after the load count both tables and log when the movies
    table is empty; they change no table and do not fail on existing ones. *)
Lemma run_post_load_checks_spec (w : World) (movies : list MovieRow)
    (genres : list GenreRow) :
  RAW_MOVIES w = Some movies -> RAW_GENRES w = Some genres ->
  exists w',
    load.run_post_load_checks w = (Ok tt, w') /\
    RAW_MOVIES w' = Some movies /\ RAW_GENRES w' = Some genres /\
    clock w' = clock w /\
    trace w' =
      trace w ++
        [EvSql (SelectCount BRONZE_RAW_MOVIES); EvSql (SelectCount BRONZE_RAW_GENRES)] ++
        match movies with
        | [] => [EvLog ERROR QualityCheckFailed]
        | _ => []
        end.
Proof.
  intros Hm Hg. unfold load.run_post_load_checks, load.get_row_count, bind,
    load._execute. simpl. rewrite Hm. simpl. rewrite !Hg. simpl.
  destruct movies as [|row rest]; simpl.
  - eexists. split; [reflexivity|]. simpl. by rewrite <- !app_assoc.
  - eexists. split; [reflexivity|]. simpl. by rewrite <- !app_assoc.
Qed.

(** [load_movies] on an existing table with a batch size other than 0, or
    on the empty list. *)
Lemma load_movies_loads (b : string) (movies : list Dict) (batch_size : Z)
    (w : World) (target : list MovieRow) :
  RAW_MOVIES w = Some target ->
  batch_size <> 0 \/ movies = [] ->
  exists w',
    load.load_movies b movies batch_size w = (Ok (loaded_count batch_size movies), w') /\
    RAW_MOVIES w' = Some (loaded_movies batch_size b (clock w) movies target) /\
    RAW_GENRES w' = RAW_GENRES w /\ clock w' = clock w.
Proof.
  intros Ht Hb. unfold loaded_count, loaded_movies.
  destruct (0 <? batch_size) eqn:E.
  - destruct (load_movies_spec b movies batch_size w target ltac:(lia) Ht)
      as (w' & Hrun & Hrest).
    exists w'. split; [|done]. by rewrite Hrun, rows_of_length.
  - destruct movies as [|movie rest] eqn:Em.
    + eexists. split; [reflexivity|]. done.
    + rewrite <- Em. destruct Hb as [Hb|Hb]; [|done].
      rewrite load_movies_not_positive by (lia || by rewrite Em).
      destruct (batch_size =? 0) eqn:E0; [lia|]. by exists w.
Qed.

Section run_facts.

Variable server : Server.
Variable cfg : PipelineConfig.
Variable uuid : string.

(** A run whose extraction succeeds completes the load, unless the batch
    size is 0 and there is a movie to load. *)
Lemma run_pipeline_loads pages w genres w1 movies w2 :
  extract.extract_genre_list server (tmdb cfg) w = (Ok genres, w1) ->
  extract.extract_movies_with_details server (tmdb cfg)
    (Some (or_ pages (pages_to_fetch (tmdb cfg)))) extract.append_to [] w1 =
    (movies, Normal, w2) ->
  batch_size cfg <> 0 \/ movies = [] ->
  exists stats w3,
    main.run_pipeline server cfg uuid pages false w = (Ok stats, w3) /\
    main.get_item "genres_extracted" stats =
      Some (main.SInt (Z.of_nat (length genres))) /\
    main.get_item "movies_extracted" stats =
      Some (main.SInt (Z.of_nat (length movies))) /\
    main.get_item "genres_loaded" stats =
      Some (main.SInt (match genres with [] => 0 | _ => 1 end)) /\
    main.get_item "movies_loaded" stats =
      Some (main.SInt (loaded_count (batch_size cfg) movies)) /\
    RAW_MOVIES w3 =
      Some (loaded_movies (batch_size cfg) uuid (clock w2) movies
              (get (RAW_MOVIES w) [])) /\
    RAW_GENRES w3 =
      Some (loaded_genres uuid (clock w2) genres (get (RAW_GENRES w) [])).
Proof.
  intros Hg Hm Hb.
  pose proof (extract_genre_list_reads_only server (tmdb cfg) w) as Rg.
  rewrite Hg in Rg. destruct Rg as (a1 & _ & _ & _ & Hm1 & Hg1).
  pose proof (extract_movies_with_details_reads_only server (tmdb cfg)
                (Some (or_ pages (pages_to_fetch (tmdb cfg)))) w1) as Rm.
  rewrite Hm in Rm. destruct Rm as (a2 & _ & _ & _ & Hm2 & Hg2). simpl in *.
  unfold main.run_pipeline. rewrite Hg, Hm. unfold bind.
  rewrite ensure_tables_exist_spec.
  set (w3 := stored w2 _ _ _).
  assert (load.load_genres uuid genres w3 =
            (Ok (match genres with [] => 0 | _ => 1 end),
             match genres with
             | [] => w3
             | _ => stored w3 [InsertGenres (snapshot uuid (clock w3) genres)]
                      (RAW_MOVIES w3)
                      (Some (get (RAW_GENRES w2) [] ++ [snapshot uuid (clock w3) genres]))
             end)) as Hlg.
  { rewrite (load_genres_spec uuid genres w3 (get (RAW_GENRES w2) [])) by done.
    by destruct genres. }
  rewrite Hlg. set (w4 := match genres with [] => w3 | _ => _ end).
  assert (RAW_MOVIES w4 = Some (get (RAW_MOVIES w) []) /\
          RAW_GENRES w4 = Some (loaded_genres uuid (clock w2) genres
                                  (get (RAW_GENRES w) [])) /\
          clock w4 = clock w2) as (Hm4 & Hg4 & Hc4).
  { subst w4 w3. rewrite Hm2, Hm1, Hg2, Hg1. by destruct genres. }
  destruct (load_movies_loads uuid movies (batch_size cfg) w4 _ Hm4 Hb)
    as (w5 & Hlm & Hm5 & Hg5 & Hc5).
  rewrite Hlm. rewrite Hg4 in Hg5. rewrite Hc4 in Hm5.
  destruct (run_post_load_checks_spec w5 _ _ Hm5 Hg5)
    as (w6 & Hck & Hm6 & Hg6 & _).
  rewrite Hck. eexists _, w6. split; [reflexivity|]. done.
Qed.

(** With batch size 0 and a movie to load the run fails in [load_movies],
    after the tables were created and the genres loaded. *)
Lemma run_pipeline_zero_batch pages w genres w1 movies w2 :
  extract.extract_genre_list server (tmdb cfg) w = (Ok genres, w1) ->
  extract.extract_movies_with_details server (tmdb cfg)
    (Some (or_ pages (pages_to_fetch (tmdb cfg)))) extract.append_to [] w1 =
    (movies, Normal, w2) ->
  batch_size cfg = 0 -> movies <> [] ->
  exists w3,
    main.run_pipeline server cfg uuid pages false w =
      (Raise (ValueError RangeStepZero), w3) /\
    RAW_MOVIES w3 = Some (get (RAW_MOVIES w) []) /\
    RAW_GENRES w3 =
      Some (loaded_genres uuid (clock w2) genres (get (RAW_GENRES w) [])).
Proof.
  intros Hg Hm Hb Hne.
  pose proof (extract_genre_list_reads_only server (tmdb cfg) w) as Rg.
  rewrite Hg in Rg. destruct Rg as (a1 & _ & _ & _ & Hm1 & Hg1).
  pose proof (extract_movies_with_details_reads_only server (tmdb cfg)
                (Some (or_ pages (pages_to_fetch (tmdb cfg)))) w1) as Rm.
  rewrite Hm in Rm. destruct Rm as (a2 & _ & _ & _ & Hm2 & Hg2). simpl in *.
  unfold main.run_pipeline. rewrite Hg, Hm. unfold bind.
  rewrite ensure_tables_exist_spec.
  set (w3 := stored w2 _ _ _).
  rewrite (load_genres_spec uuid genres w3 (get (RAW_GENRES w2) [])) by done.
  rewrite Hb.
  destruct genres as [|genre rest];
    rewrite load_movies_not_positive by (done || lia); simpl;
    eexists; (split; [reflexivity|]); simpl; by rewrite Hm2, Hm1, Hg2, Hg1.
Qed.

End run_facts.

(** ** The order of a run *)

Lemma loads_only_refl (w : World) : loads_only w w.
Proof. exists []. by rewrite app_nil_r. Qed.

Lemma loads_only_trans (w1 w2 w3 : World) :
  loads_only w1 w2 -> loads_only w2 w3 -> loads_only w1 w3.
Proof.
  intros (a1 & Ht1 & Hr1) (a2 & Ht2 & Hr2). exists (a1 ++ a2).
  rewrite Ht2, Ht1, <- app_assoc. split; [done|].
  by rewrite requests_app, Hr1, Hr2.
Qed.

Lemma bind_loads_only {A B : Type} (c : M A) (k : A -> M B) (w : World) :
  (forall w0, loads_only w0 (c w0).2) ->
  (forall a w0, loads_only w0 (k a w0).2) ->
  loads_only w (bind c k w).2.
Proof.
  intros Hc Hk. unfold bind. specialize (Hc w).
  destruct (c w) as [[a|e] w1]; simpl in *; [|done].
  eapply loads_only_trans; [apply Hc|apply Hk].
Qed.

Lemma execute_loads_only (stmt : Statement) (w : World) :
  loads_only w (load._execute stmt w).2.
Proof.
  unfold load._execute. destruct (load.run_statement stmt w) as [[movies genres]|];
    by exists [EvSql stmt].
Qed.

Lemma log_loads_only (level : Level) (msg : LogMessage) (w : World) :
  loads_only w (log level msg w).2.
Proof. by exists [EvLog level msg]. Qed.

Section loader_order.

Variable batch_id : string.

Lemma execute_rows_loads_only rows total w :
  loads_only w (load.execute_rows rows total w).2.
Proof.
  revert total w. induction rows as [|row rest IH]; intros total w; simpl.
  - apply loads_only_refl.
  - apply bind_loads_only; [apply execute_loads_only|]. intros _ w0. apply IH.
Qed.

Lemma load_batches_loads_only movies batch_size ingested_at starts total w :
  loads_only w
    (load.load_batches batch_id movies batch_size ingested_at starts total w).2.
Proof.
  revert total w. induction starts as [|start later IH]; intros total w; simpl.
  - apply loads_only_refl.
  - apply bind_loads_only; [intros w0; apply execute_rows_loads_only|].
    intros total' w0. apply IH.
Qed.

Lemma load_movies_loads_only movies batch_size w :
  loads_only w (load.load_movies batch_id movies batch_size w).2.
Proof.
  unfold load.load_movies. destruct movies as [|movie rest].
  - apply bind_loads_only; [apply log_loads_only|]. intros _ w0.
    apply loads_only_refl.
  - apply bind_loads_only.
    + intros w0. unfold load.range.
      destruct (batch_size =? 0); [apply loads_only_refl|].
      destruct (batch_size <? 0); apply loads_only_refl.
    + intros starts w0. apply load_batches_loads_only.
Qed.

Lemma load_genres_loads_only genres w :
  loads_only w (load.load_genres batch_id genres w).2.
Proof.
  unfold load.load_genres. destruct genres as [|genre rest].
  - apply loads_only_refl.
  - apply bind_loads_only; [apply execute_loads_only|]. intros _ w0.
    apply loads_only_refl.
Qed.

End loader_order.

Lemma get_row_count_loads_only table w :
  loads_only w (load.get_row_count table w).2.
Proof.
  apply bind_loads_only; [apply execute_loads_only|]. intros _ w0.
  apply loads_only_refl.
Qed.

Lemma run_post_load_checks_loads_only w :
  loads_only w (load.run_post_load_checks w).2.
Proof.
  apply bind_loads_only; [apply get_row_count_loads_only|]. intros movies_count w0.
  apply bind_loads_only; [apply get_row_count_loads_only|]. intros genres_count w1.
  destruct (movies_count =? 0); [apply log_loads_only|apply loads_only_refl].
Qed.

(** X14 — A run extracts, then loads: the events a run of [run_pipeline]
    adds split into those of the extraction, which hold no SQL statement, and
    those of the load after them, which hold no request; and the first two
    statements of a run, when there are any, are the CREATE TABLE IF NOT
    EXISTS of the movies table and of the genres table, in this order, so
    that no row is written before both were issued. *)
Theorem run_extracts_before_it_loads (server : Server) (cfg : PipelineConfig)
    (uuid : string) (pages : option Z) (dry_run : bool) (w : World) :
  exists extracted loaded,
    trace (main.run_pipeline server cfg uuid pages dry_run w).2 =
      trace w ++ extracted ++ loaded /\
    statements extracted = [] /\
    requests loaded = [] /\
    take 2 (statements loaded) `prefix_of` [CreateRawMovies; CreateRawGenres].
Proof.
  unfold main.run_pipeline.
  pose proof (extract_genre_list_reads_only server (tmdb cfg) w) as Rg.
  destruct (extract.extract_genre_list server (tmdb cfg) w) as [[genres|e] w1];
    simpl in Rg.
  2:{ destruct Rg as (added & Ht & _ & Hs & _). exists added, []. simpl.
      rewrite app_nil_r. repeat split; try done. by eexists. }
  pose proof (extract_movies_with_details_reads_only server (tmdb cfg)
                (Some (or_ pages (pages_to_fetch (tmdb cfg)))) w1) as Rm.
  destruct (extract.extract_movies_with_details _ _ _ _ _ w1) as [[movies o] w2];
    simpl in Rm.
  destruct (reads_only_trans _ _ _ Rg Rm) as (added & Ht & _ & Hs & _).
  destruct o as [|e].
  2:{ exists added, []. simpl. rewrite app_nil_r. repeat split; try done.
      by eexists. }
  destruct dry_run.
  { exists added, []. simpl. rewrite app_nil_r. repeat split; try done.
    by eexists. }
  unfold bind at 1. rewrite ensure_tables_exist_spec.
  match goal with |- context [bind ?c ?k (stored w2 ?stmts ?m ?g)] =>
    assert (loads_only (stored w2 stmts m g) (bind c k (stored w2 stmts m g)).2)
      as (rest & Hrest & Hreq)
  end.
  { apply bind_loads_only; [intros w0; apply load_genres_loads_only|].
    intros genres_loaded w4.
    apply bind_loads_only; [intros w0; apply load_movies_loads_only|].
    intros movies_loaded w5.
    apply bind_loads_only; [apply run_post_load_checks_loads_only|].
    intros _ w6. apply loads_only_refl. }
  exists added, ([EvSql CreateRawMovies; EvSql CreateRawGenres] ++ rest).
  rewrite Hrest. simpl. rewrite Ht, <- !app_assoc. simpl.
  repeat split; done.
Qed.

(** X15 — A failed extraction ends the run before anything is written: when
    the genre list or the stream of movies raises, [run_pipeline] raises the
    same exception in the same world; no SQL statement was issued and both
    bronze tables are as they were. *)
Theorem failed_extraction_writes_nothing (server : Server) (cfg : PipelineConfig)
    (uuid : string) (pages : option Z) (dry_run : bool) (w w' : World) (e : Exn) :
  extract.extract_genre_list server (tmdb cfg) w = (Raise e, w') \/
  (exists genres w1 movies,
      extract.extract_genre_list server (tmdb cfg) w = (Ok genres, w1) /\
      extract.extract_movies_with_details server (tmdb cfg)
        (Some (or_ pages (pages_to_fetch (tmdb cfg)))) extract.append_to [] w1 =
        (movies, Raised e, w')) ->
  main.run_pipeline server cfg uuid pages dry_run w = (Raise e, w') /\
  RAW_MOVIES w' = RAW_MOVIES w /\
  RAW_GENRES w' = RAW_GENRES w /\
  exists added, trace w' = trace w ++ added /\ statements added = [].
Proof.
  intros Hfail.
  pose proof (extract_genre_list_reads_only server (tmdb cfg) w) as Rg.
  assert (main.run_pipeline server cfg uuid pages dry_run w = (Raise e, w') /\
          reads_only w w') as [Hrun Hread].
  { unfold main.run_pipeline.
    destruct Hfail as [Hg|(genres & w1 & movies & Hg & Hm)].
    - rewrite Hg in Rg |- *. done.
    - rewrite Hg in Rg |- *. rewrite Hm. split; [done|].
      pose proof (extract_movies_with_details_reads_only server (tmdb cfg)
                    (Some (or_ pages (pages_to_fetch (tmdb cfg)))) w1) as Rm.
      rewrite Hm in Rm. by eapply reads_only_trans. }
  split; [done|]. destruct Hread as (added & Ht & _ & Hs & Hm & Hg). eauto.
Qed.

Lemma failed_extraction_writes_nothing_witness :
  exists e w',
    main.run_pipeline sample.one_unavailable sample.config "run-1" (Some 1) false
      sample.world = (Raise e, w') /\
    RAW_MOVIES w' = None.
Proof.
  assert (exists genres w1 movies e w',
            extract.extract_genre_list sample.one_unavailable
              (tmdb sample.config) sample.world = (Ok genres, w1) /\
            extract.extract_movies_with_details sample.one_unavailable
              (tmdb sample.config)
              (Some (or_ (Some 1) (pages_to_fetch (tmdb sample.config))))
              extract.append_to [] w1 = (movies, Raised e, w'))
    as (genres & w1 & movies & e & w' & Hg & Hm).
  { eexists _, _, _, _, _. split; vm_compute; reflexivity. }
  destruct (failed_extraction_writes_nothing sample.one_unavailable sample.config
              "run-1" (Some 1) false sample.world w' e) as (Hrun & Hmovies & _).
  - right. exists genres, w1, movies. split; [exact Hg|exact Hm].
  - exists e, w'. split; [exact Hrun|exact Hmovies].
Defined.

(** X16 — Batch size 0: when extraction succeeds with at least one movie, a
    run with batch size 0 fails with the [ValueError] of [range] in
    [load_movies], after the tables were created and the genre list was
    loaded: the genres table has its new row, the movies table none. *)
Theorem zero_batch_size_fails_after_the_genres_are_loaded (server : Server)
    (cfg : PipelineConfig) (uuid : string) (pages : option Z) (w w1 w2 : World)
    (genres movies : list Dict) :
  extract.extract_genre_list server (tmdb cfg) w = (Ok genres, w1) ->
  extract.extract_movies_with_details server (tmdb cfg)
    (Some (or_ pages (pages_to_fetch (tmdb cfg)))) extract.append_to [] w1 =
    (movies, Normal, w2) ->
  batch_size cfg = 0 -> movies <> [] ->
  exists w3,
    main.run_pipeline server cfg uuid pages false w =
      (Raise (ValueError RangeStepZero), w3) /\
    RAW_MOVIES w3 = Some (get (RAW_MOVIES w) []) /\
    RAW_GENRES w3 =
      Some (loaded_genres uuid (clock w2) genres (get (RAW_GENRES w) [])).
Proof. apply run_pipeline_zero_batch. Qed.

Lemma zero_batch_size_fails_after_the_genres_are_loaded_witness :
  exists w3,
    main.run_pipeline sample.catalog
      {| batch_size := 0; log_level := "INFO"; tmdb := sample.tmdb_config;
         snowflake := snowflake sample.config |} "run-1" (Some 1) false
      sample.world = (Raise (ValueError RangeStepZero), w3) /\
    RAW_MOVIES w3 = Some [] /\
    length (get (RAW_GENRES w3) []) = 1%nat.
Proof.
  edestruct (zero_batch_size_fails_after_the_genres_are_loaded sample.catalog
               {| batch_size := 0; log_level := "INFO"; tmdb := sample.tmdb_config;
                  snowflake := snowflake sample.config |} "run-1" (Some 1)
               sample.world) as (w3 & Hrun & Hm & Hg).
  - vm_compute. reflexivity.
  - vm_compute. reflexivity.
  - reflexivity.
  - discriminate.
  - exists w3. split; [exact Hrun|]. split; [exact Hm|]. by rewrite Hg.
Defined.

(** ** The counts of a run *)

(** X17 — In the statistics of a run that returns, the loaded counts follow
    the extracted ones: [movies_loaded] is at most [movies_extracted],
    [genres_loaded] is 1 when genres were extracted and the run loads, and 0
    otherwise; a dry run and a run with a negative batch size load no movie. *)
Theorem loaded_counts_follow_the_extracted_ones (server : Server)
    (cfg : PipelineConfig) (uuid : string) (pages : option Z) (dry_run : bool)
    (w w' : World) (stats : main.Stats) :
  main.run_pipeline server cfg uuid pages dry_run w = (Ok stats, w') ->
  exists movies_extracted genres_extracted movies_loaded genres_loaded,
    main.get_item "movies_extracted" stats = Some (main.SInt movies_extracted) /\
    main.get_item "genres_extracted" stats = Some (main.SInt genres_extracted) /\
    main.get_item "movies_loaded" stats = Some (main.SInt movies_loaded) /\
    main.get_item "genres_loaded" stats = Some (main.SInt genres_loaded) /\
    0 <= movies_loaded <= movies_extracted /\
    genres_loaded = (if dry_run || (genres_extracted =? 0) then 0 else 1) /\
    (dry_run = true \/ batch_size cfg < 0 -> movies_loaded = 0).
Proof.
  intros Hrun.
  destruct (extract.extract_genre_list server (tmdb cfg) w) as [[genres|e] w1] eqn:Eg.
  2:{ unfold main.run_pipeline in Hrun. by rewrite Eg in Hrun. }
  destruct (extract.extract_movies_with_details server (tmdb cfg)
              (Some (or_ pages (pages_to_fetch (tmdb cfg)))) extract.append_to [] w1)
    as [[movies [|e]] w2] eqn:Em.
  2:{ unfold main.run_pipeline in Hrun. by rewrite Eg, Em in Hrun. }
  destruct dry_run.
  { unfold main.run_pipeline in Hrun. rewrite Eg, Em in Hrun.
    injection Hrun as <- <-. eexists _, _, _, _.
    repeat (split; [reflexivity|]). split; [lia|]. done. }
  assert (batch_size cfg <> 0 \/ movies = []) as Hb.
  { destruct (Z.eq_dec (batch_size cfg) 0) as [Hb|Hb]; [|by left].
    destruct movies as [|movie rest] eqn:Emovies; [by right|].
    destruct (run_pipeline_zero_batch server cfg uuid pages w genres w1
                (movie :: rest) w2 Eg Em Hb) as (w3 & Hfail & _); [done|].
    congruence. }
  destruct (run_pipeline_loads server cfg uuid pages w genres w1 movies w2 Eg Em Hb)
    as (stats' & w3 & Hrun' & Hge & Hme & Hgl & Hml & _).
  rewrite Hrun in Hrun'. injection Hrun' as <- <-.
  eexists _, _, _, _. split; [exact Hme|]. split; [exact Hge|].
  split; [exact Hml|]. split; [exact Hgl|]. unfold loaded_count.
  pose proof (List.filter_length_le (fun movie => truthy_id (d_id movie)) movies).
  split; [|split].
  - destruct (0 <? batch_size cfg); lia.
  - by destruct genres.
  - intros [?|Hneg]; [done|]. destruct (0 <? batch_size cfg) eqn:E; [lia|done].
Qed.

Lemma loaded_counts_follow_the_extracted_ones_witness :
  exists stats w' movies_extracted movies_loaded,
    main.run_pipeline sample.twenty sample.config "run-1" (Some 1) false
      sample.world = (Ok stats, w') /\
    main.get_item "movies_extracted" stats = Some (main.SInt movies_extracted) /\
    main.get_item "movies_loaded" stats = Some (main.SInt movies_loaded) /\
    0 <= movies_loaded <= movies_extracted.
Proof.
  assert (exists stats w',
            main.run_pipeline sample.twenty sample.config "run-1" (Some 1) false
              sample.world = (Ok stats, w')) as (stats & w' & Hrun).
  { eexists _, _. vm_compute. reflexivity. }
  destruct (loaded_counts_follow_the_extracted_ones sample.twenty sample.config
              "run-1" (Some 1) false sample.world w' stats Hrun)
    as (me & ge & ml & gl & Hme & _ & Hml & _ & Hle & _).
  exists stats, w', me, ml. split; [exact Hrun|]. split; [exact Hme|].
  split; [exact Hml|exact Hle].
Defined.

(** ** The checks after the load *)

(** X18 — The quality check never stops a run: on existing tables
    [run_post_load_checks] issues the two counts and returns; an empty movies
    table is logged as an error and nothing is raised; both tables and the
    clock are as before. *)
Theorem empty_landing_table_is_only_logged (w : World) (movies : list MovieRow)
    (genres : list GenreRow) :
  RAW_MOVIES w = Some movies -> RAW_GENRES w = Some genres ->
  exists w',
    load.run_post_load_checks w = (Ok tt, w') /\
    RAW_MOVIES w' = Some movies /\ RAW_GENRES w' = Some genres /\
    clock w' = clock w /\
    trace w' =
      trace w ++
        [EvSql (SelectCount BRONZE_RAW_MOVIES); EvSql (SelectCount BRONZE_RAW_GENRES)] ++
        match movies with
        | [] => [EvLog ERROR QualityCheckFailed]
        | _ => []
        end.
Proof. apply run_post_load_checks_spec. Qed.

Lemma empty_landing_table_is_only_logged_witness :
  exists w',
    load.run_post_load_checks sample.fresh_tables = (Ok tt, w') /\
    logged ERROR (trace w') = [QualityCheckFailed].
Proof.
  destruct (empty_landing_table_is_only_logged sample.fresh_tables [] [])
    as (w' & Hrun & _ & _ & _ & Ht); [reflexivity..|].
  exists w'. split; [exact Hrun|]. by rewrite Ht.
Defined.

(** ** A run never removes a row *)

Lemma extends_tables_refl (w : World) : extends_tables w w.
Proof. split; intros rows H; by exists rows. Qed.

Lemma extends_tables_trans (w1 w2 w3 : World) :
  extends_tables w1 w2 -> extends_tables w2 w3 -> extends_tables w1 w3.
Proof.
  intros [Hm1 Hg1] [Hm2 Hg2]. split.
  - intros t Ht. destruct (Hm1 t Ht) as (t2 & Ht2 & Hp2).
    destruct (Hm2 t2 Ht2) as (t3 & Ht3 & Hp3). exists t3. split; [done|].
    by etrans.
  - intros g Hg. destruct (Hg1 g Hg) as (g2 & Hgg2 & Hp2).
    destruct (Hg2 g2 Hgg2) as (g3 & Hgg3 & Hp3). exists g3. split; [done|].
    by etrans.
Qed.

Lemma reads_only_extends_tables (w w' : World) :
  reads_only w w' -> extends_tables w w'.
Proof.
  intros (added & _ & _ & _ & Hm & Hg). split; intros rows H; exists rows;
    (split; [congruence|done]).
Qed.

Lemma bind_extends_tables {A B : Type} (c : M A) (k : A -> M B) (w : World) :
  (forall w0, extends_tables w0 (c w0).2) ->
  (forall a w0, extends_tables w0 (k a w0).2) ->
  extends_tables w (bind c k w).2.
Proof.
  intros Hc Hk. unfold bind. specialize (Hc w).
  destruct (c w) as [[a|e] w1]; simpl in *; [|done].
  eapply extends_tables_trans; [apply Hc|apply Hk].
Qed.

(** No statement of the loader removes a row or changes an identifier. *)
Lemma execute_extends_tables (stmt : Statement) (w : World) :
  extends_tables w (load._execute stmt w).2.
Proof.
  unfold load._execute.
  destruct stmt as [| |source|row|[|]]; simpl.
  - split; intros rows H; simpl; rewrite H; by eexists.
  - split; intros rows H; simpl; rewrite H; by eexists.
  - destruct (RAW_MOVIES w) as [target|] eqn:Et; simpl.
    + split; intros rows H; simpl.
      * rewrite Et in H. injection H as <-. eexists. split; [done|].
        apply merge_prefix.
      * by exists rows.
    + split; intros rows H; simpl; [congruence|by exists rows].
  - destruct (RAW_GENRES w) as [target|] eqn:Et; simpl.
    + split; intros rows H; simpl.
      * by exists rows.
      * rewrite Et in H. injection H as <-. eexists. split; [done|]. by eexists.
    + split; intros rows H; simpl; [by exists rows|congruence].
  - destruct (RAW_MOVIES w) as [target|] eqn:Et; simpl;
      split; intros rows H; simpl; exists rows; split; congruence || done.
  - destruct (RAW_GENRES w) as [target|] eqn:Et; simpl;
      split; intros rows H; simpl; exists rows; split; congruence || done.
Qed.

Lemma log_extends_tables (level : Level) (msg : LogMessage) (w : World) :
  extends_tables w (log level msg w).2.
Proof. split; intros rows H; by exists rows. Qed.

Section loader_rows.

Variable batch_id : string.

Lemma execute_rows_extends_tables rows total w :
  extends_tables w (load.execute_rows rows total w).2.
Proof.
  revert total w. induction rows as [|row rest IH]; intros total w; simpl.
  - apply extends_tables_refl.
  - apply bind_extends_tables; [apply execute_extends_tables|]. intros _ w0.
    apply IH.
Qed.

Lemma load_batches_extends_tables movies batch_size ingested_at starts total w :
  extends_tables w
    (load.load_batches batch_id movies batch_size ingested_at starts total w).2.
Proof.
  revert total w. induction starts as [|start later IH]; intros total w; simpl.
  - apply extends_tables_refl.
  - apply bind_extends_tables; [intros w0; apply execute_rows_extends_tables|].
    intros total' w0. apply IH.
Qed.

Lemma load_movies_extends_tables movies batch_size w :
  extends_tables w (load.load_movies batch_id movies batch_size w).2.
Proof.
  unfold load.load_movies. destruct movies as [|movie rest].
  - apply bind_extends_tables; [apply log_extends_tables|]. intros _ w0.
    apply extends_tables_refl.
  - apply bind_extends_tables.
    + intros w0. unfold load.range.
      destruct (batch_size =? 0); [apply extends_tables_refl|].
      destruct (batch_size <? 0); apply extends_tables_refl.
    + intros starts w0. apply load_batches_extends_tables.
Qed.

Lemma load_genres_extends_tables genres w :
  extends_tables w (load.load_genres batch_id genres w).2.
Proof.
  unfold load.load_genres. destruct genres as [|genre rest].
  - apply extends_tables_refl.
  - apply bind_extends_tables; [apply execute_extends_tables|]. intros _ w0.
    apply extends_tables_refl.
Qed.

End loader_rows.

Lemma ensure_tables_exist_extends_tables w :
  extends_tables w (load.ensure_tables_exist w).2.
Proof.
  apply bind_extends_tables; [apply execute_extends_tables|]. intros _ w0.
  apply execute_extends_tables.
Qed.

Lemma get_row_count_extends_tables table w :
  extends_tables w (load.get_row_count table w).2.
Proof.
  apply bind_extends_tables; [apply execute_extends_tables|]. intros _ w0.
  apply extends_tables_refl.
Qed.

Lemma run_post_load_checks_extends_tables w :
  extends_tables w (load.run_post_load_checks w).2.
Proof.
  apply bind_extends_tables; [apply get_row_count_extends_tables|].
  intros movies_count w0.
  apply bind_extends_tables; [apply get_row_count_extends_tables|].
  intros genres_count w1.
  destruct (movies_count =? 0); [apply log_extends_tables|apply extends_tables_refl].
Qed.

(** X19 — A run never removes a row: however [run_pipeline] ends, a bronze
    table that existed before still exists; the movies table has the
    identifiers it had, in their places, with the new ones after them, and
    the genres table has the rows it had, with the new ones after them. *)
Theorem run_never_removes_a_row (server : Server) (cfg : PipelineConfig)
    (uuid : string) (pages : option Z) (dry_run : bool) (w : World) :
  let w' := (main.run_pipeline server cfg uuid pages dry_run w).2 in
  (forall movies, RAW_MOVIES w = Some movies ->
     exists movies', RAW_MOVIES w' = Some movies' /\
       (MOVIE_ID <$> movies) `prefix_of` (MOVIE_ID <$> movies')) /\
  (forall genres, RAW_GENRES w = Some genres ->
     exists genres', RAW_GENRES w' = Some genres' /\ genres `prefix_of` genres').
Proof.
  change (extends_tables w (main.run_pipeline server cfg uuid pages dry_run w).2).
  unfold main.run_pipeline.
  pose proof (reads_only_extends_tables _ _
                (extract_genre_list_reads_only server (tmdb cfg) w)) as Hg.
  destruct (extract.extract_genre_list server (tmdb cfg) w) as [[genres|e] w1];
    simpl in Hg; [|done].
  pose proof (reads_only_extends_tables _ _
                (extract_movies_with_details_reads_only server (tmdb cfg)
                   (Some (or_ pages (pages_to_fetch (tmdb cfg)))) w1)) as Hm.
  destruct (extract.extract_movies_with_details _ _ _ _ _ w1) as [[movies [|e]] w2];
    simpl in Hm; [|by eapply extends_tables_trans].
  assert (extends_tables w w2) as Hw by (by eapply extends_tables_trans).
  destruct dry_run; simpl; [done|].
  eapply extends_tables_trans; [apply Hw|].
  apply bind_extends_tables; [apply ensure_tables_exist_extends_tables|].
  intros _ w3.
  apply bind_extends_tables; [intros w0; apply load_genres_extends_tables|].
  intros genres_loaded w4.
  apply bind_extends_tables; [intros w0; apply load_movies_extends_tables|].
  intros movies_loaded w5.
  apply bind_extends_tables; [apply run_post_load_checks_extends_tables|].
  intros _ w6. apply extends_tables_refl.
Qed.

(** ** The configuration *)

Section config_facts.

Variable int : string -> option Z.
Variable environ : gmap string string.

Lemma require_inr (key value : string) :
  config._require environ key = inr value <->
  environ !! key = Some value /\ value <> ""%string.
Proof.
  unfold config._require. destruct (environ !! key) as [v|]; [|by split; [|intros [? ?]]].
  destruct (String.eqb v "") eqn:E.
  - apply String.eqb_eq in E as ->. split; [done|]. intros [[= <-] ?]. done.
  - apply String.eqb_neq in E. split.
    + by intros [= <-].
    + by intros [[= <-] _].
Qed.

Lemma require_set (key : string) :
  is_set environ key -> exists value, config._require environ key = inr value.
Proof. intros (value & Hv & Hne). exists value. by apply require_inr. Qed.

Lemma require_not_set (key : string) :
  ~ is_set environ key ->
  config._require environ key = inl (config.EnvironmentError key).
Proof.
  intros Hnot. unfold config._require.
  destruct (environ !! key) as [v|] eqn:Ev; [|done].
  destruct (String.eqb v "") eqn:E; [done|]. apply String.eqb_neq in E.
  destruct Hnot. by exists v.
Qed.

Lemma is_set_dec (key : string) : is_set environ key \/ ~ is_set environ key.
Proof.
  unfold is_set. destruct (environ !! key) as [v|]; [|right; by intros (? & ? & ?)].
  destruct (decide (v = ""%string)) as [->|Hne].
  - right. by intros (? & [= <-] & ?).
  - left. by exists v.
Qed.

(** [load_config] returns a configuration exactly when the four credentials
    are set and the two numbers parse. *)
Lemma load_config_inr :
  (exists cfg, config.load_config int environ = inr cfg) <->
  Forall (is_set environ) required_keys /\
  is_Some (int (config._optional environ "TMDB_PAGES_TO_FETCH" "20")) /\
  is_Some (int (config._optional environ "BATCH_SIZE" "100")).
Proof.
  unfold config.load_config, config.int_optional, required_keys.
  rewrite !Forall_cons. split.
  - intros [cfg Hcfg].
    destruct (is_set_dec "TMDB_API_KEY") as [H1|H1];
      [|by rewrite (require_not_set _ H1) in Hcfg].
    destruct (require_set _ H1) as (v1 & E1). rewrite E1 in Hcfg.
    destruct (int (config._optional environ "TMDB_PAGES_TO_FETCH" "20"))
      as [pages|]; [|done].
    destruct (is_set_dec "SNOWFLAKE_ACCOUNT") as [H2|H2];
      [|by rewrite (require_not_set _ H2) in Hcfg].
    destruct (require_set _ H2) as (v2 & E2). rewrite E2 in Hcfg.
    destruct (is_set_dec "SNOWFLAKE_USER") as [H3|H3];
      [|by rewrite (require_not_set _ H3) in Hcfg].
    destruct (require_set _ H3) as (v3 & E3). rewrite E3 in Hcfg.
    destruct (is_set_dec "SNOWFLAKE_PASSWORD") as [H4|H4];
      [|by rewrite (require_not_set _ H4) in Hcfg].
    destruct (require_set _ H4) as (v4 & E4). rewrite E4 in Hcfg.
    destruct (int (config._optional environ "BATCH_SIZE" "100")) as [size|];
      [|done].
    repeat split; try done; by eexists.
  - intros [(H1 & H2 & H3 & H4 & _) [[pages Hp] [size Hs]]].
    destruct (require_set _ H1) as (v1 & ->). rewrite Hp.
    destruct (require_set _ H2) as (v2 & ->).
    destruct (require_set _ H3) as (v3 & ->).
    destruct (require_set _ H4) as (v4 & ->). rewrite Hs. by eexists.
Qed.

Lemma load_config_fails (key : string) :
  key ∈ required_keys -> ~ is_set environ key ->
  exists e, config.load_config int environ = inl e.
Proof.
  intros Hkey Hnot.
  destruct (config.load_config int environ) as [e|cfg] eqn:E; [by exists e|].
  assert (exists cfg, config.load_config int environ = inr cfg) as Hok
    by (by exists cfg).
  apply load_config_inr in Hok as [Hall _].
  rewrite Forall_forall in Hall. destruct Hnot. by apply Hall.
Qed.

End config_facts.

(** X20 — [load_config] returns a configuration exactly when the four
    credentials TMDB_API_KEY, SNOWFLAKE_ACCOUNT, SNOWFLAKE_USER and
    SNOWFLAKE_PASSWORD are set to a value that is not empty and [int()] takes
    the values of TMDB_PAGES_TO_FETCH and BATCH_SIZE (their defaults when
    unset); every other variable has a default and cannot make it fail. *)
Theorem load_config_needs_the_credentials_and_two_numbers
    (int : string -> option Z) (environ : gmap string string) :
  (exists cfg, config.load_config int environ = inr cfg) <->
  Forall (is_set environ) required_keys /\
  is_Some (int (config._optional environ "TMDB_PAGES_TO_FETCH" "20")) /\
  is_Some (int (config._optional environ "BATCH_SIZE" "100")).
Proof. apply load_config_inr. Qed.

Lemma load_config_needs_the_credentials_and_two_numbers_witness :
  exists cfg, config.load_config decimal sample.environment = inr cfg.
Proof.
  apply (load_config_needs_the_credentials_and_two_numbers decimal
           sample.environment).
  split; [|split].
  - unfold required_keys. repeat constructor; eexists; (split; [reflexivity|done]).
  - by eexists.
  - by eexists.
Defined.

(** X21 — Unset optional variables take their defaults: with the four
    credentials set and none of the other variables, the configuration holds
    the credentials, the TMDb address https://api.themoviedb.org/3, 20 pages,
    batch size 100, log level INFO, and the role, warehouse, database and
    schema DE_ROLE, LECTURE_INGEST_WH, LECTURE_DE and BRONZE. *)
Theorem unset_variables_take_their_defaults (int : string -> option Z)
    (environ : gmap string string) (key account user password : string) :
  int "20"%string = Some 20 -> int "100"%string = Some 100 ->
  config._require environ "TMDB_API_KEY" = inr key ->
  config._require environ "SNOWFLAKE_ACCOUNT" = inr account ->
  config._require environ "SNOWFLAKE_USER" = inr user ->
  config._require environ "SNOWFLAKE_PASSWORD" = inr password ->
  Forall (fun optional => environ !! optional = None) optional_keys ->
  config.load_config int environ =
    inr {| batch_size := 100; log_level := "INFO";
           tmdb := {| api_key := key;
                      tmdb_base_url := "https://api.themoviedb.org/3";
                      pages_to_fetch := 20 |};
           snowflake := {| account := account; user := user; password := password;
                           role := "DE_ROLE"; warehouse := "LECTURE_INGEST_WH";
                           database := "LECTURE_DE"; schema := "BRONZE" |} |}.
Proof.
  intros H20 H100 Hk Ha Hu Hp Hopt. unfold optional_keys in Hopt.
  rewrite !Forall_cons in Hopt.
  destruct Hopt as (O1 & O2 & O3 & O4 & O5 & O6 & O7 & O8 & _).
  unfold config.load_config, config.int_optional, config._optional.
  by rewrite Hk, Ha, Hu, Hp, O1, O2, O3, O4, O5, O6, O7, O8, H20, H100.
Qed.

Lemma unset_variables_take_their_defaults_witness :
  config.load_config decimal sample.environment = inr sample.config.
Proof.
  apply (unset_variables_take_their_defaults decimal sample.environment);
    try reflexivity.
  unfold optional_keys. repeat constructor.
Defined.

(** X22 — The environment wins over the .env file: after [load_dotenv()] a
    variable of the environment has the value the environment gave it, and
    the file supplies only what the environment lacks; so a credential that
    the environment sets to the empty string is reported as not set, whatever
    the file holds for it. *)
Theorem environment_wins_over_dotenv (dotenv environ : gmap string string)
    (key : string) :
  (forall value, environ !! key = Some value ->
     config.load_dotenv dotenv environ !! key = Some value) /\
  (environ !! key = None ->
     config.load_dotenv dotenv environ !! key = dotenv !! key) /\
  (environ !! key = Some ""%string ->
     config._require (config.load_dotenv dotenv environ) key =
       inl (config.EnvironmentError key)).
Proof.
  unfold config.load_dotenv. split; [|split].
  - intros value Hv. by apply lookup_union_Some_l.
  - intros Hnone. by apply lookup_union_r.
  - intros Hempty. unfold config._require.
    by rewrite (lookup_union_Some_l _ _ _ _ Hempty).
Qed.

Lemma environment_wins_over_dotenv_witness :
  config._require
    (config.load_dotenv sample.environment
       (<["TMDB_API_KEY"%string := ""%string]> ∅)) "TMDB_API_KEY" =
    inl (config.EnvironmentError "TMDB_API_KEY").
Proof.
  apply (environment_wins_over_dotenv sample.environment
           (<["TMDB_API_KEY"%string := ""%string]> ∅) "TMDB_API_KEY").
  reflexivity.
Defined.

(** ** The entry point *)

Section main_facts.

Variable int : string -> option Z.
Variable setup_logging : string -> bool.
Variable environ : gmap string string.
Variable server : Server.
Variable uuid : string.

Local Abbreviation main := (main.main int setup_logging environ server uuid).

(** A configuration that cannot be loaded ends [main] before anything is
    done, and not with exit code 0. *)
Lemma main_config_error args w e :
  config.load_config int environ = inl e ->
  (main args w).2 = w /\ (main args w).1 <> main.Returns 0.
Proof.
  intros He. unfold main.main. rewrite He. by destruct e.
Qed.

(** [main] once the configuration is loaded and logging is set up. *)
Lemma main_runs args w cfg :
  config.load_config int environ = inr cfg ->
  setup_logging (log_level cfg) = true ->
  main args w =
    match main.run_pipeline server cfg uuid (main.args_pages args)
            (main.args_dry_run args) w with
    | (Ok _, w1) => (main.Returns 0, w1)
    | (Raise KeyboardInterrupt, w1) => (main.Returns 0, w1)
    | (Raise e, w1) => (main.Returns 1, after w1 [EvLog ERROR (PipelineFailed e)] 0)
    end.
Proof.
  intros Hc Hl. unfold main.main. rewrite Hc, Hl.
  destruct (main.run_pipeline _ _ _ _ _ w) as [[stats|e] w1]; [done|].
  destruct e; simpl; unfold after; by rewrite ?Z.add_0_r.
Qed.

Lemma main_returns_zero args w w' :
  main args w = (main.Returns 0, w') <->
  exists cfg,
    config.load_config int environ = inr cfg /\
    setup_logging (log_level cfg) = true /\
    ((exists stats,
        main.run_pipeline server cfg uuid (main.args_pages args)
          (main.args_dry_run args) w = (Ok stats, w')) \/
     main.run_pipeline server cfg uuid (main.args_pages args)
       (main.args_dry_run args) w = (Raise KeyboardInterrupt, w')).
Proof.
  split.
  - unfold main.main.
    destruct (config.load_config int environ) as [[key|key]|cfg] eqn:Ec;
      [done..|].
    destruct (setup_logging (log_level cfg)) eqn:El; [|done].
    destruct (main.run_pipeline _ _ _ _ _ w) as [[stats|e] w1] eqn:Er.
    + intros [= <-]. exists cfg. split; [done|]. split; [done|]. left.
      by exists stats.
    + destruct e; try done. intros [= <-]. exists cfg. split; [done|].
      split; [done|]. by right.
  - intros (cfg & Hc & Hl & Hrun). rewrite (main_runs args w cfg Hc Hl).
    destruct Hrun as [[stats ->]| ->]; done.
Qed.

End main_facts.

(** X23 — The exit code of [main]: it returns 0 exactly when the
    configuration loads, logging is set up and [run_pipeline] returns its
    statistics or is ended by the operator's interrupt; whenever it returns,
    the code is 0 or 1; when a credential is not set it returns 1 at once,
    before any request or statement; and when [run_pipeline] raises another
    exception it logs one error and returns 1. *)
Theorem main_returns_zero_after_a_completed_or_interrupted_run
    (int : string -> option Z) (setup_logging : string -> bool)
    (environ : gmap string string) (server : Server) (uuid : string)
    (args : main.Args) (w : World) :
  (forall w',
     main.main int setup_logging environ server uuid args w = (main.Returns 0, w') <->
     exists cfg,
       config.load_config int environ = inr cfg /\
       setup_logging (log_level cfg) = true /\
       ((exists stats,
           main.run_pipeline server cfg uuid (main.args_pages args)
             (main.args_dry_run args) w = (Ok stats, w')) \/
        main.run_pipeline server cfg uuid (main.args_pages args)
          (main.args_dry_run args) w = (Raise KeyboardInterrupt, w'))) /\
  (forall code,
     (main.main int setup_logging environ server uuid args w).1 = main.Returns code ->
     code = 0 \/ code = 1) /\
  (~ is_set environ "TMDB_API_KEY" ->
   main.main int setup_logging environ server uuid args w = (main.Returns 1, w)) /\
  (forall cfg e w1,
     config.load_config int environ = inr cfg ->
     setup_logging (log_level cfg) = true ->
     main.run_pipeline server cfg uuid (main.args_pages args)
       (main.args_dry_run args) w = (Raise e, w1) ->
     e <> KeyboardInterrupt ->
     main.main int setup_logging environ server uuid args w =
       (main.Returns 1, after w1 [EvLog ERROR (PipelineFailed e)] 0)).
Proof.
  split; [|split; [|split]].
  - intros w'. apply main_returns_zero.
  - intros code. unfold main.main.
    destruct (config.load_config int environ) as [[key|key]|cfg]; simpl.
    + intros [= <-]. by right.
    + done.
    + destruct (setup_logging (log_level cfg)); [|done].
      destruct (main.run_pipeline _ _ _ _ _ w) as [[stats|e] w1]; simpl.
      * intros [= <-]. by left.
      * destruct e; simpl; intros [= <-]; first [by left|by right].
  - intros Hnot. unfold main.main, config.load_config.
    by rewrite (require_not_set environ _ Hnot).
  - intros cfg e w1 Hc Hl Hrun Hne.
    rewrite (main_runs int setup_logging environ server uuid args w cfg Hc Hl), Hrun.
    by destruct e.
Qed.

Lemma main_returns_zero_after_a_completed_or_interrupted_run_witness :
  main.main decimal (fun _ => true) sample.environment
    (sample.flaky 1 ReplyInterrupted sample.catalog) "run-1"
    {| main.args_pages := Some 1; main.args_dry_run := false |} sample.world =
    (main.Returns 0,
     after sample.world
       [EvSleep 260;
        EvGet (extract.request_for sample.tmdb_config GenreMovieList
                 [("language"%string, PStr "en-US")])] 260).
Proof.
  apply (proj1 (main_returns_zero_after_a_completed_or_interrupted_run decimal
                  (fun _ => true) sample.environment
                  (sample.flaky 1 ReplyInterrupted sample.catalog) "run-1"
                  {| main.args_pages := Some 1; main.args_dry_run := false |}
                  sample.world)).
  exists sample.config. split; [reflexivity|]. split; [reflexivity|]. right.
  vm_compute. reflexivity.
Defined.

(** X24 — A number that [int()] rejects is not a configuration error of
    [main]: when TMDB_API_KEY is set and TMDB_PAGES_TO_FETCH holds a value
    [int()] does not take, the empty string included, [load_config] raises
    the [ValueError] of [int()] whatever the other variables hold, and this
    exception leaves [main], which returns no exit code and prints no
    configuration error. *)
Theorem rejected_number_leaves_main_uncaught (int : string -> option Z)
    (setup_logging : string -> bool) (environ : gmap string string)
    (server : Server) (uuid : string) (args : main.Args) (w : World)
    (value : string) :
  is_set environ "TMDB_API_KEY" ->
  environ !! "TMDB_PAGES_TO_FETCH"%string = Some value ->
  int value = None ->
  config.load_config int environ =
    inl (config.IntValueError "TMDB_PAGES_TO_FETCH") /\
  main.main int setup_logging environ server uuid args w =
    (main.Uncaught (config.IntValueError "TMDB_PAGES_TO_FETCH"), w).
Proof.
  intros Hkey Hv Hint.
  assert (config.load_config int environ =
            inl (config.IntValueError "TMDB_PAGES_TO_FETCH")) as Hcfg.
  { unfold config.load_config, config.int_optional, config._optional.
    destruct (require_set environ _ Hkey) as (key & ->). by rewrite Hv, Hint. }
  split; [done|]. unfold main.main. by rewrite Hcfg.
Qed.

Lemma rejected_number_leaves_main_uncaught_witness :
  main.main decimal (fun _ => true)
    (<["TMDB_PAGES_TO_FETCH"%string := ""%string]> sample.environment)
    sample.catalog "run-1"
    {| main.args_pages := None; main.args_dry_run := false |} sample.world =
    (main.Uncaught (config.IntValueError "TMDB_PAGES_TO_FETCH"), sample.world).
Proof.
  apply (rejected_number_leaves_main_uncaught decimal (fun _ => true)
           (<["TMDB_PAGES_TO_FETCH"%string := ""%string]> sample.environment)
           sample.catalog "run-1"
           {| main.args_pages := None; main.args_dry_run := false |}
           sample.world "").
  - exists "key"%string. split; [reflexivity|done].
  - reflexivity.
  - reflexivity.
Defined.

(** ** The Dagster assets *)

Lemma subprocess_env_forwards (environ : gmap string string) (key : string) :
  key ∈ required_keys ->
  movies_pipeline.subprocess_env environ !! key =
    Some (movies_pipeline.environ_get environ key).
Proof.
  unfold required_keys, movies_pipeline.subprocess_env. intros Hkey.
  repeat (apply elem_of_cons in Hkey as [->|Hkey]);
    [| | | |by apply elem_of_nil in Hkey];
    repeat (rewrite lookup_insert_ne by done); by rewrite lookup_insert_eq.
Qed.

(** X25 — The group of a dbt model depends on the set of its tags only, not
    on their order or number, and it is the highest layer the model is tagged
    with: "marts" exactly when it carries marts; "gold" exactly when it
    carries gold and not marts; "silver" exactly when it carries silver and
    neither gold nor marts; "bronze" exactly when it carries bronze and none
    of the other three; "transformation" exactly when it carries none of the
    four, or has no tags at all. *)
Theorem group_name_is_the_highest_layer_tagged :
  (forall tags1 tags2 : list string,
      (forall tag, tag ∈ tags1 <-> tag ∈ tags2) ->
      movies_pipeline.get_group_name (Some tags1) =
        movies_pipeline.get_group_name (Some tags2)) /\
  (forall tags : option (list string),
      movies_pipeline.get_group_name tags = "transformation"%string <->
      Forall (fun layer => layer ∉ get tags []) layers) /\
  (forall (tags : option (list string)) (layer : string),
      layer ∈ layers ->
      movies_pipeline.get_group_name tags = layer -> layer ∈ get tags []) /\
  (forall tags : option (list string),
      let group := movies_pipeline.get_group_name tags in
      let tagged (layer : string) := layer ∈ get tags [] in
      (group = "marts"%string <-> tagged "marts"%string) /\
      (group = "gold"%string <->
         tagged "gold"%string /\ ~ tagged "marts"%string) /\
      (group = "silver"%string <->
         tagged "silver"%string /\ ~ tagged "gold"%string /\
         ~ tagged "marts"%string) /\
      (group = "bronze"%string <->
         tagged "bronze"%string /\ ~ tagged "silver"%string /\
         ~ tagged "gold"%string /\ ~ tagged "marts"%string)).
Proof.
  split; [|split; [|split]].
  - intros tags1 tags2 Hsame. unfold movies_pipeline.get_group_name. simpl.
    by rewrite !(bool_decide_ext _ _ (Hsame _)).
  - intros tags. unfold movies_pipeline.get_group_name, layers.
    rewrite !Forall_cons.
    destruct (bool_decide_reflect ("marts"%string ∈ get tags []));
      [split; [done|tauto]|].
    destruct (bool_decide_reflect ("gold"%string ∈ get tags []));
      [split; [done|tauto]|].
    destruct (bool_decide_reflect ("silver"%string ∈ get tags []));
      [split; [done|tauto]|].
    destruct (bool_decide_reflect ("bronze"%string ∈ get tags []));
      [split; [done|tauto]|].
    split; [|done]. intros _. repeat split; done.
  - intros tags layer Hlayer. unfold movies_pipeline.get_group_name, layers in *.
    destruct (bool_decide_reflect ("marts"%string ∈ get tags []));
      [by intros <-|].
    destruct (bool_decide_reflect ("gold"%string ∈ get tags []));
      [by intros <-|].
    destruct (bool_decide_reflect ("silver"%string ∈ get tags []));
      [by intros <-|].
    destruct (bool_decide_reflect ("bronze"%string ∈ get tags []));
      [by intros <-|].
    intros <-. repeat (apply elem_of_cons in Hlayer as [Hlayer|Hlayer]; [done|]).
    by apply elem_of_nil in Hlayer.
  - intros tags group tagged. subst group tagged.
    unfold movies_pipeline.get_group_name.
    destruct (bool_decide_reflect ("marts"%string ∈ get tags []));
      [repeat split; (done || tauto)|].
    destruct (bool_decide_reflect ("gold"%string ∈ get tags []));
      [repeat split; (done || tauto)|].
    destruct (bool_decide_reflect ("silver"%string ∈ get tags []));
      [repeat split; (done || tauto)|].
    destruct (bool_decide_reflect ("bronze"%string ∈ get tags []));
      repeat split; (done || tauto).
Qed.

Lemma group_name_is_the_highest_layer_tagged_witness :
  movies_pipeline.get_group_name (Some ["bronze"; "daily"; "gold"; "bronze"]%string) =
    movies_pipeline.get_group_name (Some ["gold"; "bronze"; "daily"]%string).
Proof.
  apply (proj1 group_name_is_the_highest_layer_tagged).
  intros tag. rewrite !elem_of_cons, !elem_of_nil. tauto.
Defined.

(** X26 — The ingestion asset takes the credentials from the environment of
    the Dagster process only: when one of TMDB_API_KEY, SNOWFLAKE_ACCOUNT,
    SNOWFLAKE_USER and SNOWFLAKE_PASSWORD is not set there, the subprocess
    gets it as the empty string, which its .env file cannot replace, so the
    script ends with status 1 before any request or statement and the asset
    raises [RuntimeError], whatever the .env file holds. *)
Theorem ingestion_needs_the_credentials_of_the_parent (int : string -> option Z)
    (setup_logging : string -> bool) (dotenv environ : gmap string string)
    (server : Server) (uuid : string) (w : World) (key : string) :
  key ∈ required_keys ->
  environ !! key = None ->
  movies_pipeline.ingest_tmdb_to_bronze int setup_logging dotenv server uuid
    environ w = (movies_pipeline.RuntimeError 1, w).
Proof.
  intros Hkey Hnone.
  assert (~ is_set (config.load_dotenv dotenv (movies_pipeline.subprocess_env environ))
            key) as Hnot.
  { intros (value & Hv & Hne). unfold config.load_dotenv in Hv.
    rewrite (lookup_union_Some_l _ _ _ _ (subprocess_env_forwards environ key Hkey))
      in Hv.
    unfold movies_pipeline.environ_get in Hv. rewrite Hnone in Hv.
    by injection Hv as <-. }
  destruct (load_config_fails int _ key Hkey Hnot) as (e & He).
  pose proof (main_config_error int setup_logging _ server uuid
                {| main.args_pages := None; main.args_dry_run := false |} w e He)
    as [Hw Hcode].
  unfold movies_pipeline.ingest_tmdb_to_bronze, movies_pipeline.run_module.
  unfold main.main in *. rewrite He in *. by destruct e.
Qed.

Lemma ingestion_needs_the_credentials_of_the_parent_witness :
  movies_pipeline.ingest_tmdb_to_bronze decimal (fun _ => true) sample.environment
    sample.catalog "run-1" (∅ : gmap string string) sample.world =
    (movies_pipeline.RuntimeError 1, sample.world).
Proof.
  apply (ingestion_needs_the_credentials_of_the_parent decimal (fun _ => true)
           sample.environment ∅ sample.catalog "run-1" sample.world
           "SNOWFLAKE_PASSWORD").
  - unfold required_keys. do 3 right. left.
  - reflexivity.
Defined.
